(** * MyTypeMeasure: the dual-axis keystroke analyzer ([src/analyzer.js])

    A shallow embedding of the metrics extraction, baseline calibration and
    dual-axis scoring engine, and the properties its specification states.

    Modelling conventions.
    - A JavaScript number that a log, a metrics record, a baseline or a
      weight configuration holds is finite, and is an exact rational ([Q]):
      rounding is not modelled.  Equality of such numbers is [Qeq] ([==]).
      The metrics extraction, the calibration and [normalize] work on these:
      the source guards every division whose divisor can be zero, and
      [normalize] maps a finite value into the unit interval.
    - The weighted sums and the paste product of the scorer can leave the
      finite range on finite inputs.  There a number is a [number]: a finite
      value, an infinity or [NaN], with the arithmetic of the source's
      doubles on them (overflow to an infinity, [0 * Infinity] and
      [Infinity - Infinity] are [NaN], [Math.max] and [Math.min] pass [NaN]
      on).
    - A JavaScript string is a [string]; [.length] is [String.length].
    - An array is a [list]; a read [a[i]] is the lookup [a !! i], whose [None]
      is JavaScript's [undefined].  A read of a timestamp past the end of
      [EventTime] would be [NaN] in the source; it is [0] here, and every
      statement that depends on such a read assumes a well-formed log.
    - [null] results are [None].
    - The event log is an object on a heap ([gmap] from locations to objects)
      wherever mutation matters; the pure functions take the object's value. *)

From Stdlib Require Import QArith Qminmax Qabs Lqa.
From stdpp Require Import base option list sorting gmap strings pretty.

(** ** Numbers *)

Module JS.

(** [x < y], [x >= y] and [x === y] on numbers. *)
Definition ltb (x y : Q) : bool := negb (Qle_bool y x).
Definition geb (x y : Q) : bool := Qle_bool y x.
Definition eqb (x y : Q) : bool := Qeq_bool x y.

(** [Math.max(a, b)] and [Math.min(a, b)]. *)
Definition Math_max (a b : Q) : Q := if Qle_bool a b then b else a.
Definition Math_min (a b : Q) : Q := if Qle_bool a b then a else b.

(** The number of a length or an index. *)
Definition num (n : nat) : Q := inject_Z (Z.of_nat n).

(** [arr.reduce((a, b) => a + b, 0)]. *)
Definition sum (arr : list Q) : Q := foldl Qplus 0%Q arr.

(** [o === s] for a value [o] that may be [undefined]. *)
Definition str_eq (o : option string) (s : string) : bool :=
  match o with
  | Some x => String.eqb x s
  | None => false
  end.

(** [arr.includes(o)] on an array of strings. *)
Definition includes (arr : list string) (o : option string) : bool :=
  existsb (str_eq o) arr.

(** [s ? s.length : 0]: the length of a string that may be [undefined]. *)
Definition length_or_0 (o : option string) : nat :=
  match o with
  | Some s => String.length s
  | None => 0
  end.

End JS.

(** ** The benchmark table *)

Record Benchmark := { mean : Q; sd : Q }.

Module BM.
Record t := {
  pause_time_mean : Benchmark;
  pause_before_sentences : Benchmark;
  pause_before_words : Benchmark;
  total_insertions : Benchmark;
  num_insertions : Benchmark;
  total_deletions_words : Benchmark;
  num_revisions : Benchmark;
  product_process_ratio : Benchmark;
  pause_within_words_count : Benchmark;
  rburst_length_median : Benchmark;
  characters_per_minute : Benchmark
}.
End BM.

Definition BENCHMARKS : BM.t := {|
  BM.pause_time_mean := {| mean := 1.646; sd := 0.783 |};
  BM.pause_before_sentences := {| mean := 12.682; sd := 29.433 |};
  BM.pause_before_words := {| mean := 1.398; sd := 0.825 |};
  BM.total_insertions := {| mean := 307.96; sd := 344.11 |};
  BM.num_insertions := {| mean := 32.95; sd := 36.005 |};
  BM.total_deletions_words := {| mean := 115.218; sd := 130.943 |};
  BM.num_revisions := {| mean := 125.95; sd := 85.112 |};
  BM.product_process_ratio := {| mean := 0.824; sd := 0.111 |};
  BM.pause_within_words_count := {| mean := 408.688; sd := 245.747 |};
  BM.rburst_length_median := {| mean := 6.27; sd := 6.431 |};
  BM.characters_per_minute := {| mean := 200; sd := 75 |}
|}.

(** ** Normalization primitives *)

Definition clamp (val min max : Q) : Q :=
  JS.Math_max min (JS.Math_min max val).

Definition normalize (value mean sd : Q) : Q :=
  if JS.eqb sd 0 then 0.5%Q
  else
    let z := ((value - mean) / sd)%Q in
    clamp (z / 4 + 0.5)%Q 0 1.

Definition normalizeInverted (value mean sd : Q) : Q :=
  (1 - normalize value mean sd)%Q.

(** ** Median *)

(** [[...arr].sort((a, b) => a - b)]: a sorted copy, ascending. *)
Fixpoint insert_sorted (x : Q) (l : list Q) : list Q :=
  match l with
  | [] => [x]
  | y :: r => if Qle_bool x y then x :: l else y :: insert_sorted x r
  end.

Definition sort_numeric (arr : list Q) : list Q := foldr insert_sorted [] arr.

Definition calculateMedian (arr : list Q) : Q :=
  if (length arr =? 0)%nat then 0%Q
  else
    let sorted := sort_numeric arr in
    let mid := (length sorted / 2)%nat in
    if negb (length sorted mod 2 =? 0)%nat
    then default 0%Q (sorted !! mid)
    else ((default 0 (sorted !! (mid - 1)%nat) + default 0 (sorted !! mid)) / 2)%Q.

(** ** The keystroke event log *)

Record Keylog := {
  EventID : list Z;
  EventTime : list Q;
  Output : list string;
  Activity : option (list string);     (* optional: [keylog.Activity ? ...] *)
  TextChange : option (list string);   (* optional: [keylog.TextChange ? ...] *)
  CursorPosition : list Q;
  TextContent : list string;
  FinalProduct : option string         (* a string, or absent *)
}.

(** The invariant of the data model: parallel fields of equal length. *)
Definition well_formed (k : Keylog) : Prop :=
  let n := length (EventID k) in
  length (EventTime k) = n ∧ length (Output k) = n ∧
  length (CursorPosition k) = n ∧ length (TextContent k) = n ∧
  (∀ a, Activity k = Some a → length a = n) ∧
  (∀ t, TextChange k = Some t → length t = n).

(** [keylog.EventTime[i]]. *)
Definition time_at (k : Keylog) (i : nat) : Q := default 0%Q (EventTime k !! i).

(** [arr.length > 0 ? arr[arr.length - 1] : ''] and [arr[arr.length - 1] || '']:
    both are the last snapshot, or the empty string. *)
Definition last_snapshot (arr : list string) : string := default EmptyString (last arr).

(** ** Extracted metrics *)

Record Metrics := {
  product_process_ratio : Q;
  num_revisions : Q;
  num_deletions : Q;
  total_deletions_words : Q;
  total_insertions : Q;
  num_insertions : Q;
  paste_events : Q;
  paste_characters : Q;
  rburst_length_median : Q;
  characters_per_minute : Q;
  pause_time_mean : Q;
  pause_within_words_count : Q;
  pause_before_words : Q;
  pause_before_sentences : Q;
  durationSeconds : Q;
  finalLength : Q;
  totalEvents : Q
}.

(** The variables the main loop of [extractMetrics] updates, grouped by the
    block of the loop body that owns them. *)
Module Acc.
Record Paste := { paste_events : Q; paste_characters : Q }.
Record Revision := {
  total_insertions : Q;
  num_insertions : Q;
  num_deletions : Q;
  total_deletions_words : Q;
  num_revisions : Q
}.
Record Pause := {
  pauses_before_words : list Q;
  pauses_before_sentences : list Q;
  pauses_within_words : Q
}.
Record Burst := { bursts : list Q; currentBurstStartTime : Q }.
Record t := { paste : Paste; revision : Revision; pause : Pause; burst : Burst }.
End Acc.

Definition PAUSE_THRESHOLD_MS : Q := 200.

Definition boundary_outputs : list string :=
  ["Space"; "."; ","; "!"; "?"; "Shift"; "Backspace"]%string.

Section LoopBody.
Variable keylog : Keylog.
Variable i : nat.

Definition prevOutput : option string := Output keylog !! (i - 1)%nat.
Definition currOutput : option string := Output keylog !! i.
Definition activity : option string :=
  match Activity keylog with
  | Some a => a !! i
  | None => Some "Input"%string
  end.
Definition textChange : option string :=
  match TextChange keylog with
  | Some t => t !! i
  | None => Some EmptyString
  end.
Definition iki : Q := (time_at keylog i - time_at keylog (i - 1))%Q.

(** [activity === 'Remove/Cut' || currOutput === 'Backspace'] *)
Definition is_deletion : bool :=
  JS.str_eq activity "Remove/Cut" || JS.str_eq currOutput "Backspace".

Definition paste_block (p : Acc.Paste) : Acc.Paste :=
  if JS.str_eq activity "Paste" then
    {| Acc.paste_events := (Acc.paste_events p + 1)%Q;
       Acc.paste_characters :=
         (Acc.paste_characters p +
          match textChange with
          | Some s =>
              if negb (String.eqb s EmptyString) && negb (String.eqb s "NoChange")
              then JS.num (String.length s) else 0
          | None => 0
          end)%Q |}
  else p.

Definition deletion_block (r : Acc.Revision) : Acc.Revision :=
  if is_deletion then
    {| Acc.total_insertions := Acc.total_insertions r;
       Acc.num_insertions := Acc.num_insertions r;
       Acc.num_deletions := (Acc.num_deletions r + 1)%Q;
       Acc.total_deletions_words := (Acc.total_deletions_words r + 0.2)%Q;
       Acc.num_revisions := (Acc.num_revisions r + 1)%Q |}
  else r.

(** [prevCursor < prevLength]; false when the cursor position is [undefined]. *)
Definition cursor_before_end : bool :=
  match CursorPosition keylog !! (i - 1)%nat with
  | Some prevCursor =>
      JS.ltb prevCursor (JS.num (JS.length_or_0 (TextContent keylog !! (i - 1)%nat)))
  | None => false
  end.

Definition insertion_block (r : Acc.Revision) : Acc.Revision :=
  if JS.str_eq activity "Input" && cursor_before_end then
    {| Acc.total_insertions := (Acc.total_insertions r + 1)%Q;
       Acc.num_insertions := (Acc.num_insertions r + 1)%Q;
       Acc.num_deletions := Acc.num_deletions r;
       Acc.total_deletions_words := Acc.total_deletions_words r;
       Acc.num_revisions := (Acc.num_revisions r + 1)%Q |}
  else r.

Definition pause_block (p : Acc.Pause) : Acc.Pause :=
  if JS.geb iki PAUSE_THRESHOLD_MS then
    if JS.str_eq prevOutput "Space" || (i =? 1)%nat then
      {| Acc.pauses_before_words := Acc.pauses_before_words p ++ [iki];
         Acc.pauses_before_sentences := Acc.pauses_before_sentences p;
         Acc.pauses_within_words := Acc.pauses_within_words p |}
    else if JS.includes ["."; "!"; "?"]%string prevOutput then
      {| Acc.pauses_before_words := Acc.pauses_before_words p;
         Acc.pauses_before_sentences := Acc.pauses_before_sentences p ++ [iki];
         Acc.pauses_within_words := Acc.pauses_within_words p |}
    else if negb (JS.includes boundary_outputs prevOutput) &&
            negb (JS.includes boundary_outputs currOutput) then
      {| Acc.pauses_before_words := Acc.pauses_before_words p;
         Acc.pauses_before_sentences := Acc.pauses_before_sentences p;
         Acc.pauses_within_words := (Acc.pauses_within_words p + 1)%Q |}
    else p
  else p.

(** The condition of the burst block:
    [activity === 'Remove/Cut' || currOutput === 'Backspace' || iki >= 2000]. *)
Definition burst_boundary : bool := is_deletion || JS.geb iki 2000.

Definition burst_block (b : Acc.Burst) : Acc.Burst :=
  if burst_boundary then
    let burstLength :=
      ((time_at keylog (i - 1) - Acc.currentBurstStartTime b) / 1000.0)%Q in
    {| Acc.bursts :=
         if JS.ltb 0 burstLength then Acc.bursts b ++ [burstLength] else Acc.bursts b;
       Acc.currentBurstStartTime := time_at keylog i |}
  else b.

Definition loop_body (st : Acc.t) : Acc.t :=
  {| Acc.paste := paste_block (Acc.paste st);
     Acc.revision := insertion_block (deletion_block (Acc.revision st));
     Acc.pause := pause_block (Acc.pause st);
     Acc.burst := burst_block (Acc.burst st) |}.

End LoopBody.

Definition loop_init (keylog : Keylog) : Acc.t :=
  {| Acc.paste := {| Acc.paste_events := 0; Acc.paste_characters := 0 |};
     Acc.revision :=
       {| Acc.total_insertions := 0; Acc.num_insertions := 0; Acc.num_deletions := 0;
          Acc.total_deletions_words := 0; Acc.num_revisions := 0 |};
     Acc.pause :=
       {| Acc.pauses_before_words := []; Acc.pauses_before_sentences := [];
          Acc.pauses_within_words := 0 |};
     Acc.burst :=
       {| Acc.bursts := []; Acc.currentBurstStartTime := time_at keylog 0 |} |}.

(** [for (let i = 1; i < eventsCount; i++) body]: the state after the
    iterations [1 .. eventsCount - 1]. *)
Definition main_loop (keylog : Keylog) (eventsCount : nat) : Acc.t :=
  foldl (λ st i, loop_body keylog i st) (loop_init keylog) (seq 1 (eventsCount - 1)).

(** The bursts after the loop and the flush of the trailing burst. *)
Definition all_bursts (keylog : Keylog) (eventsCount : nat) : list Q :=
  let b := Acc.burst (main_loop keylog eventsCount) in
  let finalBurstLength :=
    ((time_at keylog (eventsCount - 1) - Acc.currentBurstStartTime b) / 1000.0)%Q in
  if JS.ltb 0 finalBurstLength then Acc.bursts b ++ [finalBurstLength] else Acc.bursts b.

(** [arr.length > 0 ? (sum / arr.length / 1000.0) : 0] *)
Definition mean_seconds (arr : list Q) : Q :=
  if (0 <? length arr)%nat then (JS.sum arr / JS.num (length arr) / 1000.0)%Q else 0%Q.

Definition final_text (keylog : Keylog) : string :=
  match FinalProduct keylog with
  | Some s => s
  | None => last_snapshot (TextContent keylog)
  end.

Definition extractMetrics (keylog : Keylog) : option Metrics :=
  let eventsCount := length (EventID keylog) in
  if (eventsCount <? 2)%nat then None
  else
    let durationMs := (time_at keylog (eventsCount - 1) - time_at keylog 0)%Q in
    let durationSeconds := (durationMs / 1000.0)%Q in
    let finalLength := JS.num (String.length (final_text keylog)) in
    let ikis := map (λ i, iki keylog i) (seq 1 (eventsCount - 1)) in
    let pauses := filter (λ iki, JS.geb iki PAUSE_THRESHOLD_MS = true) ikis in
    let st := main_loop keylog eventsCount in
    let bursts := all_bursts keylog eventsCount in
    let total_keystrokes :=
      match Activity keylog with
      | Some a => length (filter (λ a, JS.str_eq (Some a) "Input" = true) a)
      | None => eventsCount
      end in
    let total_keystrokes := if (total_keystrokes =? 0)%nat then 1%nat else total_keystrokes in
    Some {|
      product_process_ratio := (finalLength / JS.num total_keystrokes)%Q;
      num_revisions := Acc.num_revisions (Acc.revision st);
      num_deletions := Acc.num_deletions (Acc.revision st);
      total_deletions_words := Acc.total_deletions_words (Acc.revision st);
      total_insertions := Acc.total_insertions (Acc.revision st);
      num_insertions := Acc.num_insertions (Acc.revision st);
      paste_events := Acc.paste_events (Acc.paste st);
      paste_characters := Acc.paste_characters (Acc.paste st);
      rburst_length_median := calculateMedian bursts;
      characters_per_minute :=
        if JS.ltb 0 durationSeconds then (finalLength / durationSeconds * 60)%Q else 0%Q;
      pause_time_mean := mean_seconds pauses;
      pause_within_words_count := Acc.pauses_within_words (Acc.pause st);
      pause_before_words := mean_seconds (Acc.pauses_before_words (Acc.pause st));
      pause_before_sentences := mean_seconds (Acc.pauses_before_sentences (Acc.pause st));
      durationSeconds := durationSeconds;
      finalLength := finalLength;
      totalEvents := JS.num eventsCount
    |}.


(** ** Baseline calibration *)

Record Baseline := { cpm_mean : Q; cpm_sd : Q; rburst_mean : Q; rburst_sd : Q }.

(** The final text [getCalibrationData] resolves: an empty [FinalProduct]
    counts as absent here. *)
Definition calib_final_text (keylog : Keylog) : string :=
  match FinalProduct keylog with
  | Some s =>
      if String.eqb s EmptyString then last_snapshot (TextContent keylog) else s
  | None => last_snapshot (TextContent keylog)
  end.

(** The scan [for (i = 0; i < TextContent.length; i++)] for the first snapshot
    of 200 characters or more; [i] is the index of the head of [snaps]. *)
Fixpoint first_long_snapshot (snaps : list string) (i : nat) : option nat :=
  match snaps with
  | [] => None
  | s :: rest =>
      if (200 <=? String.length s)%nat then Some i
      else first_long_snapshot rest (S i)
  end.

Definition calibEventIndex (keylog : Keylog) : nat :=
  match first_long_snapshot (TextContent keylog) 0 with
  | Some i => i + 1
  | None => length (EventID keylog)
  end.

(** Every array field cut by [.slice(0, n)], every other field as it is. *)
Definition slice_keylog (keylog : Keylog) (n : nat) : Keylog := {|
  EventID := take n (EventID keylog);
  EventTime := take n (EventTime keylog);
  Output := take n (Output keylog);
  Activity := take n <$> Activity keylog;
  TextChange := take n <$> TextChange keylog;
  CursorPosition := take n (CursorPosition keylog);
  TextContent := take n (TextContent keylog);
  FinalProduct := FinalProduct keylog
|}.

(** [obj.FinalProduct = obj.TextContent[obj.TextContent.length - 1] || ''] *)
Definition rewrite_FinalProduct (obj : Keylog) : Keylog := {|
  EventID := EventID obj;
  EventTime := EventTime obj;
  Output := Output obj;
  Activity := Activity obj;
  TextChange := TextChange obj;
  CursorPosition := CursorPosition obj;
  TextContent := TextContent obj;
  FinalProduct := Some (last_snapshot (TextContent obj))
|}.

(** The value of [slicedKeylog] when it is passed to [extractMetrics]. *)
Definition slicedKeylog (keylog : Keylog) : Keylog :=
  rewrite_FinalProduct (slice_keylog keylog (calibEventIndex keylog)).

Definition baseline_of (baseMetrics : Metrics) : Baseline :=
  let cvCpm :=
    (sd (BM.characters_per_minute BENCHMARKS) / mean (BM.characters_per_minute BENCHMARKS))%Q in
  let cvBurst :=
    (sd (BM.rburst_length_median BENCHMARKS) / mean (BM.rburst_length_median BENCHMARKS))%Q in
  {| cpm_mean := characters_per_minute baseMetrics;
     cpm_sd := (characters_per_minute baseMetrics * cvCpm)%Q;
     rburst_mean := rburst_length_median baseMetrics;
     rburst_sd := (rburst_length_median baseMetrics * cvBurst)%Q |}.

(** [if (!baseMetrics || baseMetrics.characters_per_minute === 0) return null] *)
Definition baseline_result (baseMetrics : option Metrics) : option Baseline :=
  match baseMetrics with
  | None => None
  | Some bm =>
      if JS.eqb (characters_per_minute bm) 0 then None else Some (baseline_of bm)
  end.

Definition getCalibrationData (keylog : Keylog) : option Baseline :=
  if (length (EventID keylog) <? 2)%nat then None
  else if (String.length (calib_final_text keylog) <? 200)%nat then None
  else baseline_result (extractMetrics (slicedKeylog keylog)).

(** ** Numbers beyond the finite range

    A sum or a product of finite doubles can overflow.  A [number] is a
    finite value, [Infinity], [-Infinity] or [NaN].  A result whose
    magnitude reaches [OVERFLOW] (the midpoint between the largest double,
    [2^1024 - 2^971], and [2^1024]) is an infinity; below it the result is
    kept exact.  A finite value of magnitude at most [UNDERFLOW] (half the
    smallest positive double) is the double [0], which matters where it is
    multiplied by an infinity. *)

Inductive number :=
  | Fin (q : Q)
  | Inf (negative : bool)
  | NaN.

Definition OVERFLOW : Q := inject_Z (2 ^ 1024 - 2 ^ 970).
Definition UNDERFLOW : Q := 1 # (2 ^ 1075).

(** The double of an exact result, as far as its range goes. *)
Definition to_double (q : Q) : number :=
  if Qle_bool OVERFLOW q then Inf false
  else if Qle_bool q (- OVERFLOW) then Inf true
  else Fin q.

Definition is_zero (q : Q) : bool := Qle_bool (Qabs q) UNDERFLOW.

(** [a + b] *)
Definition Num_add (a b : number) : number :=
  match a, b with
  | NaN, _ | _, NaN => NaN
  | Fin x, Fin y => to_double (x + y)
  | Fin _, Inf s | Inf s, Fin _ => Inf s
  | Inf s, Inf s' => if Bool.eqb s s' then Inf s else NaN
  end.

(** [a * b] *)
Definition Num_mul (a b : number) : number :=
  match a, b with
  | NaN, _ | _, NaN => NaN
  | Fin x, Fin y => to_double (x * y)
  | Fin x, Inf s | Inf s, Fin x => if is_zero x then NaN else Inf (xorb s (JS.ltb x 0))
  | Inf s, Inf s' => Inf (xorb s s')
  end.

(** [a < b], which is false as soon as one side is [NaN]. *)
Definition Num_ltb (a b : number) : bool :=
  match a, b with
  | NaN, _ | _, NaN => false
  | Fin x, Fin y => JS.ltb x y
  | Fin _, Inf s => negb s
  | Inf s, Fin _ => s
  | Inf s, Inf s' => s && negb s'
  end.

(** [Math.max(a, b)] and [Math.min(a, b)], which are [NaN] as soon as one
    argument is. *)
Definition Num_max (a b : number) : number :=
  match a, b with
  | NaN, _ | _, NaN => NaN
  | Fin x, Fin y => Fin (JS.Math_max x y)
  | Inf false, _ | _, Inf false => Inf false
  | Inf true, c | c, Inf true => c
  end.

Definition Num_min (a b : number) : number :=
  match a, b with
  | NaN, _ | _, NaN => NaN
  | Fin x, Fin y => Fin (JS.Math_min x y)
  | Inf true, _ | _, Inf true => Inf true
  | Inf false, c | c, Inf false => c
  end.

(** [clamp] on a value that may be infinite or [NaN]. *)
Definition clamp_number (val : number) (min max : Q) : number :=
  Num_max (Fin min) (Num_min (Fin max) val).

Infix "⊕" := Num_add (at level 50, left associativity).
Infix "⊗" := Num_mul (at level 40, left associativity).

(** [x] is a finite number of the interval [[lo, hi]]. *)
Definition within (lo hi : Q) (x : number) : Prop :=
  match x with
  | Fin q => (lo <= q <= hi)%Q
  | _ => False
  end.

(** [x] is [NaN], or a finite number of the interval [[lo, hi]]. *)
Definition NaN_or_within (lo hi : Q) (x : number) : Prop := x = NaN \/ within lo hi x.

(** [x] is not negative: a finite value from 0 on, or [Infinity]. *)
Definition nonneg (x : number) : Prop :=
  match x with
  | Fin q => (0 <= q)%Q
  | Inf s => s = false
  | NaN => False
  end.

(** The order of the extended line, in which [NaN] is related to every
    number: what a monotone computation keeps, [NaN] being passed on. *)
Definition le_or_NaN (a b : number) : Prop :=
  match a, b with
  | NaN, _ | _, NaN => True
  | Inf true, _ | _, Inf false => True
  | Fin x, Fin y => (x <= y)%Q
  | _, _ => False
  end.

(** ** Weights and scores *)

Module Groups.
Record t := {
  pathShape : Q;
  revisionActivity : Q;
  fluency : Q;
  pauseBehavior : Q;
  unconstrainedAction : Q
}.
End Groups.

Module Rev.
Record t := {
  num_revisions : Q;
  num_deletions : Q;
  total_deletions_words : Q;
  total_insertions : Q;
  num_insertions : Q
}.
End Rev.

Module Flu.
Record t := { rburst_length_median : Q; characters_per_minute : Q }.
End Flu.

Module Pb.
Record t := {
  pause_time_mean : Q;
  pause_within_words_count : Q;
  pause_before_words : Q;
  pause_before_sentences : Q
}.
End Pb.

Module Paste.
Record t := { BASE_JUMP : Q; CHAR_SCALE : Q }.
End Paste.

Record Weights := {
  groups : Groups.t;
  rev : Rev.t;
  flu : Flu.t;
  pb : Pb.t;
  paste : Paste.t
}.

Record Components := {
  pathShape : number;
  revBase : number;
  fluencyBase : number;
  pbBase : number;
  pasteScore : number
}.

Record DualAxis := {
  linearityScore : number;
  spontaneityScore : number;
  components : Components
}.

(** [x || 0.001] on a number: the fallback replaces a zero. *)
Definition or_epsilon (x : Q) : Q := if JS.eqb x 0 then 0.001%Q else x.

(** The parameters of the two fluency metrics: the benchmark's, or the
    baseline's when one is supplied. *)
Definition fluency_params (calibrationData : option Baseline) : Baseline :=
  match calibrationData with
  | Some c =>
      {| cpm_mean := cpm_mean c;
         cpm_sd := or_epsilon (cpm_sd c);
         rburst_mean := rburst_mean c;
         rburst_sd := or_epsilon (rburst_sd c) |}
  | None =>
      {| cpm_mean := mean (BM.characters_per_minute BENCHMARKS);
         cpm_sd := sd (BM.characters_per_minute BENCHMARKS);
         rburst_mean := mean (BM.rburst_length_median BENCHMARKS);
         rburst_sd := sd (BM.rburst_length_median BENCHMARKS) |}
  end.

(** [normalize] and [normalizeInverted] against a row of the benchmark table. *)
Definition norm_bm (value : Q) (b : Benchmark) : Q := normalize value (mean b) (sd b).
Definition norm_inv_bm (value : Q) (b : Benchmark) : Q := normalizeInverted value (mean b) (sd b).

Section Scorer.
Variable metrics : Metrics.
Variable weights : Weights.
Variable calibrationData : option Baseline.

Definition pathShape_of : Q :=
  norm_bm (product_process_ratio metrics) (BM.product_process_ratio BENCHMARKS).

Definition revBase_of : number :=
  let rev1 := norm_inv_bm (num_revisions metrics) (BM.num_revisions BENCHMARKS) in
  let rev2 := norm_inv_bm (num_deletions metrics) (BM.num_revisions BENCHMARKS) in
  let rev3 := norm_inv_bm (total_deletions_words metrics) (BM.total_deletions_words BENCHMARKS) in
  let rev4 := norm_inv_bm (total_insertions metrics) (BM.total_insertions BENCHMARKS) in
  let rev5 := norm_inv_bm (num_insertions metrics) (BM.num_insertions BENCHMARKS) in
  Fin rev1 ⊗ Fin (Rev.num_revisions (rev weights)) ⊕
  Fin rev2 ⊗ Fin (Rev.num_deletions (rev weights)) ⊕
  Fin rev3 ⊗ Fin (Rev.total_deletions_words (rev weights)) ⊕
  Fin rev4 ⊗ Fin (Rev.total_insertions (rev weights)) ⊕
  Fin rev5 ⊗ Fin (Rev.num_insertions (rev weights)).

Definition linearity_of : number :=
  Fin pathShape_of ⊗ Fin (Groups.pathShape (groups weights)) ⊕
  revBase_of ⊗ Fin (Groups.revisionActivity (groups weights)).

Definition fluencyBase_of : number :=
  let p := fluency_params calibrationData in
  let flu1 := normalize (rburst_length_median metrics) (rburst_mean p) (rburst_sd p) in
  let flu2 := normalize (characters_per_minute metrics) (cpm_mean p) (cpm_sd p) in
  Fin flu1 ⊗ Fin (Flu.rburst_length_median (flu weights)) ⊕
  Fin flu2 ⊗ Fin (Flu.characters_per_minute (flu weights)).

Definition pbBase_of : number :=
  let pb1 := norm_inv_bm (pause_time_mean metrics) (BM.pause_time_mean BENCHMARKS) in
  let pb2 := norm_inv_bm (pause_within_words_count metrics) (BM.pause_within_words_count BENCHMARKS) in
  let pb3 := norm_inv_bm (pause_before_words metrics) (BM.pause_before_words BENCHMARKS) in
  let pb4 := norm_inv_bm (pause_before_sentences metrics) (BM.pause_before_sentences BENCHMARKS) in
  Fin pb1 ⊗ Fin (Pb.pause_time_mean (pb weights)) ⊕
  Fin pb2 ⊗ Fin (Pb.pause_within_words_count (pb weights)) ⊕
  Fin pb3 ⊗ Fin (Pb.pause_before_words (pb weights)) ⊕
  Fin pb4 ⊗ Fin (Pb.pause_before_sentences (pb weights)).

Definition spontaneityBase_of : number :=
  fluencyBase_of ⊗ Fin (Groups.fluency (groups weights)) ⊕
  pbBase_of ⊗ Fin (Groups.pauseBehavior (groups weights)).

Definition pasteScore_of : number :=
  clamp_number
    (Fin (paste_events metrics) ⊗ Fin (Paste.BASE_JUMP (paste weights)) ⊗
     (Fin 1 ⊕ Fin (paste_characters metrics) ⊗ Fin (Paste.CHAR_SCALE (paste weights))))
    0 0.40.

Definition spontaneity_of : number :=
  clamp_number
    (spontaneityBase_of ⊕
     pasteScore_of ⊗ Fin (Groups.unconstrainedAction (groups weights)))
    0 1.

Definition dual_axis : DualAxis := {|
  linearityScore := clamp_number linearity_of 0 1 ⊗ Fin 100;
  spontaneityScore := spontaneity_of ⊗ Fin 100;
  components := {|
    pathShape := Fin pathShape_of;
    revBase := revBase_of;
    fluencyBase := fluencyBase_of;
    pbBase := pbBase_of;
    pasteScore := pasteScore_of
  |}
|}.

End Scorer.

Definition calculateDualAxis (metrics : option Metrics) (weights : Weights)
    (calibrationData : option Baseline) : option DualAxis :=
  match metrics with
  | None => None
  | Some m => Some (dual_axis m weights calibrationData)
  end.

Definition DEFAULT_WEIGHTS : Weights := {|
  groups := {|
    Groups.pathShape := 0.60;
    Groups.revisionActivity := 0.40;
    Groups.fluency := 0.50;
    Groups.pauseBehavior := 0.50;
    Groups.unconstrainedAction := 1.0
  |};
  rev := {|
    Rev.num_revisions := 0.35;
    Rev.num_deletions := 0.25;
    Rev.total_deletions_words := 0.20;
    Rev.total_insertions := 0.10;
    Rev.num_insertions := 0.10
  |};
  flu := {|
    Flu.rburst_length_median := 0.5;
    Flu.characters_per_minute := 0.5
  |};
  pb := {|
    Pb.pause_time_mean := 0.40;
    Pb.pause_within_words_count := 0.30;
    Pb.pause_before_words := 0.20;
    Pb.pause_before_sentences := 0.10
  |};
  paste := {| Paste.BASE_JUMP := 0.12; Paste.CHAR_SCALE := 0.0002 |}
|}.

(** ** The event log as a heap object

    [extractMetrics] and [getCalibrationData] receive a reference to the log.
    A heap maps locations to objects; a computation threads the heap.  The
    arrays of an object are held by value: the source updates no array of a
    log in place ([slice] and [filter] build new arrays, [push] and [sort]
    act on arrays local to a call), so only writes to fields are modelled. *)

Definition loc := positive.

Definition M (A : Type) : Type := gmap loc Keylog → A * gmap loc Keylog.

#[global] Instance M_ret : MRet M := λ A x σ, (x, σ).
#[global] Instance M_bind : MBind M :=
  λ A B f m σ, let '(x, σ') := m σ in f x σ'.

(** Reading the object behind a reference. *)
Definition deref (l : loc) : M (option Keylog) := λ σ, (σ !! l, σ).

(** [{}]: a new object at a location not in use. *)
Definition alloc (obj : Keylog) : M loc :=
  λ σ, let l := fresh (dom σ) in (l, <[l := obj]> σ).

(** [dst[key] = e(src)]: a write to the object at [dst], from a value read
    from the object at [src]. *)
Definition assign_from (src dst : loc) (f : Keylog → Keylog → Keylog) : M unit :=
  λ σ, match σ !! src with
       | Some s => (tt, alter (f s) dst σ)
       | None => (tt, σ)
       end.

Fixpoint for_each {A : Type} (l : list A) (body : A → M unit) : M unit :=
  match l with
  | [] => mret tt
  | x :: rest => body x ≫= λ _, for_each rest body
  end.

(** The keys of a log object. *)
Inductive Key :=
  | KEventID | KEventTime | KOutput | KActivity | KTextChange
  | KCursorPosition | KTextContent | KFinalProduct.

#[global] Instance Key_eq_dec : EqDecision Key.
Proof. solve_decision. Defined.

(** [for (const key in keylog)]: the keys the object has. *)
Definition keys_of (keylog : Keylog) : list Key :=
  [KEventID; KEventTime; KOutput] ++
  (if Activity keylog is Some _ then [KActivity] else []) ++
  (if TextChange keylog is Some _ then [KTextChange] else []) ++
  [KCursorPosition; KTextContent] ++
  (if FinalProduct keylog is Some _ then [KFinalProduct] else []).

(** The object before any key is set. *)
Definition emptyObject : Keylog := {|
  EventID := []; EventTime := []; Output := []; Activity := None;
  TextChange := None; CursorPosition := []; TextContent := [];
  FinalProduct := None
|}.

(** The field [key'] after an assignment to the field [key]. *)
Definition field_after {A : Type} (key key' : Key) (new old : A) : A :=
  if decide (key = key') then new else old.

(** [dst[key] = Array.isArray(src[key]) ? src[key].slice(0, n) : src[key]] *)
Definition copy_key (n : nat) (key : Key) (src dst : Keylog) : Keylog := {|
  EventID := field_after key KEventID (take n (EventID src)) (EventID dst);
  EventTime := field_after key KEventTime (take n (EventTime src)) (EventTime dst);
  Output := field_after key KOutput (take n (Output src)) (Output dst);
  Activity := field_after key KActivity (take n <$> Activity src) (Activity dst);
  TextChange := field_after key KTextChange (take n <$> TextChange src) (TextChange dst);
  CursorPosition :=
    field_after key KCursorPosition (take n (CursorPosition src)) (CursorPosition dst);
  TextContent := field_after key KTextContent (take n (TextContent src)) (TextContent dst);
  FinalProduct := field_after key KFinalProduct (FinalProduct src) (FinalProduct dst)
|}.

(** [extractMetrics(keylog)] on a reference: it reads the object. *)
Definition extractMetrics_h (keylog : loc) : M (option Metrics) :=
  obj ← deref keylog;
  mret (obj ≫= extractMetrics).

Definition getCalibrationData_h (keylog : loc) : M (option Baseline) :=
  obj ← deref keylog;
  match obj with
  | None => mret None
  | Some k =>
      if (length (EventID k) <? 2)%nat then mret None
      else if (String.length (calib_final_text k) <? 200)%nat then mret None
      else
        let calibEventIndex := calibEventIndex k in
        slicedKeylog ← alloc emptyObject;
        for_each (keys_of k)
          (λ key, assign_from keylog slicedKeylog (copy_key calibEventIndex key));;
        assign_from slicedKeylog slicedKeylog (λ self _, rewrite_FinalProduct self);;
        baseMetrics ← extractMetrics_h slicedKeylog;
        mret (baseline_result baseMetrics)
  end.

(** [calculateDualAxis] takes no reference to the log: it computes from plain
    values. *)
Definition calculateDualAxis_h (metrics : option Metrics) (weights : Weights)
    (calibrationData : option Baseline) : M (option DualAxis) :=
  mret (calculateDualAxis metrics weights calibrationData).

(** ** The specification's wording, for comparison with the code *)

(** The normalization primitive as the specification words it: [0.5] when the
    spread is zero, else the z-score divided by 4, shifted by 0.5 and clamped
    to the unit interval. *)
Definition normalize_spec (v mean sd : Q) : Q :=
  if Qeq_dec sd 0 then 0.5%Q
  else Qmax 0 (Qmin 1 ((v - mean) / sd / 4 + 0.5))%Q.

(** The burst block as the specification words it: on a boundary, the
    duration runs up to the boundary event's own timestamp. *)
Definition burst_block_spec (keylog : Keylog) (i : nat) (b : Acc.Burst) : Acc.Burst :=
  if burst_boundary keylog i then
    let duration := ((time_at keylog i - Acc.currentBurstStartTime b) / 1000)%Q in
    {| Acc.bursts := if JS.ltb 0 duration then Acc.bursts b ++ [duration] else Acc.bursts b;
       Acc.currentBurstStartTime := time_at keylog i |}
  else b.

(** ** Sample logs *)

(** A text of [n] characters. *)
Definition text_of_length (n : nat) : string :=
  String.string_of_list_ascii (repeat (Ascii.ascii_of_nat 97) n).

(** Five [Input] events at 0, 100, 300, 2500 and 2600 ms, no deletion. *)
Definition log5 : Keylog := {|
  EventID := [1; 2; 3; 4; 5]%Z;
  EventTime := [0; 100; 300; 2500; 2600]%Q;
  Output := ["a"; "b"; "c"; "d"; "e"]%string;
  Activity := Some ["Input"; "Input"; "Input"; "Input"; "Input"]%string;
  TextChange := Some ["a"; "b"; "c"; "d"; "e"]%string;
  CursorPosition := [1; 2; 3; 4; 5]%Q;
  TextContent := ["a"; "ab"; "abc"; "abcd"; "abcde"]%string;
  FinalProduct := Some "abcde"%string
|}.

(** A paste of 200 characters as the first event, then a key that leaves
    the text as it is. *)
Definition log_paste_first : Keylog := {|
  EventID := [1; 2]%Z;
  EventTime := [0; 100]%Q;
  Output := ["v"; "Shift"]%string;
  Activity := Some ["Paste"; "Nonproduction"]%string;
  TextChange := Some [text_of_length 200; "NoChange"%string];
  CursorPosition := [200; 200]%Q;
  TextContent := [text_of_length 200; text_of_length 200];
  FinalProduct := Some (text_of_length 200)
|}.

(** Two minutes of writing that reach 200 characters at the third event. *)
Definition log_two_minutes : Keylog := {|
  EventID := [1; 2; 3]%Z;
  EventTime := [0; 60000; 120000]%Q;
  Output := ["a"; "v"; "v"]%string;
  Activity := Some ["Input"; "Paste"; "Paste"]%string;
  TextChange := Some ["a"%string; text_of_length 99; text_of_length 100];
  CursorPosition := [1; 100; 200]%Q;
  TextContent := ["a"%string; text_of_length 100; text_of_length 200];
  FinalProduct := Some (text_of_length 200)
|}.

(** A final product of 200 characters over snapshots that stay short. *)
Definition log_long_product : Keylog := {|
  EventID := [1; 2]%Z;
  EventTime := [0; 1000]%Q;
  Output := ["a"; "b"]%string;
  Activity := Some ["Input"; "Input"]%string;
  TextChange := Some ["a"; "b"]%string;
  CursorPosition := [1; 2]%Q;
  TextContent := ["a"; "ab"]%string;
  FinalProduct := Some (text_of_length 200)
|}.

(** Two [Input] events 50 ms apart that leave a text of 10 characters. *)
Definition log_two_keys : Keylog := {|
  EventID := [1; 2]%Z;
  EventTime := [1000; 1050]%Q;
  Output := ["i"; "j"]%string;
  Activity := Some ["Input"; "Input"]%string;
  TextChange := Some ["i"; "j"]%string;
  CursorPosition := [9; 10]%Q;
  TextContent := [text_of_length 9; text_of_length 10];
  FinalProduct := Some (text_of_length 10)
|}.

(** A typical metrics record. *)
Definition sample_metrics : Metrics := {|
  product_process_ratio := 0.9; num_revisions := 12; num_deletions := 10;
  total_deletions_words := 2; total_insertions := 2; num_insertions := 2;
  paste_events := 1; paste_characters := 40; rburst_length_median := 3.5;
  characters_per_minute := 180; pause_time_mean := 1.2;
  pause_within_words_count := 30; pause_before_words := 0.9;
  pause_before_sentences := 2.5; durationSeconds := 120; finalLength := 360;
  totalEvents := 400
|}.

(** A metrics record with given paste counts, every other field as in [m]. *)
Definition with_paste (m : Metrics) (events chars : Q) : Metrics := {|
  product_process_ratio := product_process_ratio m;
  num_revisions := num_revisions m;
  num_deletions := num_deletions m;
  total_deletions_words := total_deletions_words m;
  total_insertions := total_insertions m;
  num_insertions := num_insertions m;
  paste_events := events;
  paste_characters := chars;
  rburst_length_median := rburst_length_median m;
  characters_per_minute := characters_per_minute m;
  pause_time_mean := pause_time_mean m;
  pause_within_words_count := pause_within_words_count m;
  pause_before_words := pause_before_words m;
  pause_before_sentences := pause_before_sentences m;
  durationSeconds := durationSeconds m;
  finalLength := finalLength m;
  totalEvents := totalEvents m
|}.

(** ** The dashboard and the report ([RealTimeDashboard], [ExampleApp])

    The callers of the engine.  React state, rendering and the download are
    outside the model; what is modelled is what each caller computes from
    the log, the weights and the scoring mode. *)

(** [String(n)] for a number that is a non-negative integer, as every
    [.length] is: its decimal digits. *)
Definition number_text (n : Q) : string := pretty (Qnum n / Zpos (Qden n))%Z.

Module Dashboard.
Record t := {
  metrics : option Metrics;
  dualAxis : option DualAxis;
  calibStatus : string
}.
End Dashboard.

(** The body of the dashboard's [useMemo].  [None] is the [TypeError] of
    reading [extracted.finalLength] on a [null] result of [extractMetrics]. *)
Definition dashboard_memo (keylog : option Keylog) (weights : Weights)
    (scoringMode : string) : option Dashboard.t :=
  match keylog with
  | None =>
      Some {| Dashboard.metrics := None; Dashboard.dualAxis := None;
              Dashboard.calibStatus := "Waiting for input..." |}
  | Some k =>
      if (length (EventID k) <? 2)%nat then
        Some {| Dashboard.metrics := None; Dashboard.dualAxis := None;
                Dashboard.calibStatus := "Waiting for input..." |}
      else
        let extracted := extractMetrics k in
        if String.eqb scoringMode "calibrated" then
          match getCalibrationData k with
          | Some calib =>
              Some {| Dashboard.metrics := extracted;
                      Dashboard.dualAxis := calculateDualAxis extracted weights (Some calib);
                      Dashboard.calibStatus := "Calibration complete." |}
          | None =>
              match extracted with
              | Some m =>
                  Some {| Dashboard.metrics := extracted;
                          Dashboard.dualAxis := calculateDualAxis extracted weights None;
                          Dashboard.calibStatus :=
                            "Warming up... (" +:+ number_text (finalLength m) +:+
                            "/200 chars for baseline)" |}
              | None => None
              end
          end
        else
          Some {| Dashboard.metrics := extracted;
                  Dashboard.dualAxis := calculateDualAxis extracted weights None;
                  Dashboard.calibStatus := "Not using calibration." |}
  end.



(** The slider handlers.  Each builds the next weights from the previous
    ones: a copy in which one field of one group is replaced.  [value] is the
    number [parseFloat] read from the slider.  A key that names no field the
    scorer reads leaves every such field as it was. *)
Definition set_groups_field (field : string) (value : Q) (g : Groups.t) : Groups.t := {|
  Groups.pathShape := if String.eqb field "pathShape" then value else Groups.pathShape g;
  Groups.revisionActivity :=
    if String.eqb field "revisionActivity" then value else Groups.revisionActivity g;
  Groups.fluency := if String.eqb field "fluency" then value else Groups.fluency g;
  Groups.pauseBehavior :=
    if String.eqb field "pauseBehavior" then value else Groups.pauseBehavior g;
  Groups.unconstrainedAction :=
    if String.eqb field "unconstrainedAction" then value else Groups.unconstrainedAction g
|}.

Definition set_rev_field (field : string) (value : Q) (r : Rev.t) : Rev.t := {|
  Rev.num_revisions := if String.eqb field "num_revisions" then value else Rev.num_revisions r;
  Rev.num_deletions := if String.eqb field "num_deletions" then value else Rev.num_deletions r;
  Rev.total_deletions_words :=
    if String.eqb field "total_deletions_words" then value else Rev.total_deletions_words r;
  Rev.total_insertions :=
    if String.eqb field "total_insertions" then value else Rev.total_insertions r;
  Rev.num_insertions :=
    if String.eqb field "num_insertions" then value else Rev.num_insertions r
|}.

Definition set_flu_field (field : string) (value : Q) (f : Flu.t) : Flu.t := {|
  Flu.rburst_length_median :=
    if String.eqb field "rburst_length_median" then value else Flu.rburst_length_median f;
  Flu.characters_per_minute :=
    if String.eqb field "characters_per_minute" then value else Flu.characters_per_minute f
|}.

Definition set_pb_field (field : string) (value : Q) (p : Pb.t) : Pb.t := {|
  Pb.pause_time_mean :=
    if String.eqb field "pause_time_mean" then value else Pb.pause_time_mean p;
  Pb.pause_within_words_count :=
    if String.eqb field "pause_within_words_count" then value
    else Pb.pause_within_words_count p;
  Pb.pause_before_words :=
    if String.eqb field "pause_before_words" then value else Pb.pause_before_words p;
  Pb.pause_before_sentences :=
    if String.eqb field "pause_before_sentences" then value else Pb.pause_before_sentences p
|}.

Definition set_paste_field (field : string) (value : Q) (p : Paste.t) : Paste.t := {|
  Paste.BASE_JUMP := if String.eqb field "BASE_JUMP" then value else Paste.BASE_JUMP p;
  Paste.CHAR_SCALE := if String.eqb field "CHAR_SCALE" then value else Paste.CHAR_SCALE p
|}.

(** [prev => ({ ...prev, groups: { ...prev.groups, [group]: value } })] *)
Definition handleGroupWeightChange (group : string) (value : Q) (prev : Weights) : Weights := {|
  groups := set_groups_field group value (groups prev);
  rev := rev prev;
  flu := flu prev;
  pb := pb prev;
  paste := paste prev
|}.

(** [prev => ({ ...prev, [category]: { ...prev[category], [field]: value } })] *)
Definition handleSubWeightChange (category field : string) (value : Q)
    (prev : Weights) : Weights := {|
  groups :=
    if String.eqb category "groups" then set_groups_field field value (groups prev)
    else groups prev;
  rev := if String.eqb category "rev" then set_rev_field field value (rev prev) else rev prev;
  flu := if String.eqb category "flu" then set_flu_field field value (flu prev) else flu prev;
  pb := if String.eqb category "pb" then set_pb_field field value (pb prev) else pb prev;
  paste :=
    if String.eqb category "paste" then set_paste_field field value (paste prev)
    else paste prev
|}.

(** The data of the JSON report ([handleDownloadReport]); [None] when there
    is no log and the handler returns at once. *)
Record Report := {
  logging_infrastructure : string;
  benchmarks : string;
  finalText : option string;
  report_metrics : option Metrics;
  analysis : option DualAxis
}.

Definition reportData (keylogData : option Keylog) : option Report :=
  match keylogData with
  | None => None
  | Some k =>
      let extracted := extractMetrics k in
      let result := calculateDualAxis extracted DEFAULT_WEIGHTS None in
      Some {| logging_infrastructure := "FlexKeyLogger by Terry Y. Tian (MIT License)";
              benchmarks := "Based on Crossley et al. / Vanderbilt EDM 2024";
              finalText := FinalProduct k;
              report_metrics := extracted;
              analysis := result |}
  end.

(** ** More sample logs *)

(** Eight events with a pause after a space, a deletion, a paste after a
    long pause and a sentence end; no final product field. *)
Definition log_mixed : Keylog := {|
  EventID := [1; 2; 3; 4; 5; 6; 7; 8]%Z;
  EventTime := [0; 150; 400; 700; 800; 3000; 3100; 3400]%Q;
  Output := ["H"; "i"; "Space"; "x"; "Backspace"; "v"; "."; "A"]%string;
  Activity :=
    Some ["Input"; "Input"; "Input"; "Input"; "Remove/Cut"; "Paste"; "Input"; "Input"]%string;
  TextChange := Some ["H"; "i"; " "; "x"; "x"; "hello"; "."; "A"]%string;
  CursorPosition := [1; 2; 3; 4; 3; 8; 9; 10]%Q;
  TextContent :=
    ["H"; "Hi"; "Hi "; "Hi x"; "Hi "; "Hi hello"; "Hi hello."; "Hi hello.A"]%string;
  FinalProduct := None
|}.

(** Three keystrokes within a second, logged without the optional fields. *)
Definition log_plain : Keylog := {|
  EventID := [1; 2; 3]%Z;
  EventTime := [0; 300; 900]%Q;
  Output := ["a"; "b"; "c"]%string;
  Activity := None;
  TextChange := None;
  CursorPosition := [1; 2; 3]%Q;
  TextContent := ["a"; "ab"; "abc"]%string;
  FinalProduct := Some "abc"%string
|}.

(** [log_two_minutes] as it is two events later. *)
Definition log_two_minutes_later : Keylog := {|
  EventID := [1; 2; 3; 4; 5]%Z;
  EventTime := [0; 60000; 120000; 121000; 122000]%Q;
  Output := ["a"; "v"; "v"; "b"; "c"]%string;
  Activity := Some ["Input"; "Paste"; "Paste"; "Input"; "Input"]%string;
  TextChange := Some ["a"%string; text_of_length 99; text_of_length 100; "b"%string; "c"%string];
  CursorPosition := [1; 100; 200; 201; 202]%Q;
  TextContent :=
    ["a"%string; text_of_length 100; text_of_length 200; text_of_length 201;
     text_of_length 202];
  FinalProduct := Some (text_of_length 202)
|}.

(** ** Invariants of the main loop of [extractMetrics] *)

(** What the loop keeps true of the revision counters. *)
Definition revision_balanced (r : Acc.Revision) : Prop :=
  (Acc.num_revisions r == Acc.num_deletions r + Acc.num_insertions r /\
   Acc.total_insertions r == Acc.num_insertions r /\
   Acc.total_deletions_words r == 0.2 * Acc.num_deletions r)%Q.

(** A counter that each iteration leaves as it is or increases by 1 holds a
    natural number, at most the number of iterations done. *)
Definition counts_upto (j : nat) (x : Q) : Prop :=
  exists c : nat, (c ≤ j)%nat /\ (x == JS.num c)%Q.

(** ** A log as it was earlier *)

(** [earlier] is the log [later] as it was after its first [n] events: each
    array is the prefix of [n] elements (the final product, which the logger
    rewrites, apart). *)
Definition earlier_state (n : nat) (earlier later : Keylog) : Prop :=
  EventID earlier = take n (EventID later) /\
  EventTime earlier = take n (EventTime later) /\
  Output earlier = take n (Output later) /\
  Activity earlier = (take n <$> Activity later) /\
  TextChange earlier = (take n <$> TextChange later) /\
  CursorPosition earlier = take n (CursorPosition later) /\
  TextContent earlier = take n (TextContent later).

(** ** Ranges of weights *)

(** The weights of the linearity axis are not negative. *)
Definition linear_weights_nonneg (w : Weights) : Prop :=
  (0 <= Groups.pathShape (groups w) /\ 0 <= Groups.revisionActivity (groups w) /\
   0 <= Rev.num_revisions (rev w) /\ 0 <= Rev.num_deletions (rev w) /\
   0 <= Rev.total_deletions_words (rev w) /\ 0 <= Rev.total_insertions (rev w) /\
   0 <= Rev.num_insertions (rev w))%Q.

(** They are not negative, and neither the two group weights nor the five
    revision weights add up to more than 1. *)
Definition linear_weights_normalised (w : Weights) : Prop :=
  linear_weights_nonneg w /\
  (Groups.pathShape (groups w) + Groups.revisionActivity (groups w) <= 1 /\
   Rev.num_revisions (rev w) + Rev.num_deletions (rev w) +
   Rev.total_deletions_words (rev w) + Rev.total_insertions (rev w) +
   Rev.num_insertions (rev w) <= 1)%Q.

(** The weights of the spontaneity axis are not negative. *)
Definition spontaneity_weights_nonneg (w : Weights) : Prop :=
  (0 <= Groups.fluency (groups w) /\ 0 <= Groups.pauseBehavior (groups w) /\
   0 <= Groups.unconstrainedAction (groups w) /\
   0 <= Flu.rburst_length_median (flu w) /\ 0 <= Flu.characters_per_minute (flu w) /\
   0 <= Pb.pause_time_mean (pb w) /\ 0 <= Pb.pause_within_words_count (pb w) /\
   0 <= Pb.pause_before_words (pb w) /\ 0 <= Pb.pause_before_sentences (pb w) /\
   0 <= Paste.BASE_JUMP (paste w) /\ 0 <= Paste.CHAR_SCALE (paste w))%Q.

(** ** Inputs that keep the scorer within the finite range *)

Definition LARGE : Q := inject_Z (10 ^ 300).

(** Every weight is non-negative. *)
Definition weights_nonneg (w : Weights) : Prop :=
  linear_weights_nonneg w /\ spontaneity_weights_nonneg w.

(** None of the eleven weights of the three weighted sums exceeds [bound]. *)
Definition sub_weights_upto (bound : Q) (w : Weights) : Prop :=
  (Rev.num_revisions (rev w) <= bound /\ Rev.num_deletions (rev w) <= bound /\
   Rev.total_deletions_words (rev w) <= bound /\ Rev.total_insertions (rev w) <= bound /\
   Rev.num_insertions (rev w) <= bound /\
   Flu.rburst_length_median (flu w) <= bound /\ Flu.characters_per_minute (flu w) <= bound /\
   Pb.pause_time_mean (pb w) <= bound /\ Pb.pause_within_words_count (pb w) <= bound /\
   Pb.pause_before_words (pb w) <= bound /\ Pb.pause_before_sentences (pb w) <= bound)%Q.

(** The two products of the paste contribution stay within [bound]. *)
Definition paste_products_upto (bound : Q) (m : Metrics) (w : Weights) : Prop :=
  (- bound <= paste_events m * Paste.BASE_JUMP (paste w) <= bound /\
   - bound <= paste_characters m * Paste.CHAR_SCALE (paste w) <= bound)%Q.

(** Non-negative weights with which no weighted sum and no factor of the
    paste contribution overflows. *)
Definition no_overflow (m : Metrics) (w : Weights) : Prop :=
  weights_nonneg w /\ sub_weights_upto LARGE w /\ paste_products_upto LARGE m w.



(** A magnitude a double can hold. *)
Definition finite_double (q : Q) : Prop := (- OVERFLOW < q < OVERFLOW)%Q.

(** The default weights with a [CHAR_SCALE] of [10^308], and a record with no
    paste event and [10^308] pasted characters: finite, non-negative inputs
    whose product overflows. *)
Definition overflow_weights : Weights := {|
  groups := groups DEFAULT_WEIGHTS;
  rev := rev DEFAULT_WEIGHTS;
  flu := flu DEFAULT_WEIGHTS;
  pb := pb DEFAULT_WEIGHTS;
  paste := {| Paste.BASE_JUMP := 0.12; Paste.CHAR_SCALE := inject_Z (10 ^ 308) |}
|}.

Definition overflow_metrics : Metrics :=
  with_paste sample_metrics 0 (inject_Z (10 ^ 308)).

(** A record with fewer revisions, shorter pauses, a higher rate and more
    paste than [sample_metrics]. *)
Definition sample_metrics_fluent : Metrics := {|
  product_process_ratio := 0.95; num_revisions := 5; num_deletions := 4;
  total_deletions_words := 0.8; total_insertions := 1; num_insertions := 1;
  paste_events := 2; paste_characters := 300; rburst_length_median := 6;
  characters_per_minute := 240; pause_time_mean := 0.8;
  pause_within_words_count := 12; pause_before_words := 0.6;
  pause_before_sentences := 1.5; durationSeconds := 120; finalLength := 480;
  totalEvents := 420
|}.

(** * Properties *)

(** ** Clamping and normalization *)

Section ClampFacts.
Local Open Scope Q_scope.

Lemma ltb_lt (x y : Q) : JS.ltb x y = true <-> x < y.
Proof.
  unfold JS.ltb. rewrite negb_true_iff.
  destruct (Qle_bool y x) eqn:E.
  - apply Qle_bool_iff in E. split; [discriminate | lra].
  - split; [intros _ | reflexivity].
    apply Qnot_le_lt. intros H. apply Qle_bool_iff in H. congruence.
Qed.

Lemma geb_le (x y : Q) : JS.geb x y = true <-> y <= x.
Proof. unfold JS.geb. apply Qle_bool_iff. Qed.

Lemma eqb_eq (x y : Q) : JS.eqb x y = true <-> x == y.
Proof. unfold JS.eqb. apply Qeq_bool_iff. Qed.

Lemma Math_max_spec (a b : Q) :
  (a <= b /\ JS.Math_max a b = b) \/ (b < a /\ JS.Math_max a b = a).
Proof.
  unfold JS.Math_max. destruct (Qle_bool a b) eqn:E.
  - left. apply Qle_bool_iff in E. auto.
  - right. split; [| reflexivity].
    apply Qnot_le_lt. intros H. apply Qle_bool_iff in H. congruence.
Qed.

Lemma Math_min_spec (a b : Q) :
  (a <= b /\ JS.Math_min a b = a) \/ (b < a /\ JS.Math_min a b = b).
Proof.
  unfold JS.Math_min. destruct (Qle_bool a b) eqn:E.
  - left. apply Qle_bool_iff in E. auto.
  - right. split; [| reflexivity].
    apply Qnot_le_lt. intros H. apply Qle_bool_iff in H. congruence.
Qed.

(** The three cases of [clamp]. *)
Lemma clamp_cases (v lo hi : Q) :
  lo <= hi ->
  (v < lo /\ clamp v lo hi = lo) \/
  (hi < v /\ clamp v lo hi = hi) \/
  (lo <= v <= hi /\ clamp v lo hi == v).
Proof.
  intros Hlh. unfold clamp.
  destruct (Math_min_spec hi v) as [[H1 ->] | [H1 ->]];
    [destruct (Math_max_spec lo hi) as [[H2 ->] | [H2 ->]]
    | destruct (Math_max_spec lo v) as [[H2 ->] | [H2 ->]]].
  - destruct (Qlt_le_dec hi v).
    + right. left. split; [assumption | reflexivity].
    + right. right. split; lra.
  - lra.
  - right. right. split; [lra | reflexivity].
  - left. split; [assumption | reflexivity].
Qed.

Lemma clamp_bounds (v lo hi : Q) : lo <= hi -> lo <= clamp v lo hi <= hi.
Proof.
  intros Hlh.
  destruct (clamp_cases v lo hi Hlh) as [[H ->] | [[H ->] | [H E]]]; lra.
Qed.

Lemma clamp_mono (v1 v2 lo hi : Q) :
  lo <= hi -> v1 <= v2 -> clamp v1 lo hi <= clamp v2 lo hi.
Proof.
  intros Hlh Hv.
  destruct (clamp_cases v1 lo hi Hlh) as [[H1 E1] | [[H1 E1] | [H1 E1]]];
  destruct (clamp_cases v2 lo hi Hlh) as [[H2 E2] | [[H2 E2] | [H2 E2]]];
  rewrite E1, E2; lra.
Qed.

(** [clamp] is the interval clamp of the library's [Qmax] and [Qmin]. *)
Lemma clamp_Qmax_Qmin (v lo hi : Q) :
  lo <= hi -> clamp v lo hi == Qmax lo (Qmin hi v).
Proof.
  intros Hlh.
  destruct (clamp_cases v lo hi Hlh) as [[H E] | [[H E] | [H E]]]; rewrite E.
  - rewrite (Q.min_r hi v) by lra. rewrite Q.max_l; lra.
  - rewrite (Q.min_l hi v) by lra. rewrite Q.max_r; lra.
  - rewrite (Q.min_r hi v) by lra. rewrite Q.max_r; lra.
Qed.

End ClampFacts.

Section ScoreFacts.
Local Open Scope Q_scope.

Lemma num_nonneg (n : nat) : 0 <= JS.num n.
Proof.
  unfold JS.num. change 0 with (inject_Z 0). rewrite <- Zle_Qle. lia.
Qed.

Lemma num_le (n1 n2 : nat) : (n1 ≤ n2)%nat -> JS.num n1 <= JS.num n2.
Proof. intros H. unfold JS.num. rewrite <- Zle_Qle. lia. Qed.

(** C5. The normalization primitive returns exactly 0.5 when the spread is
    zero; otherwise it returns [clamp(((v - mean) / sd) / 4 + 0.5, 0, 1)];
    either way it is the value the specification words (the interval clamp
    of the rescaled z-score), and the inverted normalization is 1 minus it. *)
Theorem normalize_meets_spec (v mean sd : Q) :
  (sd == 0 -> normalize v mean sd = 0.5) /\
  (~ sd == 0 -> normalize v mean sd = clamp ((v - mean) / sd / 4 + 0.5) 0 1) /\
  normalize v mean sd == normalize_spec v mean sd /\
  normalizeInverted v mean sd = 1 - normalize v mean sd.
Proof.
  unfold normalizeInverted, normalize, normalize_spec.
  destruct (JS.eqb sd 0) eqn:E.
  - apply eqb_eq in E.
    split; [reflexivity |]. split; [intros H; contradiction |].
    split; [| reflexivity].
    destruct (Qeq_dec sd 0); [reflexivity | contradiction].
  - assert (Hne : ~ sd == 0) by (intros H; apply eqb_eq in H; congruence).
    split; [intros H; contradiction |]. split; [reflexivity |].
    split; [| reflexivity].
    destruct (Qeq_dec sd 0); [contradiction |].
    apply clamp_Qmax_Qmin. lra.
Qed.

Lemma normalize_meets_spec_witness :
  normalize 100 200 0 = 0.5 /\
  normalize 250 200 75 = clamp ((250 - 200) / 75 / 4 + 0.5) 0 1.
Proof.
  split.
  - exact (proj1 (normalize_meets_spec 100 200 0) (Qeq_refl 0)).
  - refine (proj1 (proj2 (normalize_meets_spec 250 200 75)) _). discriminate.
Defined.

End ScoreFacts.

(** ** The sorted copy of the median *)

Section MedianFacts.
Local Open Scope Q_scope.

Lemma insert_sorted_perm (x : Q) (l : list Q) : insert_sorted x l ≡ₚ x :: l.
Proof.
  induction l as [| y r IH]; simpl; [reflexivity |].
  destruct (Qle_bool x y); [reflexivity |].
  rewrite IH. apply Permutation_swap.
Qed.

Lemma insert_sorted_sorted (x : Q) (l : list Q) :
  Sorted Qle l -> Sorted Qle (insert_sorted x l).
Proof.
  induction 1 as [| y r Hr IH Hy]; simpl.
  - repeat constructor.
  - destruct (Qle_bool x y) eqn:E.
    + apply Qle_bool_iff in E. repeat constructor; assumption.
    + assert (y <= x).
      { apply Qlt_le_weak, Qnot_le_lt. intros H. apply Qle_bool_iff in H. congruence. }
      constructor; [exact IH |].
      destruct Hy as [| z r' Hz]; simpl.
      * repeat constructor. assumption.
      * destruct (Qle_bool x z); constructor; assumption.
Qed.

(** [sort_numeric] is what [sort((a, b) => a - b)] returns on a copy: the
    same elements, in ascending order. *)
Lemma sort_numeric_perm (arr : list Q) : sort_numeric arr ≡ₚ arr.
Proof.
  induction arr as [| x r IH]; simpl; [reflexivity |].
  rewrite insert_sorted_perm. now constructor.
Qed.

Lemma sort_numeric_sorted (arr : list Q) : Sorted Qle (sort_numeric arr).
Proof.
  induction arr as [| x r IH]; simpl; [constructor |].
  now apply insert_sorted_sorted.
Qed.

Lemma calculateMedian_empty : calculateMedian [] = 0.
Proof. reflexivity. Qed.

Lemma calculateMedian_pair (a b : Q) : calculateMedian [a; b] == (a + b) / 2.
Proof.
  unfold calculateMedian. simpl.
  destruct (Qle_bool a b); simpl; field.
Qed.

End MedianFacts.

(** ** The Normalizer *)

Section NormalizerFacts.
Local Open Scope Q_scope.

(** The condition of the burst block, spelled out: the event is a deletion
    or the interval before it is at least 2000 ms. *)
Lemma burst_boundary_iff (keylog : Keylog) (i : nat) :
  burst_boundary keylog i = true <->
  activity keylog i = Some "Remove/Cut"%string \/
  currOutput keylog i = Some "Backspace"%string \/
  2000 <= time_at keylog i - time_at keylog (i - 1).
Proof.
  unfold burst_boundary, is_deletion, JS.str_eq.
  rewrite !orb_true_iff, geb_le. unfold iki.
  split.
  - intros [[H | H] | H].
    + left. destruct (activity keylog i); [| discriminate].
      apply String.eqb_eq in H. congruence.
    + right. left. destruct (currOutput keylog i); [| discriminate].
      apply String.eqb_eq in H. congruence.
    + right. right. exact H.
  - intros [H | [H | H]].
    + left. left. rewrite H. apply String.eqb_refl.
    + left. right. rewrite H. apply String.eqb_refl.
    + right. exact H.
Qed.

(** The loop body runs the burst block on the burst variables, whatever the
    other variables hold. *)
Lemma loop_body_burst (keylog : Keylog) (i : nat) (st : Acc.t) :
  Acc.burst (loop_body keylog i st) = burst_block keylog i (Acc.burst st).
Proof. reflexivity. Qed.

(** C2, as the specification words it, fails on the third interval of
    [log5]: event 3 (at 2500 ms) is a burst boundary of a burst that started
    at 0 ms; the code records 0.3 s, up to the previous event at 300 ms,
    where the boundary event's own timestamp would give 2.5 s. *)
Lemma burst_duration_not_to_boundary_event :
  burst_boundary log5 3 = true /\
  Acc.currentBurstStartTime (Acc.burst (main_loop log5 3)) == 0 /\
  Forall2 Qeq (Acc.bursts (Acc.burst (loop_body log5 3 (main_loop log5 3)))) [0.3] /\
  Forall2 Qeq (Acc.bursts (burst_block_spec log5 3 (Acc.burst (main_loop log5 3)))) [2.5] /\
  ~ Forall2 Qeq (Acc.bursts (Acc.burst (loop_body log5 3 (main_loop log5 3))))
      (Acc.bursts (burst_block_spec log5 3 (Acc.burst (main_loop log5 3)))).
Proof.
  split; [reflexivity |]. split; [reflexivity |].
  split; [vm_compute; repeat constructor |].
  split; [vm_compute; repeat constructor |].
  vm_compute. intros H. inversion H as [| ? ? ? ? Hq _]. discriminate Hq.
Qed.

(** C2, amended.  Whenever a burst boundary occurs at event [i] of the loop
    (an event of the log after the first), the duration the loop body
    records is the previous event's timestamp minus the burst-start
    timestamp, in seconds, recorded only if positive; and burst-start is then
    reset to the boundary event's own timestamp. *)
Theorem burst_boundary_step (keylog : Keylog) (i : nat) (st : Acc.t) :
  (1 ≤ i < length (EventTime keylog))%nat ->
  burst_boundary keylog i = true ->
  let start := Acc.currentBurstStartTime (Acc.burst st) in
  let duration := (time_at keylog (i - 1) - start) / 1000.0 in
  let after := Acc.burst (loop_body keylog i st) in
  EventTime keylog !! (i - 1)%nat = Some (time_at keylog (i - 1)) /\
  EventTime keylog !! i = Some (time_at keylog i) /\
  (0 < duration -> Acc.bursts after = Acc.bursts (Acc.burst st) ++ [duration]) /\
  (duration <= 0 -> Acc.bursts after = Acc.bursts (Acc.burst st)) /\
  Acc.currentBurstStartTime after = time_at keylog i.
Proof.
  intros Hi Hb start duration after. subst after.
  assert (Hread : forall j, (j < length (EventTime keylog))%nat ->
                    EventTime keylog !! j = Some (time_at keylog j)).
  { intros j Hj. unfold time_at.
    destruct (lookup_lt_is_Some_2 (EventTime keylog) j Hj) as [t ->]. reflexivity. }
  split; [apply Hread; lia |]. split; [apply Hread; lia |].
  rewrite loop_body_burst. unfold burst_block. rewrite Hb. simpl.
  fold start. fold duration.
  destruct (JS.ltb 0 duration) eqn:E.
  - apply ltb_lt in E.
    split; [intros _; reflexivity | split; [intros H; lra | reflexivity]].
  - assert (~ 0 < duration) by (intros H; apply ltb_lt in H; congruence).
    split; [intros H0; contradiction | split; [intros _; reflexivity | reflexivity]].
Qed.

Lemma burst_boundary_step_witness :
  (0 < (time_at log5 (3 - 1) - Acc.currentBurstStartTime (Acc.burst (main_loop log5 3))) / 1000.0 ->
   Acc.bursts (Acc.burst (loop_body log5 3 (main_loop log5 3))) =
   Acc.bursts (Acc.burst (main_loop log5 3)) ++
   [(time_at log5 (3 - 1) - Acc.currentBurstStartTime (Acc.burst (main_loop log5 3))) / 1000.0]) /\
  Acc.currentBurstStartTime (Acc.burst (loop_body log5 3 (main_loop log5 3))) = time_at log5 3.
Proof.
  assert (Hi : (1 ≤ 3 < length (EventTime log5))%nat) by (simpl; lia).
  pose proof (burst_boundary_step log5 3 (main_loop log5 3) Hi eq_refl) as H.
  simpl in H. destruct H as (_ & _ & H1 & _ & H3). split; [exact H1 | exact H3].
Defined.

(** Without a boundary the burst variables are left as they are. *)
Lemma no_boundary_step (keylog : Keylog) (i : nat) (st : Acc.t) :
  burst_boundary keylog i = false ->
  Acc.burst (loop_body keylog i st) = Acc.burst st.
Proof. intros Hb. rewrite loop_body_burst. unfold burst_block. now rewrite Hb. Qed.

(** C3. A log of exactly 5 events at 0, 100, 300, 2500 and 2600 ms with no
    deletion event (every event an [Input] whose output is not [Backspace])
    yields exactly two bursts, of 0.3 s and 0.1 s, whose median the
    Normalizer returns. *)
Theorem five_inputs_two_bursts (keylog : Keylog) :
  length (EventID keylog) = 5%nat ->
  EventTime keylog = [0; 100; 300; 2500; 2600] ->
  (forall i, is_deletion keylog i = false) ->
  Forall2 Qeq (all_bursts keylog 5) [0.3; 0.1] /\
  exists m, extractMetrics keylog = Some m /\ rburst_length_median m == 0.2.
Proof.
  intros Hn Ht Hd.
  assert (Hb : all_bursts keylog 5 = [(300 - 0) / 1000.0; (2600 - 2500) / 1000.0]).
  { unfold all_bursts, main_loop. simpl.
    unfold burst_block, burst_boundary, iki, time_at.
    rewrite !Hd, Ht. reflexivity. }
  split.
  - rewrite Hb. repeat constructor.
  - unfold extractMetrics. rewrite Hn. simpl. eexists. split; [reflexivity |].
    simpl. rewrite Hb. reflexivity.
Qed.

Lemma five_inputs_two_bursts_witness :
  Forall2 Qeq (all_bursts log5 5) [0.3; 0.1] /\
  exists m, extractMetrics log5 = Some m /\ rburst_length_median m == 0.2.
Proof.
  apply (five_inputs_two_bursts log5).
  - reflexivity.
  - reflexivity.
  - intros i. unfold is_deletion, activity, currOutput. simpl.
    do 6 (destruct i as [| i]; [reflexivity |]). reflexivity.
Defined.

(** Two scenarios of the specification.  A pause after a [Space] is counted
    as a before-word pause, not as a within-word pause. *)
Lemma pause_after_space (keylog : Keylog) (i : nat) (p : Acc.Pause) :
  prevOutput keylog i = Some "Space"%string ->
  200 <= iki keylog i ->
  Acc.pauses_before_words (pause_block keylog i p) =
    Acc.pauses_before_words p ++ [iki keylog i] /\
  Acc.pauses_before_sentences (pause_block keylog i p) = Acc.pauses_before_sentences p /\
  Acc.pauses_within_words (pause_block keylog i p) = Acc.pauses_within_words p.
Proof.
  intros Hprev Hiki. unfold pause_block.
  apply geb_le in Hiki. unfold PAUSE_THRESHOLD_MS. rewrite Hiki, Hprev.
  simpl. repeat split.
Qed.

(** Two [Input] events 50 ms apart with a final text of 10 characters: no
    pause, 12000 characters per minute, a product/process ratio of 10 / 2. *)
Lemma two_keys_scenario :
  exists m, extractMetrics log_two_keys = Some m /\
    pause_time_mean m == 0 /\ pause_within_words_count m == 0 /\
    durationSeconds m == 0.05 /\
    characters_per_minute m == 12000 /\
    product_process_ratio m == 10 / 2.
Proof.
  eexists. split; [vm_compute; reflexivity |].
  repeat split; reflexivity.
Qed.

(** The guard of [extractMetrics], in both directions. *)
Lemma extractMetrics_few_events (keylog : Keylog) :
  (length (EventID keylog) < 2)%nat -> extractMetrics keylog = None.
Proof.
  intros H. unfold extractMetrics. apply Nat.ltb_lt in H. now rewrite H.
Qed.

Lemma extractMetrics_returns (keylog : Keylog) :
  (2 ≤ length (EventID keylog))%nat ->
  exists m, extractMetrics keylog = Some m /\
            totalEvents m = JS.num (length (EventID keylog)).
Proof.
  intros H. unfold extractMetrics. apply Nat.ltb_ge in H. rewrite H.
  eexists. split; reflexivity.
Qed.

(** C4. On a log of fewer than 2 events the Normalizer returns the
    not-enough-data result ([None], a value, no exception is raised); on a
    log of at least 2 events it returns an extracted-metrics record. *)
Theorem extractMetrics_enough_data (keylog : Keylog) :
  ((length (EventID keylog) < 2)%nat -> extractMetrics keylog = None) /\
  ((2 ≤ length (EventID keylog))%nat ->
   exists m, extractMetrics keylog = Some m /\
             totalEvents m = JS.num (length (EventID keylog))).
Proof.
  split; [apply extractMetrics_few_events | apply extractMetrics_returns].
Qed.

Lemma extractMetrics_enough_data_witness :
  extractMetrics emptyObject = None /\
  exists m, extractMetrics log5 = Some m /\ totalEvents m = JS.num 5.
Proof.
  split.
  - apply (extractMetrics_enough_data emptyObject). simpl. lia.
  - apply (extractMetrics_enough_data log5). simpl. lia.
Defined.

End NormalizerFacts.

(** ** The Baseline Calibrator *)

Section CalibratorFacts.
Local Open Scope Q_scope.

Lemma num_zero_iff (n : nat) : JS.num n == 0 <-> n = 0%nat.
Proof.
  unfold JS.num. change 0 with (inject_Z 0). rewrite inject_Z_injective. lia.
Qed.

Lemma string_length_zero_iff (s : string) : String.length s = 0%nat <-> s = EmptyString.
Proof. destruct s; simpl; split; intros H; (reflexivity || discriminate). Qed.

(** The typing rate [x / d * 60] over a positive duration is zero only for
    an empty text. *)
Lemma rate_zero_iff (x d : Q) : 0 < d -> (x / d * 60 == 0 <-> x == 0).
Proof.
  intros Hd. split; intros H.
  - assert (E : x == x / d * 60 * (d / 60)) by (field; lra).
    rewrite E, H. ring.
  - rewrite H. field. lra.
Qed.

(** The scan finds nothing when every snapshot is short. *)
Lemma first_long_snapshot_none (snaps : list string) (i : nat) :
  Forall (fun s => (String.length s < 200)%nat) snaps ->
  first_long_snapshot snaps i = None.
Proof.
  intros H. revert i.
  induction H as [| s rest Hs _ IH]; intros i; cbn [first_long_snapshot].
  - reflexivity.
  - apply Nat.leb_gt in Hs. rewrite Hs. apply IH.
Qed.

(** What the scan finds is the first snapshot of 200 characters or more. *)
Lemma first_long_snapshot_some (snaps : list string) (i j : nat) :
  first_long_snapshot snaps i = Some j ->
  (i ≤ j)%nat /\
  (exists s, snaps !! (j - i)%nat = Some s /\ (200 ≤ String.length s)%nat) /\
  Forall (fun s => (String.length s < 200)%nat) (take (j - i) snaps).
Proof.
  revert i.
  induction snaps as [| s rest IH]; intros i; cbn [first_long_snapshot];
    [discriminate |].
  destruct (200 <=? String.length s)%nat eqn:E.
  - intros [= <-]. rewrite Nat.sub_diag. apply Nat.leb_le in E.
    split; [lia |]. split; [exists s; auto | constructor].
  - intros H. apply IH in H as (Hle & (s' & Hs' & Hlen) & Hall).
    apply Nat.leb_gt in E.
    replace (j - i)%nat with (S (j - S i)) by lia.
    split; [lia |]. split; [exists s'; auto |].
    simpl. constructor; assumption.
Qed.

(** The typing rate the Normalizer computes on a log of at least 2 events is
    zero exactly when the log has no positive duration or its final text is
    empty. *)
Lemma extractMetrics_rate (keylog : Keylog) :
  (2 ≤ length (EventID keylog))%nat ->
  exists m, extractMetrics keylog = Some m /\
    (characters_per_minute m == 0 <->
     ~ (time_at keylog 0 < time_at keylog (length (EventID keylog) - 1) /\
        final_text keylog <> EmptyString)).
Proof.
  intros Hn. unfold extractMetrics. apply Nat.ltb_ge in Hn. rewrite Hn.
  eexists. split; [reflexivity |]. simpl.
  set (t0 := time_at keylog 0).
  set (t1 := time_at keylog (length (EventID keylog) - 1)).
  set (len := String.length (final_text keylog)).
  rewrite <- (string_length_zero_iff (final_text keylog)). fold len.
  destruct (JS.ltb 0 ((t1 - t0) / 1000.0)) eqn:E.
  - apply ltb_lt in E.
    assert (Ht : t0 < t1).
    { apply Qnot_le_lt. intros Hle.
      assert ((t1 - t0) / 1000.0 <= 0); [| lra].
      apply Qle_shift_div_r; lra. }
    rewrite (rate_zero_iff _ _ E), num_zero_iff.
    destruct (Nat.eq_dec len 0%nat); tauto.
  - assert (Hnl : ~ 0 < (t1 - t0) / 1000.0)
      by (intros H; apply ltb_lt in H; congruence).
    assert (Ht : ~ t0 < t1).
    { intros Hlt. apply Hnl. apply Qlt_shift_div_l; lra. }
    split; [tauto | reflexivity].
Qed.

(** Well-formedness of a concrete log, by computation. *)
Ltac solve_well_formed :=
  unfold well_formed; simpl;
  repeat split; try reflexivity; intros ? [= <-]; reflexivity.

Lemma final_text_slicedKeylog (keylog : Keylog) :
  final_text (slicedKeylog keylog) = last_snapshot (TextContent (slicedKeylog keylog)).
Proof. reflexivity. Qed.

(** C7, as the specification words it, fails on [log_paste_first]: a
    well-formed log of 2 events whose final text has exactly 200 characters,
    for which the Calibrator returns "not ready" (the first snapshot already
    has 200 characters, so the calibration slice holds a single event). *)
Lemma calibration_not_ready_at_200 :
  well_formed log_paste_first /\
  (2 ≤ length (EventID log_paste_first))%nat /\
  String.length (calib_final_text log_paste_first) = 200%nat /\
  length (EventID (slicedKeylog log_paste_first)) = 1%nat /\
  getCalibrationData log_paste_first = None.
Proof.
  split; [solve_well_formed |].
  split; [simpl; lia |].
  repeat split; vm_compute; reflexivity.
Qed.

(** C7, amended.  On a well-formed log of at least 2 events the Calibrator
    returns "not ready" whenever the resolved final text has fewer than 200
    characters (199 in particular); when it has 200 or more, the Calibrator
    returns a baseline exactly if the calibration slice holds at least 2
    events, its last timestamp is later than its first, and its last
    snapshot is not empty, and "not ready" otherwise. *)
Theorem getCalibrationData_gating (keylog : Keylog) :
  well_formed keylog ->
  (2 ≤ length (EventID keylog))%nat ->
  ((String.length (calib_final_text keylog) < 200)%nat ->
   getCalibrationData keylog = None) /\
  ((200 ≤ String.length (calib_final_text keylog))%nat ->
   (is_Some (getCalibrationData keylog) <->
    (2 ≤ length (EventID (slicedKeylog keylog)))%nat /\
    time_at (slicedKeylog keylog) 0 <
      time_at (slicedKeylog keylog) (length (EventID (slicedKeylog keylog)) - 1) /\
    last_snapshot (TextContent (slicedKeylog keylog)) <> EmptyString)).
Proof.
  intros _ Hn. unfold getCalibrationData.
  apply Nat.ltb_ge in Hn. rewrite Hn.
  split; intros Hlen.
  - apply Nat.ltb_lt in Hlen. rewrite Hlen. reflexivity.
  - apply Nat.ltb_ge in Hlen. rewrite Hlen.
    destruct (Nat.lt_ge_cases (length (EventID (slicedKeylog keylog))) 2) as [Hs | Hs].
    + rewrite (extractMetrics_few_events _ Hs). cbn [baseline_result].
      split; [intros [b Hb]; discriminate | intros [H2 _]; lia].
    + destruct (extractMetrics_rate _ Hs) as (m & -> & Hrate).
      rewrite final_text_slicedKeylog in Hrate. cbn [baseline_result].
      destruct (JS.eqb (characters_per_minute m) 0) eqn:E.
      * apply eqb_eq in E. apply Hrate in E.
        split; [intros [b Hb]; discriminate | tauto].
      * split; [intros _ | eauto].
        split; [exact Hs |].
        destruct (Qlt_le_dec (time_at (slicedKeylog keylog) 0)
          (time_at (slicedKeylog keylog) (length (EventID (slicedKeylog keylog)) - 1)))
          as [Ht | Ht];
        destruct (String.string_dec (last_snapshot (TextContent (slicedKeylog keylog))) EmptyString)
          as [Hl | Hl]; try (split; assumption);
        exfalso; (assert (characters_per_minute m == 0) as Hz
          by (apply Hrate; intros [? ?]; try contradiction; lra));
        apply eqb_eq in Hz; congruence.
Qed.

Lemma getCalibrationData_gating_witness :
  getCalibrationData log5 = None /\ is_Some (getCalibrationData log_two_minutes).
Proof.
  split.
  - apply (getCalibrationData_gating log5);
      [solve_well_formed | simpl; lia | simpl; lia].
  - apply (getCalibrationData_gating log_two_minutes);
      [solve_well_formed | simpl; lia | vm_compute; lia |].
    split; [vm_compute; lia |].
    split; [vm_compute; reflexivity | vm_compute; discriminate].
Defined.

(** C8. Whenever the Calibrator returns a baseline, it is derived from the
    metrics [extractMetrics] measures on the calibration slice: the two
    personal means are the typing rate and the burst-length median measured
    there, and each derived spread is the personal mean times (benchmark
    standard deviation / benchmark mean) of its metric: 75 / 200 for the
    typing rate, 6.431 / 6.27 for the burst-length median.  In particular a
    measured typing-rate mean of 100 gives a spread of exactly 37.5. *)
Theorem baseline_spread (keylog : Keylog) (b : Baseline) :
  getCalibrationData keylog = Some b ->
  exists m,
    extractMetrics (slicedKeylog keylog) = Some m /\
    ~ characters_per_minute m == 0 /\
    cpm_mean b = characters_per_minute m /\
    rburst_mean b = rburst_length_median m /\
    cpm_sd b ==
      characters_per_minute m * (sd (BM.characters_per_minute BENCHMARKS) /
                                 mean (BM.characters_per_minute BENCHMARKS)) /\
    rburst_sd b ==
      rburst_length_median m * (sd (BM.rburst_length_median BENCHMARKS) /
                                mean (BM.rburst_length_median BENCHMARKS)) /\
    cpm_sd b ==
      cpm_mean b * (sd (BM.characters_per_minute BENCHMARKS) /
                    mean (BM.characters_per_minute BENCHMARKS)) /\
    rburst_sd b ==
      rburst_mean b * (sd (BM.rburst_length_median BENCHMARKS) /
                       mean (BM.rburst_length_median BENCHMARKS)) /\
    cpm_sd b == cpm_mean b * (75 / 200) /\
    rburst_sd b == rburst_mean b * (6.431 / 6.27) /\
    (characters_per_minute m == 100 -> cpm_sd b == 37.5) /\
    (cpm_mean b == 100 -> cpm_sd b == 37.5).
Proof.
  unfold getCalibrationData.
  destruct (length (EventID keylog) <? 2)%nat; [discriminate |].
  destruct (String.length (calib_final_text keylog) <? 200)%nat; [discriminate |].
  destruct (extractMetrics (slicedKeylog keylog)) as [m |]; [| discriminate].
  simpl. destruct (JS.eqb (characters_per_minute m) 0) eqn:E; [discriminate |].
  intros [= <-]. exists m. simpl.
  split; [reflexivity |].
  split; [intros H; apply eqb_eq in H; congruence |].
  repeat split; try reflexivity; intros H; rewrite H; reflexivity.
Qed.

Lemma baseline_spread_witness :
  exists b m,
    getCalibrationData log_two_minutes = Some b /\
    extractMetrics (slicedKeylog log_two_minutes) = Some m /\
    characters_per_minute m == 100 /\
    cpm_mean b = characters_per_minute m /\
    cpm_sd b == 37.5.
Proof.
  destruct (getCalibrationData log_two_minutes) as [b |] eqn:Hb;
    [| vm_compute in Hb; discriminate].
  destruct (baseline_spread log_two_minutes b Hb)
    as (m & Hm & _ & Hmean & _ & _ & _ & _ & _ & _ & _ & H100 & _).
  assert (Hrate : characters_per_minute m == 100).
  { assert (Hm' : extractMetrics (slicedKeylog log_two_minutes) = Some m) by exact Hm.
    vm_compute in Hm'. injection Hm' as <-. reflexivity. }
  exists b, m. split; [reflexivity |]. split; [exact Hm |].
  split; [exact Hrate |]. split; [exact Hmean |]. exact (H100 Hrate).
Defined.

(** C10. On a well-formed log whose resolved final text has at least 200
    characters while no snapshot has 200 or more, the Calibrator takes the
    entire event log as the calibration slice (no proper prefix), with the
    slice's final product replaced by the log's last snapshot; the baseline
    is then computed from the Normalizer's metrics on that whole log. *)
Theorem calibration_slice_whole_log (keylog : Keylog) :
  well_formed keylog ->
  (200 ≤ String.length (calib_final_text keylog))%nat ->
  Forall (fun s => (String.length s < 200)%nat) (TextContent keylog) ->
  calibEventIndex keylog = length (EventID keylog) /\
  slicedKeylog keylog = rewrite_FinalProduct keylog /\
  FinalProduct (slicedKeylog keylog) = Some (last_snapshot (TextContent keylog)) /\
  ((2 ≤ length (EventID keylog))%nat ->
   getCalibrationData keylog =
   baseline_result (extractMetrics (rewrite_FinalProduct keylog))).
Proof.
  intros (Ht & Ho & Hc & Hx & Ha & Hch) Hlen Hshort.
  assert (Hidx : calibEventIndex keylog = length (EventID keylog)).
  { unfold calibEventIndex. now rewrite first_long_snapshot_none. }
  assert (Hslice : slicedKeylog keylog = rewrite_FinalProduct keylog).
  { unfold slicedKeylog, slice_keylog. rewrite Hidx.
    unfold rewrite_FinalProduct. simpl.
    rewrite !take_ge by lia.
    destruct keylog as [ids times outs acts chgs curs snaps fp]. simpl in *.
    f_equal.
    - destruct acts as [a |]; [| reflexivity]. simpl.
      rewrite take_ge; [reflexivity |]. rewrite (Ha a eq_refl). lia.
    - destruct chgs as [t |]; [| reflexivity]. simpl.
      rewrite take_ge; [reflexivity |]. rewrite (Hch t eq_refl). lia. }
  split; [exact Hidx |]. split; [exact Hslice |].
  split; [rewrite Hslice; reflexivity |].
  intros Hn. unfold getCalibrationData.
  apply Nat.ltb_ge in Hn, Hlen. now rewrite Hn, Hlen, Hslice.
Qed.

Lemma calibration_slice_whole_log_witness :
  calibEventIndex log_long_product = length (EventID log_long_product) /\
  slicedKeylog log_long_product = rewrite_FinalProduct log_long_product /\
  FinalProduct (slicedKeylog log_long_product) = Some "ab"%string.
Proof.
  destruct (calibration_slice_whole_log log_long_product) as (H1 & H2 & H3 & _).
  - solve_well_formed.
  - vm_compute. lia.
  - repeat constructor.
  - split; [exact H1 |]. split; [exact H2 | exact H3].
Defined.

End CalibratorFacts.

(** ** The input log is not mutated *)

Section FrameFacts.

Lemma fresh_loc_unused (σ : gmap loc Keylog) : σ !! fresh (dom σ) = None.
Proof. apply not_elem_of_dom. apply is_fresh. Qed.

(** One write of the copy loop: it replaces the object at [dst]. *)
Lemma assign_from_run (src dst : loc) (f : Keylog → Keylog → Keylog)
    (σ : gmap loc Keylog) (s d : Keylog) :
  σ !! src = Some s → σ !! dst = Some d →
  assign_from src dst f σ = (tt, <[dst := f s d]> σ).
Proof.
  intros Hs Hd. unfold assign_from. rewrite Hs. f_equal.
  apply map_eq. intros l. destruct (decide (l = dst)) as [-> | Hne].
  - rewrite lookup_alter_eq, lookup_insert_eq, Hd. reflexivity.
  - rewrite lookup_alter_ne, lookup_insert_ne by congruence. reflexivity.
Qed.

(** The copy loop, run on a heap that holds the source object at [src] and
    the object under construction at another location [dst]. *)
Lemma copy_loop_run (n : nat) (src dst : loc) (s : Keylog) (keys : list Key) :
  src ≠ dst →
  ∀ (σ : gmap loc Keylog) (d : Keylog),
    σ !! src = Some s → σ !! dst = Some d →
    for_each keys (λ key, assign_from src dst (copy_key n key)) σ =
    (tt, <[dst := foldl (λ d key, copy_key n key s d) d keys]> σ).
Proof.
  intros Hne. induction keys as [| key keys IH]; intros σ d Hs Hd; simpl.
  - unfold mret, M_ret. f_equal. symmetry. apply insert_id. exact Hd.
  - unfold mbind, M_bind. rewrite (assign_from_run _ _ _ _ s d Hs Hd).
    rewrite (IH _ (copy_key n key s d)).
    + now rewrite insert_insert_eq.
    + now rewrite lookup_insert_ne.
    + apply lookup_insert_eq.
Qed.

(** After the loop over its keys, the new object is the sliced log. *)
Lemma copy_all_keys (n : nat) (s : Keylog) :
  foldl (λ d key, copy_key n key s d) emptyObject (keys_of s) = slice_keylog s n.
Proof.
  destruct s as [ids times outs [acts |] [chgs |] curs snaps [fp |]]; reflexivity.
Qed.

(** What [getCalibrationData] does to a heap that holds the log at
    [keylog]: it returns what the pure function returns on the log's value,
    and the heap is left as it was or extended by the sliced object at a
    fresh location. *)
Lemma getCalibrationData_h_run (σ : gmap loc Keylog) (keylog : loc) (k : Keylog) :
  σ !! keylog = Some k →
  getCalibrationData_h keylog σ = (getCalibrationData k, σ) ∨
  getCalibrationData_h keylog σ =
    (getCalibrationData k, <[fresh (dom σ) := slicedKeylog k]> σ).
Proof.
  intros Hk. unfold getCalibrationData_h, getCalibrationData.
  unfold mbind, M_bind, deref. rewrite Hk.
  destruct (length (EventID k) <? 2)%nat; [left; reflexivity |].
  destruct (String.length (calib_final_text k) <? 200)%nat; [left; reflexivity |].
  right. unfold alloc. cbv zeta.
  set (o := fresh (dom σ)).
  assert (Ho : σ !! o = None) by apply fresh_loc_unused.
  assert (Hne : keylog ≠ o) by (intros ->; congruence).
  rewrite (copy_loop_run _ keylog o k (keys_of k) Hne _ emptyObject);
    [| now rewrite lookup_insert_ne | apply lookup_insert_eq].
  rewrite copy_all_keys, insert_insert_eq.
  rewrite (assign_from_run o o _ _ (slice_keylog k (calibEventIndex k))
             (slice_keylog k (calibEventIndex k)));
    [| apply lookup_insert_eq | apply lookup_insert_eq].
  rewrite insert_insert_eq.
  unfold extractMetrics_h, mbind, M_bind, deref, mret, M_ret.
  rewrite lookup_insert_eq. reflexivity.
Qed.

Lemma extractMetrics_h_run (σ : gmap loc Keylog) (keylog : loc) :
  extractMetrics_h keylog σ = (σ !! keylog ≫= extractMetrics, σ).
Proof. reflexivity. Qed.

(** C9. No operation of the engine mutates its input event log.  On any
    heap, with the log at any location: the Normalizer leaves the heap as it
    is; the Baseline Calibrator leaves every object of the heap as it is
    (the heap it returns extends the given one: the slice is a new object,
    and [FinalProduct] is rewritten on that object only), so the log reads
    the same after the call; the Dual-Axis Scorer leaves the heap as it is. *)
Theorem engine_preserves_log (σ : gmap loc Keylog) (keylog : loc)
    (metrics : option Metrics) (weights : Weights) (calibrationData : option Baseline) :
  (extractMetrics_h keylog σ).2 = σ ∧
  σ ⊆ (getCalibrationData_h keylog σ).2 ∧
  (getCalibrationData_h keylog σ).2 !! keylog = σ !! keylog ∧
  (calculateDualAxis_h metrics weights calibrationData σ).2 = σ.
Proof.
  split; [reflexivity |].
  assert (Hsub : σ ⊆ (getCalibrationData_h keylog σ).2).
  { destruct (σ !! keylog) as [k |] eqn:Hk.
    - destruct (getCalibrationData_h_run σ keylog k Hk) as [-> | ->]; simpl.
      + reflexivity.
      + apply insert_subseteq, fresh_loc_unused.
    - unfold getCalibrationData_h, mbind, M_bind, deref. now rewrite Hk. }
  split; [exact Hsub |]. split; [| reflexivity].
  destruct (σ !! keylog) as [k |] eqn:Hk.
  - apply (lookup_weaken _ _ _ _ Hk Hsub).
  - unfold getCalibrationData_h, mbind, M_bind, deref. now rewrite Hk.
Qed.

(** The heap-level operations compute what the pure functions compute. *)
Lemma heap_operations_agree (σ : gmap loc Keylog) (keylog : loc) (k : Keylog) :
  σ !! keylog = Some k →
  (extractMetrics_h keylog σ).1 = extractMetrics k ∧
  (getCalibrationData_h keylog σ).1 = getCalibrationData k.
Proof.
  intros Hk. split.
  - rewrite extractMetrics_h_run, Hk. reflexivity.
  - destruct (getCalibrationData_h_run σ keylog k Hk) as [-> | ->]; reflexivity.
Qed.

End FrameFacts.

(** * Further properties of the code *)

(** ** [normalize] and [normalizeInverted] *)

Section NormalizeFacts.
Local Open Scope Q_scope.

Lemma eqb_false_of_pos (sd : Q) : 0 < sd -> JS.eqb sd 0 = false.
Proof.
  intros H. destruct (JS.eqb sd 0) eqn:E; [| reflexivity].
  apply eqb_eq in E. lra.
Qed.

Lemma normalize_pos_sd (v mean sd : Q) :
  0 < sd -> normalize v mean sd = clamp ((v - mean) / sd / 4 + 0.5) 0 1.
Proof. intros H. unfold normalize. now rewrite eqb_false_of_pos. Qed.

Lemma normalize_range (v mean sd : Q) : 0 <= normalize v mean sd <= 1.
Proof.
  unfold normalize. destruct (JS.eqb sd 0); [lra |].
  apply clamp_bounds. lra.
Qed.

Lemma zscore_le (v1 v2 mean sd : Q) :
  0 < sd -> v1 <= v2 -> (v1 - mean) / sd / 4 + 0.5 <= (v2 - mean) / sd / 4 + 0.5.
Proof.
  intros Hsd Hv.
  assert ((v1 - mean) / sd <= (v2 - mean) / sd).
  { apply Qle_shift_div_l; [exact Hsd |].
    assert (E : (v1 - mean) / sd * sd == v1 - mean) by (field; lra).
    rewrite E. lra. }
  apply Qplus_le_l. apply Qmult_le_compat_r; [assumption | discriminate].
Qed.

Lemma normalize_le (v1 v2 mean sd : Q) :
  0 < sd -> v1 <= v2 -> normalize v1 mean sd <= normalize v2 mean sd.
Proof.
  intros Hsd Hv. rewrite !normalize_pos_sd by exact Hsd.
  apply clamp_mono; [lra |]. now apply zscore_le.
Qed.

Lemma normalizeInverted_le (v1 v2 mean sd : Q) :
  0 < sd -> v1 <= v2 -> normalizeInverted v2 mean sd <= normalizeInverted v1 mean sd.
Proof.
  intros Hsd Hv. unfold normalizeInverted.
  pose proof (normalize_le v1 v2 mean sd Hsd Hv). lra.
Qed.

Lemma normalizeInverted_range (v mean sd : Q) : 0 <= normalizeInverted v mean sd <= 1.
Proof. unfold normalizeInverted. pose proof (normalize_range v mean sd). lra. Qed.

(** The z-score of a value equal to the mean is rescaled to 0.5. *)
Lemma normalize_at_mean (v mean sd : Q) : v == mean -> normalize v mean sd == 0.5.
Proof.
  intros Hv. unfold normalize. destruct (JS.eqb sd 0) eqn:E; [reflexivity |].
  assert (Hsd : ~ sd == 0) by (intros H; apply eqb_eq in H; congruence).
  assert (Hz : (v - mean) / sd / 4 + 0.5 == 0.5) by (rewrite Hv; field; exact Hsd).
  assert (H01 : 0 <= 1) by lra.
  destruct (clamp_cases ((v - mean) / sd / 4 + 0.5) 0 1 H01) as [[H _] | [[H _] | [_ ->]]];
    lra.
Qed.

(** X1. Whatever the value, the mean and the spread (zero, negative or
    positive), [normalize] and [normalizeInverted] return a number of the
    unit interval, and the two add up to 1. *)
Theorem normalize_unit_interval (v mean sd : Q) :
  0 <= normalize v mean sd <= 1 /\
  0 <= normalizeInverted v mean sd <= 1 /\
  normalize v mean sd + normalizeInverted v mean sd == 1.
Proof.
  split; [apply normalize_range |]. split; [apply normalizeInverted_range |].
  unfold normalizeInverted. ring.
Qed.

(** X2. For a positive spread, [normalize] is 0.5 at the mean, linear with
    slope 1 / (4 sd) within two spreads of the mean, 0 from two spreads below
    the mean down and 1 from two spreads above the mean up. *)
Theorem normalize_saturation (v mean sd : Q) :
  0 < sd ->
  (v == mean -> normalize v mean sd == 0.5) /\
  (v <= mean - 2 * sd -> normalize v mean sd == 0) /\
  (mean + 2 * sd <= v -> normalize v mean sd == 1) /\
  (mean - 2 * sd <= v <= mean + 2 * sd ->
   normalize v mean sd == (v - mean) / (4 * sd) + 0.5).
Proof.
  intros Hsd. split; [apply normalize_at_mean |].
  rewrite normalize_pos_sd by exact Hsd.
  assert (Hz : (v - mean) / sd / 4 + 0.5 == (v - mean) / (4 * sd) + 0.5)
    by (field; lra).
  assert (Hq : (v - mean) / (4 * sd) * (4 * sd) == v - mean) by (field; lra).
  assert (H4 : 0 < 4 * sd) by lra.
  assert (Hlow : v <= mean - 2 * sd -> (v - mean) / (4 * sd) <= - (1 # 2)).
  { intros H. apply Qle_shift_div_r; [exact H4 | lra]. }
  assert (Hhigh : mean + 2 * sd <= v -> 1 # 2 <= (v - mean) / (4 * sd)).
  { intros H. apply Qle_shift_div_l; [exact H4 | lra]. }
  assert (Hmid1 : mean - 2 * sd <= v -> - (1 # 2) <= (v - mean) / (4 * sd)).
  { intros H. apply Qle_shift_div_l; [exact H4 | lra]. }
  assert (Hmid2 : v <= mean + 2 * sd -> (v - mean) / (4 * sd) <= 1 # 2).
  { intros H. apply Qle_shift_div_r; [exact H4 | lra]. }
  assert (H01 : 0 <= 1) by lra.
  destruct (clamp_cases ((v - mean) / sd / 4 + 0.5) 0 1 H01) as [[H E] | [[H E] | [H E]]];
    rewrite E; rewrite Hz in H.
  - split; [intros _; reflexivity |].
    split; [intros Hv; specialize (Hhigh Hv); lra |].
    intros [Hv1 Hv2]. specialize (Hmid1 Hv1). lra.
  - split; [intros Hv; specialize (Hlow Hv); lra |].
    split; [intros _; reflexivity |].
    intros [Hv1 Hv2]. specialize (Hmid2 Hv2). lra.
  - rewrite Hz.
    split; [intros Hv; specialize (Hlow Hv); lra |].
    split; [intros Hv; specialize (Hhigh Hv); lra |].
    intros _. reflexivity.
Qed.

Lemma normalize_saturation_witness :
  normalize 200 200 75 == 0.5 /\ normalize 40 200 75 == 0 /\ normalize 350 200 75 == 1.
Proof.
  assert (Hsd : 0 < 75) by reflexivity.
  destruct (normalize_saturation 200 200 75 Hsd) as (H1 & _).
  destruct (normalize_saturation 40 200 75 Hsd) as (_ & H2 & _).
  destruct (normalize_saturation 350 200 75 Hsd) as (_ & _ & H3 & _).
  split; [apply H1; reflexivity |].
  split; [apply H2; discriminate | apply H3; discriminate].
Defined.

(** X3. For a positive spread, [normalize] never decreases and
    [normalizeInverted] never increases when the value grows. *)
Theorem normalize_monotone (v1 v2 mean sd : Q) :
  0 < sd -> v1 <= v2 ->
  normalize v1 mean sd <= normalize v2 mean sd /\
  normalizeInverted v2 mean sd <= normalizeInverted v1 mean sd.
Proof.
  intros Hsd Hv. split; [now apply normalize_le | now apply normalizeInverted_le].
Qed.

Lemma normalize_monotone_witness :
  normalize 100 200 75 <= normalize 250 200 75 /\
  normalizeInverted 250 200 75 <= normalizeInverted 100 200 75.
Proof.
  apply (normalize_monotone 100 250 200 75); [reflexivity | discriminate].
Defined.

End NormalizeFacts.

(** ** [calculateMedian] *)

Section MedianOrderFacts.
Local Open Scope Q_scope.

Lemma sort_numeric_length (arr : list Q) : length (sort_numeric arr) = length arr.
Proof. apply Permutation_length, sort_numeric_perm. Qed.

(** An element read from the sorted copy, at an index within it, has every
    property all elements of the array have. *)
Lemma sorted_lookup_Forall (P : Q -> Prop) (arr : list Q) (i : nat) :
  Forall P arr -> (i < length arr)%nat -> P (default 0 (sort_numeric arr !! i)).
Proof.
  intros HP Hi. rewrite <- (sort_numeric_perm arr) in HP.
  rewrite <- sort_numeric_length in Hi.
  destruct (lookup_lt_is_Some_2 _ _ Hi) as [x Hx]. rewrite Hx. simpl.
  exact (proj1 (Forall_lookup P _) HP i x Hx).
Qed.

Lemma calculateMedian_ge (lo : Q) (arr : list Q) :
  arr <> [] -> Forall (fun x => lo <= x) arr -> lo <= calculateMedian arr.
Proof.
  intros Hne HP. unfold calculateMedian.
  assert (Hlen : (0 < length arr)%nat) by (destruct arr; [congruence | simpl; lia]).
  destruct (length arr =? 0)%nat eqn:E0; [apply Nat.eqb_eq in E0; lia |].
  cbv zeta. rewrite sort_numeric_length.
  assert (Hmid : (length arr / 2 < length arr)%nat) by (apply Nat.div_lt; lia).
  pose proof (sorted_lookup_Forall _ arr (length arr / 2) HP Hmid) as H1.
  destruct (negb (length arr mod 2 =? 0)%nat); [exact H1 |].
  assert (Hmid' : (length arr / 2 - 1 < length arr)%nat) by lia.
  pose proof (sorted_lookup_Forall _ arr (length arr / 2 - 1) HP Hmid') as H2.
  cbv beta in H1, H2. apply Qle_shift_div_l; lra.
Qed.

Lemma calculateMedian_le (hi : Q) (arr : list Q) :
  arr <> [] -> Forall (fun x => x <= hi) arr -> calculateMedian arr <= hi.
Proof.
  intros Hne HP. unfold calculateMedian.
  assert (Hlen : (0 < length arr)%nat) by (destruct arr; [congruence | simpl; lia]).
  destruct (length arr =? 0)%nat eqn:E0; [apply Nat.eqb_eq in E0; lia |].
  cbv zeta. rewrite sort_numeric_length.
  assert (Hmid : (length arr / 2 < length arr)%nat) by (apply Nat.div_lt; lia).
  pose proof (sorted_lookup_Forall _ arr (length arr / 2) HP Hmid) as H1.
  destruct (negb (length arr mod 2 =? 0)%nat); [exact H1 |].
  assert (Hmid' : (length arr / 2 - 1 < length arr)%nat) by lia.
  pose proof (sorted_lookup_Forall _ arr (length arr / 2 - 1) HP Hmid') as H2.
  cbv beta in H1, H2. apply Qle_shift_div_r; lra.
Qed.

(** Insertion into pointwise equal lists gives pointwise equal lists. *)
Lemma insert_sorted_Qeq (x : Q) (l l' : list Q) :
  Forall2 Qeq l l' -> Forall2 Qeq (insert_sorted x l) (insert_sorted x l').
Proof.
  induction 1 as [| y y' r r' Hy Hr IH]; simpl.
  - repeat constructor.
  - assert (E : Qle_bool x y = Qle_bool x y').
    { destruct (Qle_bool x y) eqn:E1, (Qle_bool x y') eqn:E2; try reflexivity.
      - apply Qle_bool_iff in E1. rewrite Hy in E1. apply Qle_bool_iff in E1. congruence.
      - apply Qle_bool_iff in E2. rewrite <- Hy in E2. apply Qle_bool_iff in E2. congruence. }
    rewrite <- E. destruct (Qle_bool x y).
    + constructor; [reflexivity |]. constructor; assumption.
    + constructor; assumption.
Qed.

Lemma Forall2_Qeq_refl (l : list Q) : Forall2 Qeq l l.
Proof. induction l; constructor; [reflexivity | assumption]. Qed.

Lemma Forall2_Qeq_trans (l1 l2 l3 : list Q) :
  Forall2 Qeq l1 l2 -> Forall2 Qeq l2 l3 -> Forall2 Qeq l1 l3.
Proof.
  intros H. revert l3. induction H as [| x y r r' Hx Hr IH]; intros l3 H3.
  - inversion H3. constructor.
  - inversion H3 as [| y' z r'' r3 Hy Hr3]; subst.
    constructor; [now rewrite Hx | now apply IH].
Qed.

Lemma Qle_bool_false_lt (x y : Q) : Qle_bool x y = false -> y < x.
Proof.
  intros E. apply Qnot_le_lt. intros H. apply Qle_bool_iff in H. congruence.
Qed.

Lemma Qle_bool_true_of_le (x y : Q) : x <= y -> Qle_bool x y = true.
Proof. apply Qle_bool_iff. Qed.

Lemma Qle_bool_false_of_lt (x y : Q) : y < x -> Qle_bool x y = false.
Proof.
  intros H. destruct (Qle_bool x y) eqn:E; [| reflexivity].
  apply Qle_bool_iff in E. lra.
Qed.

(** Two insertions commute, up to the equality of numbers. *)
Lemma insert_sorted_swap (x y : Q) (l : list Q) :
  Forall2 Qeq (insert_sorted x (insert_sorted y l)) (insert_sorted y (insert_sorted x l)).
Proof.
  induction l as [| z r IH]; cbn [insert_sorted].
  - destruct (Qle_bool x y) eqn:Exy, (Qle_bool y x) eqn:Eyx.
    + apply Qle_bool_iff in Exy, Eyx.
      assert (x == y) by lra.
      repeat constructor; [assumption | symmetry; assumption].
    + apply Forall2_Qeq_refl.
    + apply Forall2_Qeq_refl.
    + apply Qle_bool_false_lt in Exy, Eyx. lra.
  - destruct (Qle_bool y z) eqn:Eyz, (Qle_bool x z) eqn:Exz.
    + destruct (Qle_bool x y) eqn:Exy, (Qle_bool y x) eqn:Eyx;
        cbn [insert_sorted]; rewrite ?Exy, ?Eyx, ?Exz, ?Eyz.
      * apply Qle_bool_iff in Exy, Eyx. assert (x == y) by lra.
        constructor; [assumption |]. constructor; [symmetry; assumption |].
        apply Forall2_Qeq_refl.
      * apply Forall2_Qeq_refl.
      * apply Forall2_Qeq_refl.
      * apply Qle_bool_false_lt in Exy, Eyx. lra.
    + assert (Exy : Qle_bool x y = false).
      { apply Qle_bool_iff in Eyz. apply Qle_bool_false_lt in Exz.
        apply Qle_bool_false_of_lt. lra. }
      cbn [insert_sorted]. rewrite ?Exy, ?Exz, ?Eyz. apply Forall2_Qeq_refl.
    + assert (Eyx : Qle_bool y x = false).
      { apply Qle_bool_iff in Exz. apply Qle_bool_false_lt in Eyz.
        apply Qle_bool_false_of_lt. lra. }
      cbn [insert_sorted]. rewrite ?Eyx, ?Exz, ?Eyz. apply Forall2_Qeq_refl.
    + cbn [insert_sorted]. rewrite ?Exz, ?Eyz. constructor; [reflexivity | exact IH].
Qed.

(** The sorted copies of two arrays with the same elements agree. *)
Lemma sort_numeric_Permutation (arr1 arr2 : list Q) :
  arr1 ≡ₚ arr2 -> Forall2 Qeq (sort_numeric arr1) (sort_numeric arr2).
Proof.
  induction 1 as [| x l l' _ IH | x y l | l1 l2 l3 _ IH1 _ IH2]; simpl.
  - constructor.
  - now apply insert_sorted_Qeq.
  - apply insert_sorted_swap.
  - now apply (Forall2_Qeq_trans _ (sort_numeric l2)).
Qed.

Lemma Forall2_Qeq_lookup (l l' : list Q) (i : nat) :
  Forall2 Qeq l l' -> default 0 (l !! i) == default 0 (l' !! i).
Proof.
  intros H. revert i. induction H as [| x y r r' Hx Hr IH]; intros [| i]; simpl;
    try reflexivity; [exact Hx | apply IH].
Qed.

(** X4. The median of a non-empty array lies between any two bounds that
    hold for all its elements; in particular between its least and its
    greatest element. *)
Theorem calculateMedian_between (lo hi : Q) (arr : list Q) :
  arr <> [] ->
  Forall (fun x => lo <= x <= hi) arr ->
  lo <= calculateMedian arr <= hi.
Proof.
  intros Hne HP. split.
  - apply calculateMedian_ge; [exact Hne |].
    eapply Forall_impl; [exact HP |]. intros x [Hx _]. exact Hx.
  - apply calculateMedian_le; [exact Hne |].
    eapply Forall_impl; [exact HP |]. intros x [_ Hx]. exact Hx.
Qed.

Lemma calculateMedian_between_witness : 0.1 <= calculateMedian [0.7; 0.1; 0.4] <= 0.7.
Proof.
  apply (calculateMedian_between 0.1 0.7 [0.7; 0.1; 0.4]).
  - discriminate.
  - repeat constructor; discriminate.
Defined.

(** X5. The median does not depend on the order of the array: two arrays
    with the same elements have the same median. *)
Theorem calculateMedian_permutation (arr1 arr2 : list Q) :
  arr1 ≡ₚ arr2 -> calculateMedian arr1 == calculateMedian arr2.
Proof.
  intros Hp. unfold calculateMedian.
  rewrite !sort_numeric_length, <- (Permutation_length Hp).
  pose proof (sort_numeric_Permutation _ _ Hp) as Hs.
  destruct (length arr1 =? 0)%nat; [reflexivity |]. cbv zeta.
  destruct (negb (length arr1 mod 2 =? 0)%nat).
  - now apply Forall2_Qeq_lookup.
  - rewrite (Forall2_Qeq_lookup _ _ (length arr1 / 2 - 1) Hs).
    rewrite (Forall2_Qeq_lookup _ _ (length arr1 / 2) Hs). reflexivity.
Qed.

Lemma calculateMedian_permutation_witness :
  calculateMedian [0.7; 0.1; 0.4; 0.2] == calculateMedian [0.1; 0.2; 0.4; 0.7].
Proof.
  apply (calculateMedian_permutation [0.7; 0.1; 0.4; 0.2] [0.1; 0.2; 0.4; 0.7]).
  etransitivity; [apply Permutation_cons_append |]. simpl.
  apply perm_skip, perm_swap.
Defined.

End MedianOrderFacts.

(** ** Invariants of the main loop of [extractMetrics] *)

Section LoopInvariants.
Local Open Scope Q_scope.

(** A property indexed by the number of iterations done holds after a
    [for] loop if it holds before it and every iteration carries it on. *)
Lemma foldl_seq_invariant {A : Type} (f : A -> nat -> A) (P : nat -> A -> Prop)
    (a : A) (start len : nat) :
  P 0%nat a ->
  (forall j x, (j < len)%nat -> P j x -> P (S j) (f x (start + j)%nat)) ->
  P len (foldl f a (seq start len)).
Proof.
  intros H0. induction len as [| len IH]; intros Hstep; [exact H0 |].
  rewrite seq_S, foldl_snoc. apply Hstep; [lia |].
  apply IH. intros j x Hj. apply Hstep. lia.
Qed.

(** The same for the main loop: iteration [j] of [n - 1] handles event
    [1 + j]. *)
Lemma main_loop_invariant (keylog : Keylog) (n : nat) (P : nat -> Acc.t -> Prop) :
  P 0%nat (loop_init keylog) ->
  (forall j st, (j < n - 1)%nat -> P j st -> P (S j) (loop_body keylog (1 + j) st)) ->
  P (n - 1)%nat (main_loop keylog n).
Proof.
  intros H0 Hstep. unfold main_loop.
  apply (foldl_seq_invariant (fun st i => loop_body keylog i st) P); assumption.
Qed.

Lemma num_S (n : nat) : JS.num (S n) == JS.num n + 1.
Proof.
  unfold JS.num. rewrite Nat2Z.inj_succ, <- Z.add_1_r, inject_Z_plus. reflexivity.
Qed.

Lemma deletion_block_balanced (keylog : Keylog) (i : nat) (r : Acc.Revision) :
  revision_balanced r -> revision_balanced (deletion_block keylog i r).
Proof.
  unfold revision_balanced, deletion_block. intros (H1 & H2 & H3).
  destruct (is_deletion keylog i); simpl; [| auto].
  repeat split; lra.
Qed.

Lemma insertion_block_balanced (keylog : Keylog) (i : nat) (r : Acc.Revision) :
  revision_balanced r -> revision_balanced (insertion_block keylog i r).
Proof.
  unfold revision_balanced, insertion_block. intros (H1 & H2 & H3).
  destruct (JS.str_eq (activity keylog i) "Input" && cursor_before_end keylog i);
    simpl; [| auto].
  repeat split; lra.
Qed.

Lemma main_loop_balanced (keylog : Keylog) (n : nat) :
  revision_balanced (Acc.revision (main_loop keylog n)).
Proof.
  apply (main_loop_invariant keylog n (fun _ st => revision_balanced (Acc.revision st))).
  - unfold revision_balanced. simpl. repeat split; reflexivity.
  - intros j st _ H. simpl. now apply insertion_block_balanced, deletion_block_balanced.
Qed.

Lemma counts_upto_keep (j : nat) (x : Q) : counts_upto j x -> counts_upto (S j) x.
Proof. intros (c & Hc & Hx). exists c. split; [lia | exact Hx]. Qed.

Lemma counts_upto_incr (j : nat) (x : Q) : counts_upto j x -> counts_upto (S j) (x + 1).
Proof.
  intros (c & Hc & Hx). exists (S c). split; [lia |]. rewrite num_S, Hx. reflexivity.
Qed.

Lemma counts_upto_nonneg (j : nat) (x : Q) : counts_upto j x -> 0 <= x.
Proof. intros (c & _ & ->). apply num_nonneg. Qed.

Lemma main_loop_counts (keylog : Keylog) (n : nat) :
  let st := main_loop keylog n in
  counts_upto (n - 1) (Acc.paste_events (Acc.paste st)) /\
  counts_upto (n - 1) (Acc.num_deletions (Acc.revision st)) /\
  counts_upto (n - 1) (Acc.num_insertions (Acc.revision st)) /\
  counts_upto (n - 1) (Acc.pauses_within_words (Acc.pause st)) /\
  (exists chars : nat, Acc.paste_characters (Acc.paste st) == JS.num chars).
Proof.
  apply (main_loop_invariant keylog n (fun j st =>
    counts_upto j (Acc.paste_events (Acc.paste st)) /\
    counts_upto j (Acc.num_deletions (Acc.revision st)) /\
    counts_upto j (Acc.num_insertions (Acc.revision st)) /\
    counts_upto j (Acc.pauses_within_words (Acc.pause st)) /\
    (exists chars : nat, Acc.paste_characters (Acc.paste st) == JS.num chars))).
  - simpl. repeat split; try (exists 0%nat; split; [lia | reflexivity]).
    exists 0%nat. reflexivity.
  - intros j st _ (Hp & Hd & Hi & Hw & (chars & Hc)). simpl.
    split; [| split; [| split; [| split]]].
    + unfold paste_block. destruct (JS.str_eq (activity keylog (S j)) "Paste"); simpl.
      * now apply counts_upto_incr.
      * now apply counts_upto_keep.
    + unfold insertion_block, deletion_block.
      destruct (is_deletion keylog (S j)),
        (JS.str_eq (activity keylog (S j)) "Input" && cursor_before_end keylog (S j));
        simpl; (now apply counts_upto_incr) || (now apply counts_upto_keep).
    + unfold insertion_block, deletion_block.
      destruct (is_deletion keylog (S j)),
        (JS.str_eq (activity keylog (S j)) "Input" && cursor_before_end keylog (S j));
        simpl; (now apply counts_upto_incr) || (now apply counts_upto_keep).
    + unfold pause_block.
      repeat match goal with
             | |- context [if ?b then _ else _] => destruct b
             end; simpl; (now apply counts_upto_incr) || (now apply counts_upto_keep).
    + unfold paste_block. destruct (JS.str_eq (activity keylog (S j)) "Paste"); simpl.
      * destruct (textChange keylog (S j)) as [s |].
        -- destruct (negb (s =? EmptyString)%string && negb (s =? "NoChange")%string).
           ++ exists (chars + String.length s)%nat.
              rewrite Hc. unfold JS.num. rewrite Nat2Z.inj_add, inject_Z_plus. reflexivity.
           ++ exists chars. rewrite Hc. ring.
        -- exists chars. rewrite Hc. ring.
      * exists chars. exact Hc.
Qed.

(** X6. In every record [extractMetrics] returns, the revision count is the
    sum of the deletion count and the insertion count, the total of
    insertions equals the insertion count, and the approximate word-deletion
    count is 0.2 times the deletion count. *)
Theorem revision_accounting (keylog : Keylog) (m : Metrics) :
  extractMetrics keylog = Some m ->
  num_revisions m == num_deletions m + num_insertions m /\
  total_insertions m == num_insertions m /\
  total_deletions_words m == 0.2 * num_deletions m.
Proof.
  unfold extractMetrics.
  destruct (length (EventID keylog) <? 2)%nat; [discriminate |].
  intros [= <-]. simpl. apply main_loop_balanced.
Qed.

Lemma revision_accounting_witness :
  exists m, extractMetrics log_mixed = Some m /\
    num_deletions m == 1 /\
    num_revisions m == num_deletions m + num_insertions m /\
    total_deletions_words m == 0.2 * num_deletions m.
Proof.
  eexists. split; [vm_compute; reflexivity |].
  split; [reflexivity |].
  refine (let H := revision_accounting log_mixed _ _ in
          conj (proj1 H) (proj2 (proj2 H))).
  vm_compute. reflexivity.
Defined.

(** X7. In every record [extractMetrics] returns, the paste, deletion,
    insertion and within-word pause counts are natural numbers, each at most
    the number of events minus one (the loop starts at the second event);
    the paste character count is a natural number too. *)
Theorem counts_are_bounded_naturals (keylog : Keylog) (m : Metrics) :
  extractMetrics keylog = Some m ->
  exists pastes deletions insertions within chars : nat,
    (pastes ≤ length (EventID keylog) - 1)%nat /\
    (deletions ≤ length (EventID keylog) - 1)%nat /\
    (insertions ≤ length (EventID keylog) - 1)%nat /\
    (within ≤ length (EventID keylog) - 1)%nat /\
    paste_events m == JS.num pastes /\
    num_deletions m == JS.num deletions /\
    num_insertions m == JS.num insertions /\
    pause_within_words_count m == JS.num within /\
    paste_characters m == JS.num chars.
Proof.
  unfold extractMetrics.
  destruct (length (EventID keylog) <? 2)%nat; [discriminate |].
  intros [= <-]. simpl.
  destruct (main_loop_counts keylog (length (EventID keylog)))
    as ((p & Hp & Ep) & (d & Hd & Ed) & (i & Hi & Ei) & (w & Hw & Ew) & (c & Ec)).
  exists p, d, i, w, c. repeat split; assumption.
Qed.

Lemma counts_are_bounded_naturals_witness :
  exists m, extractMetrics log_mixed = Some m /\
  exists pastes deletions insertions within chars : nat,
    (pastes ≤ 7)%nat /\ (deletions ≤ 7)%nat /\ (insertions ≤ 7)%nat /\ (within ≤ 7)%nat /\
    paste_events m == JS.num pastes /\
    num_deletions m == JS.num deletions /\
    num_insertions m == JS.num insertions /\
    pause_within_words_count m == JS.num within /\
    paste_characters m == JS.num chars.
Proof.
  eexists. split; [vm_compute; reflexivity |].
  refine (counts_are_bounded_naturals log_mixed _ _).
  vm_compute. reflexivity.
Defined.

End LoopInvariants.

(** ** Bursts, pauses and rates of [extractMetrics] *)

Section BurstFacts.
Local Open Scope Q_scope.

Lemma div_1000 (x : Q) : x / 1000.0 == x * (1 # 1000).
Proof. field. Qed.

Lemma sum_snoc (l : list Q) (x : Q) : JS.sum (l ++ [x]) = JS.sum l + x.
Proof. unfold JS.sum. apply foldl_snoc. Qed.

(** Only positive durations are recorded. *)
Lemma main_loop_bursts_positive (keylog : Keylog) (n : nat) :
  Forall (fun b => 0 < b) (Acc.bursts (Acc.burst (main_loop keylog n))).
Proof.
  apply (main_loop_invariant keylog n
           (fun _ st => Forall (fun b => 0 < b) (Acc.bursts (Acc.burst st)))).
  - constructor.
  - intros j st _ H. rewrite loop_body_burst. unfold burst_block.
    destruct (burst_boundary keylog (1 + j)); [| exact H]. simpl.
    match goal with |- context [JS.ltb 0 ?d] => destruct (JS.ltb 0 d) eqn:E end;
      [| exact H].
    apply ltb_lt in E. apply Forall_app. split; [exact H |].
    constructor; [exact E | constructor].
Qed.

Lemma all_bursts_positive (keylog : Keylog) (n : nat) :
  Forall (fun b => 0 < b) (all_bursts keylog n).
Proof.
  unfold all_bursts. cbv zeta.
  pose proof (main_loop_bursts_positive keylog n) as H.
  match goal with |- context [JS.ltb 0 ?d] => destruct (JS.ltb 0 d) eqn:E end;
    [| exact H].
  apply ltb_lt in E. apply Forall_app. split; [exact H |].
  constructor; [exact E | constructor].
Qed.

(** Timestamps that do not decrease from one event to the next do not
    decrease over any stretch of the log. *)
Lemma timestamps_monotone (keylog : Keylog) (n : nat) :
  (forall i, (S i < n)%nat -> time_at keylog i <= time_at keylog (S i)) ->
  forall i j, (i ≤ j)%nat -> (j < n)%nat -> time_at keylog i <= time_at keylog j.
Proof.
  intros Hstep i j Hij. induction Hij as [| j Hij IH]; intros Hj; [lra |].
  specialize (Hstep j Hj). specialize (IH ltac:(lia)). lra.
Qed.

(** With such timestamps the bursts recorded so far fit between the first
    event and the start of the current burst, which is not later than the
    event just handled. *)
Lemma main_loop_bursts_fit (keylog : Keylog) (n : nat) :
  (forall i, (S i < n)%nat -> time_at keylog i <= time_at keylog (S i)) ->
  let b := Acc.burst (main_loop keylog n) in
  time_at keylog 0 <= Acc.currentBurstStartTime b /\
  Acc.currentBurstStartTime b <= time_at keylog (n - 1) /\
  JS.sum (Acc.bursts b) <= (Acc.currentBurstStartTime b - time_at keylog 0) * (1 # 1000).
Proof.
  intros Hstep.
  pose proof (timestamps_monotone keylog n Hstep) as Hmono.
  apply (main_loop_invariant keylog n (fun j st =>
    time_at keylog 0 <= Acc.currentBurstStartTime (Acc.burst st) /\
    Acc.currentBurstStartTime (Acc.burst st) <= time_at keylog j /\
    JS.sum (Acc.bursts (Acc.burst st)) <=
      (Acc.currentBurstStartTime (Acc.burst st) - time_at keylog 0) * (1 # 1000))).
  - simpl. unfold JS.sum. simpl. repeat split; lra.
  - intros j st Hj (H0 & H1 & H2). rewrite loop_body_burst. unfold burst_block.
    replace (1 + j - 1)%nat with j by lia. change (1 + j)%nat with (S j).
    assert (Hjj : time_at keylog j <= time_at keylog (S j)) by (apply Hstep; lia).
    assert (H0j : time_at keylog 0 <= time_at keylog (S j)) by (apply Hmono; lia).
    destruct (burst_boundary keylog (S j)); [| repeat split; lra]. simpl.
    split; [exact H0j |]. split; [lra |].
    match goal with |- context [JS.ltb 0 ?d] => destruct (JS.ltb 0 d) eqn:E end.
    + rewrite sum_snoc, div_1000. lra.
    + lra.
Qed.

(** Each element of an array of positive numbers is at most their sum. *)
Lemma sum_positive_bounds (l : list Q) :
  Forall (fun b => 0 < b) l -> 0 <= JS.sum l /\ Forall (fun b => b <= JS.sum l) l.
Proof.
  induction l as [| x l IH] using rev_ind; intros H.
  - unfold JS.sum. simpl. split; [lra | constructor].
  - apply Forall_app in H as [Hl Hx]. inversion Hx as [| ? ? Hx0 _]; subst.
    destruct (IH Hl) as [Hs Hb]. rewrite sum_snoc. split; [lra |].
    apply Forall_app. split.
    + eapply Forall_impl; [exact Hb |]. intros y Hy. simpl in Hy. lra.
    + constructor; [lra | constructor].
Qed.

(** X8. On a log whose timestamps never decrease from one event to the
    next, the bursts [extractMetrics] records are positive and add up to no
    more than the duration of the session, so the burst-length median lies
    between 0 and the duration. *)
Theorem bursts_within_duration (keylog : Keylog) (m : Metrics) :
  (forall i, (S i < length (EventID keylog))%nat ->
             time_at keylog i <= time_at keylog (S i)) ->
  extractMetrics keylog = Some m ->
  Forall (fun b => 0 < b) (all_bursts keylog (length (EventID keylog))) /\
  JS.sum (all_bursts keylog (length (EventID keylog))) <= durationSeconds m /\
  0 <= rburst_length_median m <= durationSeconds m.
Proof.
  intros Hstep. unfold extractMetrics.
  destruct (length (EventID keylog) <? 2)%nat; [discriminate |].
  intros [= <-]. simpl.
  set (n := length (EventID keylog)) in *.
  pose proof (all_bursts_positive keylog n) as Hpos.
  assert (Hsum : JS.sum (all_bursts keylog n) <=
                 (time_at keylog (n - 1) - time_at keylog 0) / 1000.0).
  { destruct (main_loop_bursts_fit keylog n Hstep) as (H0 & H1 & H2).
    unfold all_bursts. cbv zeta.
    match goal with |- context [JS.ltb 0 ?d] => destruct (JS.ltb 0 d) eqn:E end.
    - rewrite sum_snoc, !div_1000. lra.
    - rewrite div_1000. lra. }
  split; [exact Hpos |]. split; [exact Hsum |].
  destruct (sum_positive_bounds _ Hpos) as [Hs Hb].
  destruct (all_bursts keylog n) as [| b0 bs] eqn:Eb.
  - rewrite calculateMedian_empty. unfold JS.sum in Hsum. simpl in Hsum. lra.
  - split.
    + apply calculateMedian_ge; [discriminate |].
      eapply Forall_impl; [exact Hpos |]. intros x Hx. simpl in Hx. lra.
    + apply calculateMedian_le; [discriminate |].
      eapply Forall_impl; [exact Hb |]. intros x Hx. simpl in Hx. lra.
Qed.

Lemma bursts_within_duration_witness :
  exists m, extractMetrics log_mixed = Some m /\
    JS.sum (all_bursts log_mixed 8) <= durationSeconds m /\
    0 <= rburst_length_median m <= durationSeconds m.
Proof.
  eexists. split; [vm_compute; reflexivity |].
  refine (proj2 (bursts_within_duration log_mixed _ _ _)).
  - intros i Hi. simpl in Hi.
    do 7 (destruct i as [| i]; [vm_compute; discriminate |]). lia.
  - vm_compute. reflexivity.
Defined.

(** When no event is a burst boundary the burst variables stay as the loop
    found them. *)
Lemma main_loop_no_boundary (keylog : Keylog) (n : nat) :
  (forall i, (1 ≤ i < n)%nat -> burst_boundary keylog i = false) ->
  Acc.burst (main_loop keylog n) = Acc.burst (loop_init keylog).
Proof.
  intros Hnb.
  apply (main_loop_invariant keylog n
           (fun _ st => Acc.burst st = Acc.burst (loop_init keylog))).
  - reflexivity.
  - intros j st Hj H. rewrite no_boundary_step; [exact H |]. apply Hnb. lia.
Qed.

(** X9. On a log with no deletion and no interval of 2000 ms or more, the
    session is a single burst: the burst-length median [extractMetrics]
    returns is the duration of the session when that is positive, and 0
    otherwise. *)
Theorem single_burst_without_boundary (keylog : Keylog) (m : Metrics) :
  (forall i, (1 ≤ i < length (EventID keylog))%nat -> burst_boundary keylog i = false) ->
  extractMetrics keylog = Some m ->
  (0 < durationSeconds m -> rburst_length_median m = durationSeconds m) /\
  (durationSeconds m <= 0 -> rburst_length_median m = 0).
Proof.
  intros Hnb. unfold extractMetrics.
  destruct (length (EventID keylog) <? 2)%nat; [discriminate |].
  intros [= <-]. simpl. unfold all_bursts. cbv zeta.
  rewrite (main_loop_no_boundary _ _ Hnb). simpl.
  match goal with |- context [JS.ltb 0 ?d] => destruct (JS.ltb 0 d) eqn:E end.
  - apply ltb_lt in E. split; [intros _; reflexivity | intros H; lra].
  - split; [| intros _; reflexivity].
    intros H. apply ltb_lt in H. congruence.
Qed.

Lemma single_burst_without_boundary_witness :
  exists m, extractMetrics log_plain = Some m /\
    rburst_length_median m = durationSeconds m /\ durationSeconds m == 0.9.
Proof.
  eexists. split; [vm_compute; reflexivity |].
  split; [| reflexivity].
  refine (proj1 (single_burst_without_boundary log_plain _ _ _) _).
  - intros i Hi. simpl in Hi.
    destruct i as [| [| [| i]]]; [lia | reflexivity | reflexivity | lia].
  - vm_compute. reflexivity.
  - reflexivity.
Defined.

End BurstFacts.

Section PauseFacts.
Local Open Scope Q_scope.

(** The numbers of an array are at least [c] each: their sum is at least
    [c] times their count. *)
Lemma sum_at_least (c : Q) (l : list Q) :
  Forall (fun x => c <= x) l -> c * JS.num (length l) <= JS.sum l.
Proof.
  induction l as [| x l IH] using rev_ind; intros H.
  - change (c * 0 <= 0). lra.
  - apply Forall_app in H as [Hl Hx]. inversion Hx as [| ? ? Hx0 _]; subst.
    specialize (IH Hl).
    rewrite sum_snoc, length_app. simpl. rewrite Nat.add_1_r, num_S. lra.
Qed.

Lemma num_pos (n : nat) : (0 < n)%nat -> 0 < JS.num n.
Proof.
  intros H. unfold JS.num. change 0 with (inject_Z 0). rewrite <- Zlt_Qlt. lia.
Qed.

(** The mean, in seconds, of an array of intervals of 200 ms or more: 0 for
    the empty array, at least 0.2 otherwise. *)
Lemma mean_seconds_floor (l : list Q) :
  Forall (fun x => 200 <= x) l ->
  (l = [] /\ mean_seconds l = 0) \/ (l <> [] /\ 0.2 <= mean_seconds l).
Proof.
  intros H. unfold mean_seconds. destruct l as [| x l]; [left; split; reflexivity |].
  right. split; [discriminate |].
  replace (0 <? length (x :: l))%nat with true by reflexivity.
  pose proof (sum_at_least 200 _ H) as Hs.
  pose proof (num_pos (length (x :: l)) ltac:(simpl; lia)) as Hn.
  rewrite div_1000.
  assert (200 <= JS.sum (x :: l) / JS.num (length (x :: l))).
  { apply Qle_shift_div_l; [exact Hn | exact Hs]. }
  lra.
Qed.

Lemma pauses_at_least_200 (ikis : list Q) :
  Forall (fun x => 200 <= x)
    (filter (fun iki => JS.geb iki PAUSE_THRESHOLD_MS = true) ikis).
Proof.
  apply Forall_forall. intros x Hx. apply list_elem_of_filter in Hx as [Hx _].
  apply geb_le in Hx. exact Hx.
Qed.

(** The intervals of the events [1 .. j]. *)
Lemma ikis_snoc (keylog : Keylog) (j : nat) :
  map (fun i => iki keylog i) (seq 1 (S j)) =
  map (fun i => iki keylog i) (seq 1 j) ++ [iki keylog (1 + j)].
Proof. rewrite seq_S, map_app. reflexivity. Qed.

(** The loop classifies pauses only: the two arrays of classified pauses
    hold intervals of 200 ms or more, and as soon as one class is not empty
    the array of all pauses is not empty either. *)
Lemma main_loop_pauses (keylog : Keylog) (n : nat) :
  let p := Acc.pause (main_loop keylog n) in
  Forall (fun x => 200 <= x) (Acc.pauses_before_words p) /\
  Forall (fun x => 200 <= x) (Acc.pauses_before_sentences p) /\
  (Acc.pauses_before_words p <> [] \/ Acc.pauses_before_sentences p <> [] \/
   ~ Acc.pauses_within_words p == 0 ->
   filter (fun iki => JS.geb iki PAUSE_THRESHOLD_MS = true)
     (map (fun i => iki keylog i) (seq 1 (n - 1))) <> []).
Proof.
  apply (main_loop_invariant keylog n (fun j st =>
    Forall (fun x => 200 <= x) (Acc.pauses_before_words (Acc.pause st)) /\
    Forall (fun x => 200 <= x) (Acc.pauses_before_sentences (Acc.pause st)) /\
    (Acc.pauses_before_words (Acc.pause st) <> [] \/
     Acc.pauses_before_sentences (Acc.pause st) <> [] \/
     ~ Acc.pauses_within_words (Acc.pause st) == 0 ->
     filter (fun iki => JS.geb iki PAUSE_THRESHOLD_MS = true)
       (map (fun i => iki keylog i) (seq 1 j)) <> []))).
  - simpl. split; [constructor |]. split; [constructor |].
    intros [H | [H | H]]; [congruence | congruence |]. exfalso. apply H. reflexivity.
  - intros j st _ (Hw & Hs & Hne). cbn [loop_body Acc.pause].
    rewrite ikis_snoc, filter_app. unfold pause_block.
    destruct (JS.geb (iki keylog (1 + j)) PAUSE_THRESHOLD_MS) eqn:E.
    + assert (Hiki : 200 <= iki keylog (1 + j)) by (apply geb_le in E; exact E).
      assert (Hfilter : forall l : list Q,
                l ++ filter (fun iki => JS.geb iki PAUSE_THRESHOLD_MS = true)
                       [iki keylog (1 + j)] <> []).
      { intros l. rewrite filter_cons_True by exact E. destruct l; discriminate. }
      repeat match goal with
             | |- context [if ?b then _ else _] => destruct b
             end; simpl;
        (split; [| split; [| intros _; apply Hfilter]]);
        try assumption;
        (apply Forall_app; split; [assumption | constructor; [exact Hiki | constructor]]).
    + split; [exact Hw |]. split; [exact Hs |].
      intros H. specialize (Hne H).
      rewrite filter_cons_False by (rewrite E; discriminate).
      rewrite filter_nil, app_nil_r. exact Hne.
Qed.

(** X10. In every record [extractMetrics] returns, each of the three pause
    means is 0 (no such pause) or at least 0.2 seconds, the 200 ms threshold;
    and whenever a before-word mean, a before-sentence mean or a within-word
    count is not zero, the overall pause mean is at least 0.2 seconds. *)
Theorem pause_means_floor (keylog : Keylog) (m : Metrics) :
  extractMetrics keylog = Some m ->
  (pause_time_mean m = 0 \/ 0.2 <= pause_time_mean m) /\
  (pause_before_words m = 0 \/ 0.2 <= pause_before_words m) /\
  (pause_before_sentences m = 0 \/ 0.2 <= pause_before_sentences m) /\
  (~ pause_before_words m == 0 \/ ~ pause_before_sentences m == 0 \/
   ~ pause_within_words_count m == 0 -> 0.2 <= pause_time_mean m).
Proof.
  unfold extractMetrics.
  destruct (length (EventID keylog) <? 2)%nat; [discriminate |].
  intros [= <-]. simpl.
  destruct (main_loop_pauses keylog (length (EventID keylog))) as (Hw & Hs & Hne).
  set (pauses := filter (fun iki => JS.geb iki PAUSE_THRESHOLD_MS = true)
                   (map (fun i => iki keylog i) (seq 1 (length (EventID keylog) - 1)))) in *.
  pose proof (mean_seconds_floor pauses (pauses_at_least_200 _)) as Hp.
  pose proof (mean_seconds_floor _ Hw) as Hw'.
  pose proof (mean_seconds_floor _ Hs) as Hs'.
  split; [tauto |]. split; [tauto |]. split; [tauto |].
  intros Hclass.
  assert (Hany : pauses <> []).
  { apply Hne. destruct Hclass as [H | [H | H]].
    - left. intros E. apply H. destruct Hw' as [[_ ->] | [Hx _]]; [reflexivity | congruence].
    - right. left. intros E. apply H.
      destruct Hs' as [[_ ->] | [Hx _]]; [reflexivity | congruence].
    - right. right. exact H. }
  destruct Hp as [[Hx _] | [_ Hx]]; [congruence | exact Hx].
Qed.

Lemma pause_means_floor_witness :
  exists m, extractMetrics log_mixed = Some m /\
    0.2 <= pause_time_mean m /\ 0.2 <= pause_before_words m.
Proof.
  eexists. split; [vm_compute; reflexivity |].
  pose proof (pause_means_floor log_mixed _ ltac:(vm_compute; reflexivity)) as H.
  split; [| discriminate].
  apply (proj2 (proj2 (proj2 H))). left. discriminate.
Defined.

End PauseFacts.

Section MetricsFacts.
Local Open Scope Q_scope.

Lemma ratio_nonneg (x c : Q) : 0 <= x -> 0 < c -> 0 <= x / c.
Proof. intros Hx Hc. apply Qle_shift_div_l; [exact Hc | lra]. Qed.

Lemma mean_seconds_nonneg (l : list Q) :
  Forall (fun x => 200 <= x) l -> 0 <= mean_seconds l.
Proof.
  intros H. destruct (mean_seconds_floor l H) as [[_ ->] | [_ Hm]]; lra.
Qed.

Lemma calculateMedian_nonneg (l : list Q) :
  Forall (fun b => 0 < b) l -> 0 <= calculateMedian l.
Proof.
  intros H. destruct l as [| x l]; [rewrite calculateMedian_empty; lra |].
  apply calculateMedian_ge; [discriminate |].
  eapply Forall_impl; [exact H |]. intros y Hy. simpl in Hy. lra.
Qed.

(** [if (x === 0) x = 1]: the guard of the keystroke count. *)
Lemma at_least_one_pos (x : nat) : (0 < (if (x =? 0)%nat then 1 else x))%nat.
Proof. destruct x; simpl; lia. Qed.

(** X11. Every number of a record [extractMetrics] returns is non-negative,
    whatever the log; for the duration this needs the last timestamp not to
    precede the first. *)
Theorem metrics_nonnegative (keylog : Keylog) (m : Metrics) :
  extractMetrics keylog = Some m ->
  0 <= product_process_ratio m /\ 0 <= num_revisions m /\ 0 <= num_deletions m /\
  0 <= total_deletions_words m /\ 0 <= total_insertions m /\ 0 <= num_insertions m /\
  0 <= paste_events m /\ 0 <= paste_characters m /\ 0 <= rburst_length_median m /\
  0 <= characters_per_minute m /\ 0 <= pause_time_mean m /\
  0 <= pause_within_words_count m /\ 0 <= pause_before_words m /\
  0 <= pause_before_sentences m /\ 0 <= finalLength m /\ 0 <= totalEvents m /\
  (time_at keylog 0 <= time_at keylog (length (EventID keylog) - 1) ->
   0 <= durationSeconds m).
Proof.
  unfold extractMetrics.
  destruct (length (EventID keylog) <? 2)%nat; [discriminate |].
  intros [= <-]. simpl.
  set (n := length (EventID keylog)).
  destruct (main_loop_counts keylog n) as (Hp & Hd & Hi & Hw & (chars & Hc)).
  destruct (main_loop_balanced keylog n) as (Hr1 & Hr2 & Hr3).
  destruct (main_loop_pauses keylog n) as (Hbw & Hbs & _).
  apply counts_upto_nonneg in Hp, Hd, Hi, Hw.
  pose proof (num_nonneg chars) as Hchars.
  pose proof (num_nonneg (String.length (final_text keylog))) as Hlen.
  repeat split; try lra.
  - apply ratio_nonneg; [exact Hlen |]. apply num_pos, at_least_one_pos.
  - apply calculateMedian_nonneg, all_bursts_positive.
  - match goal with |- context [JS.ltb 0 ?d] => destruct (JS.ltb 0 d) eqn:E end; [| lra].
    apply ltb_lt in E.
    pose proof (ratio_nonneg _ _ Hlen E). lra.
  - apply mean_seconds_nonneg, pauses_at_least_200.
  - now apply mean_seconds_nonneg.
  - now apply mean_seconds_nonneg.
  - apply num_nonneg.
  - intros Ht. rewrite div_1000. lra.
Qed.

Lemma metrics_nonnegative_witness :
  exists m, extractMetrics log_mixed = Some m /\
    0 <= product_process_ratio m /\ 0 <= rburst_length_median m /\
    0 <= characters_per_minute m /\ 0 <= durationSeconds m.
Proof.
  eexists. split; [vm_compute; reflexivity |].
  pose proof (metrics_nonnegative log_mixed _ ltac:(vm_compute; reflexivity)) as H.
  destruct H as (Hppr & _ & _ & _ & _ & _ & _ & _ & Hmed & Hcpm & _ & _ & _ & _ & _ & _ & Hdur).
  split; [exact Hppr |]. split; [exact Hmed |]. split; [exact Hcpm |].
  apply Hdur. discriminate.
Defined.

(** X12. When the log has no [Activity] field every event counts as an
    [Input]: the record [extractMetrics] returns has no paste event and no
    paste character, and its product/process ratio is the final length
    divided by the number of events. *)
Theorem metrics_without_activity (keylog : Keylog) (m : Metrics) :
  Activity keylog = None ->
  extractMetrics keylog = Some m ->
  paste_events m = 0 /\ paste_characters m = 0 /\
  product_process_ratio m = finalLength m / totalEvents m.
Proof.
  intros Ha. unfold extractMetrics.
  destruct (length (EventID keylog) <? 2)%nat eqn:En; [discriminate |].
  intros [= <-]. simpl. rewrite Ha.
  assert (Hpaste : Acc.paste (main_loop keylog (length (EventID keylog))) =
                   Acc.paste (loop_init keylog)).
  { apply (main_loop_invariant keylog _
             (fun _ st => Acc.paste st = Acc.paste (loop_init keylog))).
    - reflexivity.
    - intros j st _ H. cbn [loop_body Acc.paste]. unfold paste_block, activity.
      rewrite Ha. simpl. exact H. }
  rewrite Hpaste. simpl. repeat split.
  apply Nat.ltb_ge in En.
  destruct (length (EventID keylog) =? 0)%nat eqn:E; [apply Nat.eqb_eq in E; lia |].
  reflexivity.
Qed.

Lemma metrics_without_activity_witness :
  exists m, extractMetrics log_plain = Some m /\
    paste_events m = 0 /\ product_process_ratio m = finalLength m / totalEvents m.
Proof.
  eexists. split; [vm_compute; reflexivity |].
  pose proof (metrics_without_activity log_plain _ eq_refl
                ltac:(vm_compute; reflexivity)) as H.
  destruct H as (H1 & _ & H3). split; [exact H1 | exact H3].
Defined.

(** X13. The typing rate [extractMetrics] returns is zero exactly when the
    duration of the session is not positive or the final text is empty;
    otherwise it is the final length divided by the duration in seconds,
    times 60. *)
Theorem typing_rate_zero_iff (keylog : Keylog) (m : Metrics) :
  extractMetrics keylog = Some m ->
  (characters_per_minute m == 0 <-> durationSeconds m <= 0 \/ finalLength m == 0) /\
  (0 < durationSeconds m ->
   characters_per_minute m == finalLength m / durationSeconds m * 60) /\
  (finalLength m == 0 <-> final_text keylog = EmptyString).
Proof.
  unfold extractMetrics.
  destruct (length (EventID keylog) <? 2)%nat; [discriminate |].
  intros [= <-]. simpl.
  split; [| split].
  - match goal with |- context [JS.ltb 0 ?d] => destruct (JS.ltb 0 d) eqn:E end.
    + apply ltb_lt in E. rewrite (rate_zero_iff _ _ E).
      split; [intros H; right; exact H | intros [H | H]; [lra | exact H]].
    + split; [intros _; left | reflexivity].
      apply Qnot_lt_le. intros H. apply ltb_lt in H. congruence.
  - intros H. apply ltb_lt in H. rewrite H. reflexivity.
  - rewrite num_zero_iff. apply string_length_zero_iff.
Qed.

Lemma typing_rate_zero_iff_witness :
  exists m, extractMetrics log_two_keys = Some m /\
    characters_per_minute m == finalLength m / durationSeconds m * 60.
Proof.
  eexists. split; [vm_compute; reflexivity |].
  pose proof (typing_rate_zero_iff log_two_keys _ ltac:(vm_compute; reflexivity)) as H.
  destruct H as (_ & H & _). apply H. reflexivity.
Defined.

End MetricsFacts.

(** ** More on [getCalibrationData] *)

(** Well-formedness of a sample log, by computation. *)
Ltac well_formed_by_computation :=
  unfold well_formed; simpl;
  repeat split; try reflexivity; intros ? [= <-]; reflexivity.

Section CalibrationFacts.
Local Open Scope Q_scope.

(** A snapshot the scan finds in a prefix of the snapshots is the one it
    finds in all of them. *)
Lemma first_long_snapshot_take (snaps : list string) (n i j : nat) :
  first_long_snapshot (take n snaps) i = Some j ->
  first_long_snapshot snaps i = Some j /\ (j < i + n)%nat.
Proof.
  revert n i. induction snaps as [| s rest IH]; intros n i.
  - rewrite take_nil. discriminate.
  - destruct n as [| n]; [discriminate |]. cbn [take first_long_snapshot].
    destruct (200 <=? String.length s)%nat.
    + intros [= <-]. split; [reflexivity | lia].
    + intros H. apply IH in H as [H1 H2]. split; [exact H1 | lia].
Qed.

Lemma slice_of_earlier_state (n idx : nat) (earlier later : Keylog) :
  earlier_state n earlier later -> (idx ≤ n)%nat ->
  rewrite_FinalProduct (slice_keylog earlier idx) =
  rewrite_FinalProduct (slice_keylog later idx).
Proof.
  intros (H1 & H2 & H3 & H4 & H5 & H6 & H7) Hidx.
  unfold rewrite_FinalProduct, slice_keylog. simpl.
  rewrite H1, H2, H3, H4, H5, H6, H7, !take_take, !Nat.min_l by exact Hidx.
  f_equal.
  - destruct (Activity later); simpl; [| reflexivity].
    now rewrite take_take, Nat.min_l.
  - destruct (TextChange later); simpl; [| reflexivity].
    now rewrite take_take, Nat.min_l.
Qed.

(** X14. The calibration slice does not change once it is found: if a log
    already holds a snapshot of 200 characters or more, every later state of
    the same log (more events appended) has the same calibration slice, and
    [getCalibrationData] returns the same baseline for both as long as the
    final text of each still has 200 characters or more. *)
Theorem calibration_stable (n : nat) (earlier later : Keylog) :
  earlier_state n earlier later ->
  is_Some (first_long_snapshot (TextContent earlier) 0) ->
  slicedKeylog later = slicedKeylog earlier /\
  ((2 ≤ length (EventID earlier))%nat ->
   (200 ≤ String.length (calib_final_text earlier))%nat ->
   (200 ≤ String.length (calib_final_text later))%nat ->
   getCalibrationData later = getCalibrationData earlier).
Proof.
  intros Hst [j Hj].
  assert (Hsnap : TextContent earlier = take n (TextContent later)) by apply Hst.
  assert (Hids : EventID earlier = take n (EventID later)) by apply Hst.
  pose proof Hj as Hj'. rewrite Hsnap in Hj'.
  apply first_long_snapshot_take in Hj' as [Hlater Hjn].
  assert (Hslice : slicedKeylog later = slicedKeylog earlier).
  { unfold slicedKeylog, calibEventIndex. rewrite Hj, Hlater.
    symmetry. apply (slice_of_earlier_state n); [exact Hst | lia]. }
  split; [exact Hslice |].
  intros H2 He Hl. unfold getCalibrationData.
  assert (H2' : (2 ≤ length (EventID later))%nat).
  { rewrite Hids, length_take in H2. lia. }
  apply Nat.ltb_ge in H2, H2', He, Hl.
  now rewrite H2, H2', He, Hl, Hslice.
Qed.

Lemma calibration_stable_witness :
  slicedKeylog log_two_minutes_later = slicedKeylog log_two_minutes /\
  getCalibrationData log_two_minutes_later = getCalibrationData log_two_minutes.
Proof.
  destruct (calibration_stable 3 log_two_minutes log_two_minutes_later) as [H1 H2].
  - repeat split.
  - eexists. vm_compute. reflexivity.
  - split; [exact H1 |]. apply H2; vm_compute; lia.
Defined.

(** X15. When the very first snapshot already has 200 characters or more
    (the text was pasted in the first event), [getCalibrationData] returns
    "not ready", and keeps doing so however the log grows: the calibration
    slice is cut after the first event and never holds the two events the
    Normalizer needs. *)
Theorem calibration_blocked_by_first_snapshot (keylog : Keylog) (s : string) :
  TextContent keylog !! 0%nat = Some s ->
  (200 ≤ String.length s)%nat ->
  calibEventIndex keylog = 1%nat /\
  extractMetrics (slicedKeylog keylog) = None /\
  getCalibrationData keylog = None.
Proof.
  intros Hs Hlen.
  assert (Hidx : calibEventIndex keylog = 1%nat).
  { unfold calibEventIndex. destruct (TextContent keylog) as [| s' rest]; [discriminate |].
    injection Hs as ->. cbn [first_long_snapshot].
    apply Nat.leb_le in Hlen. now rewrite Hlen. }
  assert (Hnone : extractMetrics (slicedKeylog keylog) = None).
  { apply extractMetrics_few_events. unfold slicedKeylog. rewrite Hidx. simpl.
    rewrite length_take. lia. }
  split; [exact Hidx |]. split; [exact Hnone |].
  unfold getCalibrationData. rewrite Hnone.
  destruct (length (EventID keylog) <? 2)%nat; [reflexivity |].
  destruct (String.length (calib_final_text keylog) <? 200)%nat; reflexivity.
Qed.

Lemma calibration_blocked_by_first_snapshot_witness :
  getCalibrationData log_paste_first = None.
Proof.
  apply (calibration_blocked_by_first_snapshot log_paste_first (text_of_length 200)).
  - reflexivity.
  - vm_compute. lia.
Defined.

(** The typing rate and the burst-length median of a returned record are
    not negative. *)
Lemma rate_and_median_nonneg (keylog : Keylog) (m : Metrics) :
  extractMetrics keylog = Some m ->
  0 <= characters_per_minute m /\ 0 <= rburst_length_median m.
Proof.
  unfold extractMetrics.
  destruct (length (EventID keylog) <? 2)%nat; [discriminate |].
  intros [= <-]. simpl. split.
  - match goal with |- context [JS.ltb 0 ?d] => destruct (JS.ltb 0 d) eqn:E end; [| lra].
    apply ltb_lt in E.
    pose proof (ratio_nonneg _ _ (num_nonneg (String.length (final_text keylog))) E).
    lra.
  - apply calculateMedian_nonneg, all_bursts_positive.
Qed.

(** X16. Every baseline [getCalibrationData] returns has a positive typing
    rate mean and spread, and a burst-length mean and spread that are not
    negative; the burst spread is zero exactly when the burst mean is.  So
    the scorer's fallback for a zero spread leaves the typing-rate spread as
    it is; it replaces the burst spread by 0.001 when the calibration slice
    has a burst-length median of zero, and leaves it as it is otherwise. *)
Theorem baseline_is_positive (keylog : Keylog) (b : Baseline) :
  getCalibrationData keylog = Some b ->
  0 < cpm_mean b /\ 0 < cpm_sd b /\ 0 <= rburst_mean b /\ 0 <= rburst_sd b /\
  (rburst_sd b == 0 <-> rburst_mean b == 0) /\
  or_epsilon (cpm_sd b) = cpm_sd b /\
  (rburst_mean b == 0 -> or_epsilon (rburst_sd b) = 0.001) /\
  (~ rburst_mean b == 0 -> or_epsilon (rburst_sd b) = rburst_sd b).
Proof.
  unfold getCalibrationData.
  destruct (length (EventID keylog) <? 2)%nat; [discriminate |].
  destruct (String.length (calib_final_text keylog) <? 200)%nat; [discriminate |].
  destruct (extractMetrics (slicedKeylog keylog)) as [m |] eqn:Em; [| discriminate].
  simpl. destruct (JS.eqb (characters_per_minute m) 0) eqn:E; [discriminate |].
  intros [= <-]. unfold baseline_of. simpl.
  destruct (rate_and_median_nonneg _ _ Em) as [Hc Hr].
  assert (Hne : ~ characters_per_minute m == 0)
    by (intros H; apply eqb_eq in H; congruence).
  assert (Hpos : 0 < characters_per_minute m).
  { destruct (Qlt_le_dec 0 (characters_per_minute m)) as [H | H]; [exact H |].
    exfalso. apply Hne. lra. }
  assert (Hcv1 : 75 / 200 == 3 # 8) by reflexivity.
  assert (Hcv2 : 6.431 / 6.27 == 6431 # 6270) by reflexivity.
  assert (Hsd : 0 < characters_per_minute m * (75 / 200)) by (rewrite Hcv1; lra).
  assert (Hiff : rburst_length_median m * (6.431 / 6.27) == 0 <->
                 rburst_length_median m == 0).
  { rewrite Hcv2. split; intros H; lra. }
  split; [exact Hpos |]. split; [exact Hsd |]. split; [exact Hr |].
  split; [rewrite Hcv2; lra |]. split; [exact Hiff |].
  unfold or_epsilon. split; [now rewrite eqb_false_of_pos |].
  destruct (JS.eqb (rburst_length_median m * (6.431 / 6.27)) 0) eqn:Eb.
  - apply eqb_eq in Eb. split; [reflexivity | tauto].
  - split; [| reflexivity].
    intros H. apply Hiff, eqb_eq in H. congruence.
Qed.

Lemma baseline_is_positive_witness :
  exists b, getCalibrationData log_two_minutes = Some b /\
            0 < cpm_mean b /\ 0 < cpm_sd b /\ or_epsilon (rburst_sd b) = 0.001.
Proof.
  eexists. split; [vm_compute; reflexivity |].
  pose proof (baseline_is_positive log_two_minutes _ ltac:(vm_compute; reflexivity)) as H.
  destruct H as (H1 & H2 & _ & _ & _ & _ & H7 & _).
  split; [exact H1 |]. split; [exact H2 |]. apply H7. reflexivity.
Defined.

(** The typing rate of a returned record, as the source computes it. *)
Lemma extractMetrics_cpm (keylog : Keylog) (m : Metrics) :
  extractMetrics keylog = Some m ->
  let d := (time_at keylog (length (EventID keylog) - 1) - time_at keylog 0) / 1000.0 in
  characters_per_minute m =
  if JS.ltb 0 d then JS.num (String.length (final_text keylog)) / d * 60 else 0.
Proof.
  unfold extractMetrics.
  destruct (length (EventID keylog) <? 2)%nat; [discriminate |].
  intros [= <-]. reflexivity.
Qed.

Lemma time_at_slice (keylog : Keylog) (n i : nat) :
  (i < n)%nat ->
  time_at (rewrite_FinalProduct (slice_keylog keylog n)) i = time_at keylog i.
Proof. intros H. unfold time_at. simpl. now rewrite lookup_take_lt. Qed.

(** X17. On a well-formed log whose first snapshot of 200 characters or more
    comes with event [i], not the first event, at a later time than the
    first event, and whose final text has 200 characters or more,
    [getCalibrationData] returns a baseline whose typing-rate mean is the
    length of that snapshot divided by the seconds between the first event
    and event [i], times 60. *)
Theorem baseline_closed_form (keylog : Keylog) (i : nat) :
  well_formed keylog ->
  first_long_snapshot (TextContent keylog) 0 = Some i ->
  (1 ≤ i)%nat ->
  time_at keylog 0 < time_at keylog i ->
  (200 ≤ String.length (calib_final_text keylog))%nat ->
  exists b s,
    getCalibrationData keylog = Some b /\
    TextContent keylog !! i = Some s /\ (200 ≤ String.length s)%nat /\
    cpm_mean b ==
      JS.num (String.length s) / ((time_at keylog i - time_at keylog 0) / 1000.0) * 60.
Proof.
  intros (Ht & _ & _ & Hx & _) Hfirst Hi Htime Hlen.
  destruct (first_long_snapshot_some _ _ _ Hfirst) as (_ & (s & Hs & Hsl) & _).
  rewrite Nat.sub_0_r in Hs.
  pose proof (lookup_lt_Some _ _ _ Hs) as Hlt. rewrite Hx in Hlt.
  assert (Hidx : calibEventIndex keylog = S i).
  { unfold calibEventIndex. rewrite Hfirst. lia. }
  assert (Hn : length (EventID (slicedKeylog keylog)) = S i).
  { unfold slicedKeylog. rewrite Hidx. simpl. rewrite length_take. lia. }
  assert (Hfinal : final_text (slicedKeylog keylog) = s).
  { rewrite final_text_slicedKeylog. unfold slicedKeylog. rewrite Hidx. simpl.
    unfold last_snapshot. rewrite (take_S_r _ _ _ Hs), last_snoc. reflexivity. }
  destruct (extractMetrics_returns (slicedKeylog keylog)) as (m & Hm & _);
    [rewrite Hn; lia |].
  pose proof (extractMetrics_cpm _ _ Hm) as Hcpm. cbv zeta in Hcpm.
  rewrite Hn, Hfinal in Hcpm. replace (S i - 1)%nat with i in Hcpm by lia.
  unfold slicedKeylog in Hcpm. rewrite Hidx, !time_at_slice in Hcpm by lia.
  set (d := (time_at keylog i - time_at keylog 0) / 1000.0) in *.
  assert (Hd : 0 < d) by (unfold d; apply Qlt_shift_div_l; lra).
  rewrite (proj2 (ltb_lt 0 d) Hd) in Hcpm.
  assert (Hne : ~ characters_per_minute m == 0).
  { rewrite Hcpm, (rate_zero_iff _ _ Hd), num_zero_iff. lia. }
  exists (baseline_of m), s.
  split; [| split; [exact Hs | split; [exact Hsl |]]].
  - unfold getCalibrationData.
    assert (H2 : (length (EventID keylog) <? 2)%nat = false) by (apply Nat.ltb_ge; lia).
    apply Nat.ltb_ge in Hlen. rewrite H2, Hlen, Hm. simpl.
    destruct (JS.eqb (characters_per_minute m) 0) eqn:E; [| reflexivity].
    apply eqb_eq in E. contradiction.
  - simpl. rewrite Hcpm. reflexivity.
Qed.

Lemma baseline_closed_form_witness :
  exists b s,
    getCalibrationData log_two_minutes = Some b /\
    TextContent log_two_minutes !! 2%nat = Some s /\ (200 ≤ String.length s)%nat /\
    cpm_mean b ==
      JS.num (String.length s) /
      ((time_at log_two_minutes 2 - time_at log_two_minutes 0) / 1000.0) * 60.
Proof.
  apply (baseline_closed_form log_two_minutes 2).
  - well_formed_by_computation.
  - vm_compute. reflexivity.
  - lia.
  - reflexivity.
  - vm_compute. lia.
Defined.

End CalibrationFacts.

(** ** Arithmetic beyond the finite range *)

Ltac num_simpl :=
  cbn [Num_add Num_mul Num_max Num_min Num_ltb clamp_number le_or_NaN nonneg within
       Bool.eqb xorb negb andb] in *.

Section NumberFacts.
Local Open Scope Q_scope.

Lemma range_facts :
  0 < UNDERFLOW /\ UNDERFLOW < 0.4 /\ 0 < LARGE /\ 5 * LARGE + 100 < OVERFLOW.
Proof.
  split; [vm_compute; reflexivity |]. split; [vm_compute; reflexivity |].
  split; vm_compute; reflexivity.
Qed.

Lemma Qle_bool_lt (x y : Q) : Qle_bool x y = false -> y < x.
Proof.
  intros E. apply Qnot_le_lt. intros H. apply Qle_bool_iff in H. congruence.
Qed.

Lemma ltb_ge (x y : Q) : y <= x -> JS.ltb x y = false.
Proof.
  intros H. unfold JS.ltb. apply negb_false_iff. now apply Qle_bool_iff.
Qed.

(** The three cases of [to_double]. *)
Lemma to_double_cases (q : Q) :
  (OVERFLOW <= q /\ to_double q = Inf false) \/
  (q <= - OVERFLOW /\ to_double q = Inf true) \/
  (finite_double q /\ to_double q = Fin q).
Proof.
  unfold to_double, finite_double.
  destruct (Qle_bool OVERFLOW q) eqn:E1.
  - left. apply Qle_bool_iff in E1. auto.
  - apply Qle_bool_lt in E1. destruct (Qle_bool q (- OVERFLOW)) eqn:E2.
    + right. left. apply Qle_bool_iff in E2. auto.
    + right. right. apply Qle_bool_lt in E2. auto.
Qed.

Lemma to_double_fin (q : Q) : finite_double q -> to_double q = Fin q.
Proof.
  intros [H1 H2].
  destruct (to_double_cases q) as [[H _] | [[H _] | [_ E]]]; [lra | lra | exact E].
Qed.

Lemma to_double_not_NaN (q : Q) : to_double q <> NaN.
Proof.
  destruct (to_double_cases q) as [[_ ->] | [[_ ->] | [_ ->]]]; discriminate.
Qed.

Lemma to_double_nonneg (q : Q) : 0 <= q -> nonneg (to_double q).
Proof.
  intros H. pose proof range_facts.
  destruct (to_double_cases q) as [[_ ->] | [[H' _] | [_ ->]]]; num_simpl;
    [reflexivity | lra | exact H].
Qed.

Lemma is_zero_false (q : Q) : UNDERFLOW < q -> is_zero q = false.
Proof.
  intros H. pose proof range_facts. unfold is_zero.
  destruct (Qle_bool (Qabs q) UNDERFLOW) eqn:E; [| reflexivity].
  apply Qle_bool_iff in E. rewrite Qabs_pos in E by lra. lra.
Qed.

Lemma is_zero_true (q : Q) : q == 0 -> is_zero q = true.
Proof.
  intros H. pose proof range_facts. unfold is_zero. apply Qle_bool_iff.
  rewrite H. rewrite Qabs_pos; lra.
Qed.

(** From here on [to_double] and [is_zero] are used through the lemmas
    above only. *)
Local Opaque to_double is_zero.

Lemma le_or_NaN_top (a : number) : le_or_NaN a (Inf false).
Proof. destruct a as [x | [|] |]; exact I. Qed.

Lemma le_or_NaN_bot (b : number) : le_or_NaN (Inf true) b.
Proof. destruct b as [x | [|] |]; exact I. Qed.

Lemma le_or_NaN_NaN_r (a : number) : le_or_NaN a NaN.
Proof. destruct a as [x | [|] |]; exact I. Qed.

Lemma le_or_NaN_Fin (x y : Q) : x <= y -> le_or_NaN (Fin x) (Fin y).
Proof. intros H. exact H. Qed.

Lemma to_double_mono (x y : Q) : x <= y -> le_or_NaN (to_double x) (to_double y).
Proof.
  intros H. pose proof range_facts. unfold finite_double.
  destruct (to_double_cases x) as [[Hx ->] | [[Hx ->] | [Hx ->]]];
  destruct (to_double_cases y) as [[Hy ->] | [[Hy ->] | [Hy ->]]];
  unfold finite_double in *; num_simpl; try exact I; lra.
Qed.

(** What [le_or_NaN] says of the comparison of the source: the larger
    number is never less than the smaller one. *)
Lemma le_or_NaN_not_less (a b : number) : le_or_NaN a b -> Num_ltb b a = false.
Proof.
  destruct a as [x | [|] |], b as [y | [|] |]; num_simpl; intros H;
    try reflexivity; try contradiction.
  now apply ltb_ge.
Qed.

Lemma Num_ltb_false_Fin (x y : Q) : Num_ltb (Fin y) (Fin x) = false <-> x <= y.
Proof.
  num_simpl. unfold JS.ltb. rewrite negb_false_iff. apply Qle_bool_iff.
Qed.

Ltac le_or_NaN_done :=
  solve [ exact I | contradiction | apply le_or_NaN_top | apply le_or_NaN_bot
        | apply le_or_NaN_NaN_r ].

Lemma le_or_NaN_add (a a' b b' : number) :
  le_or_NaN a a' -> le_or_NaN b b' -> le_or_NaN (a ⊕ b) (a' ⊕ b').
Proof.
  destruct a as [x | [|] |], a' as [x' | [|] |], b as [y | [|] |], b' as [y' | [|] |];
    num_simpl; intros Ha Hb; try le_or_NaN_done.
  apply to_double_mono. lra.
Qed.

Lemma le_or_NaN_weight (a a' : number) (w : Q) :
  le_or_NaN a a' -> 0 <= w -> le_or_NaN (a ⊗ Fin w) (a' ⊗ Fin w).
Proof.
  intros H Hw. pose proof (ltb_ge w 0 Hw) as Hs.
  destruct a as [x | [|] |], a' as [x' | [|] |]; num_simpl; rewrite ?Hs;
    try destruct (is_zero w); num_simpl; try le_or_NaN_done.
  all: apply to_double_mono; now apply Qmult_le_compat_r.
Qed.

Lemma mult_le_compat_nonneg (a a' b b' : Q) :
  0 <= a <= a' -> 0 <= b <= b' -> a * b <= a' * b'.
Proof.
  intros [Ha0 Ha] [Hb0 Hb].
  apply Qle_trans with (a' * b).
  - apply Qmult_le_compat_r; assumption.
  - rewrite (Qmult_comm a' b), (Qmult_comm a' b').
    apply Qmult_le_compat_r; [assumption | lra].
Qed.

(** A product of two numbers that are not negative grows with both. *)
Lemma le_or_NaN_mul (a a' b b' : number) :
  a = NaN \/ nonneg a -> b = NaN \/ nonneg b ->
  le_or_NaN a a' -> le_or_NaN b b' -> le_or_NaN (a ⊗ b) (a' ⊗ b').
Proof.
  intros [-> | Na]; [intros; exact I |].
  intros [-> | Nb]; [intros; destruct a as [x | [|] |]; exact I |].
  destruct a as [x | [|] |], a' as [x' | [|] |], b as [y | [|] |], b' as [y' | [|] |];
    num_simpl; intros Ha Hb; try discriminate; try le_or_NaN_done.
  all: repeat match goal with
       | |- context [JS.ltb ?v 0] => rewrite (ltb_ge v 0) by lra
       end;
       repeat match goal with
       | |- context [is_zero ?v] => destruct (is_zero v)
       end;
       try le_or_NaN_done.
  apply to_double_mono. apply mult_le_compat_nonneg; split; assumption.
Qed.

Lemma clamp_number_Fin (v lo hi : Q) : clamp_number (Fin v) lo hi = Fin (clamp v lo hi).
Proof. reflexivity. Qed.

(** [clamp] passes [NaN] on, and maps every other number into the interval. *)
Lemma clamp_number_within (a : number) (lo hi : Q) :
  lo <= hi -> a <> NaN -> within lo hi (clamp_number a lo hi).
Proof.
  intros Hlh Ha. destruct a as [v | [|] |]; [| | | contradiction].
  - rewrite clamp_number_Fin. now apply clamp_bounds.
  - num_simpl. lra.
  - num_simpl. destruct (Math_max_spec lo hi) as [[_ ->] | [_ ->]]; lra.
Qed.

Lemma clamp_number_NaN_or_within (a : number) (lo hi : Q) :
  lo <= hi -> NaN_or_within lo hi (clamp_number a lo hi).
Proof.
  intros Hlh. destruct a as [v | s |].
  - right. apply clamp_number_within; [exact Hlh | discriminate].
  - right. apply clamp_number_within; [exact Hlh | discriminate].
  - left. reflexivity.
Qed.

Lemma le_or_NaN_clamp (a a' : number) (lo hi : Q) :
  lo <= hi -> le_or_NaN a a' ->
  le_or_NaN (clamp_number a lo hi) (clamp_number a' lo hi).
Proof.
  intros Hlh.
  destruct a as [x | [|] |], a' as [x' | [|] |]; intros H;
    try le_or_NaN_done; try (num_simpl; le_or_NaN_done); num_simpl.
  - exact (clamp_mono x x' lo hi Hlh H).
  - pose proof (clamp_bounds x lo hi Hlh) as Hb. unfold clamp in Hb.
    destruct (Math_max_spec lo hi) as [[? E] | [? E]]; rewrite E; lra.
  - pose proof (clamp_bounds x' lo hi Hlh) as Hb. unfold clamp in Hb. lra.
  - lra.
  - destruct (Math_max_spec lo hi) as [[? E] | [? E]]; rewrite E; lra.
  - apply Qle_refl.
Qed.

Lemma within_inv (lo hi : Q) (a : number) :
  within lo hi a -> exists q, a = Fin q /\ lo <= q <= hi.
Proof.
  destruct a as [q | s |]; num_simpl; [| contradiction | contradiction].
  intros H. exists q. split; [reflexivity | exact H].
Qed.

Lemma within_not_NaN (lo hi : Q) (a : number) : within lo hi a -> a <> NaN.
Proof. destruct a; num_simpl; [discriminate | discriminate | contradiction]. Qed.

Lemma nonneg_not_NaN (a : number) : nonneg a -> a <> NaN.
Proof. destruct a; num_simpl; [discriminate | discriminate | contradiction]. Qed.

Lemma nonneg_add (a b : number) : nonneg a -> nonneg b -> nonneg (a ⊕ b).
Proof.
  destruct a as [x | [|] |], b as [y | [|] |]; num_simpl; intros Ha Hb;
    try discriminate; try contradiction; try reflexivity.
  apply to_double_nonneg. lra.
Qed.

Lemma nonneg_mul_Fin (x y : Q) : 0 <= x -> 0 <= y -> nonneg (Fin x ⊗ Fin y).
Proof.
  intros Hx Hy. num_simpl. apply to_double_nonneg. now apply Qmult_le_0_compat.
Qed.

(** A finite product and a finite sum are the exact ones. *)
Lemma Num_mul_Fin (x y : Q) : finite_double (x * y) -> Fin x ⊗ Fin y = Fin (x * y).
Proof. intros H. num_simpl. now apply to_double_fin. Qed.

Lemma Num_add_Fin (x y : Q) : finite_double (x + y) -> Fin x ⊕ Fin y = Fin (x + y).
Proof. intros H. num_simpl. now apply to_double_fin. Qed.

(** The last step of a score: a clamped value of the unit interval times
    100. *)
Lemma times_100 (q : Q) : 0 <= q <= 1 -> Fin q ⊗ Fin 100 = Fin (q * 100).
Proof.
  intros H. pose proof range_facts. apply Num_mul_Fin. unfold finite_double. lra.
Qed.

Lemma score_of_clamped (a : number) :
  NaN_or_within 0 100 (clamp_number a 0 1 ⊗ Fin 100) /\
  (a <> NaN -> within 0 100 (clamp_number a 0 1 ⊗ Fin 100)).
Proof.
  assert (H01 : 0 <= 1) by discriminate.
  assert (Hw : forall b, within 0 1 b -> within 0 100 (b ⊗ Fin 100)).
  { intros b Hb. apply within_inv in Hb as (q & -> & Hq).
    rewrite times_100 by exact Hq. num_simpl. lra. }
  split.
  - destruct (clamp_number_NaN_or_within a 0 1 H01) as [-> | H].
    + left. reflexivity.
    + right. now apply Hw.
  - intros Ha. apply Hw. now apply clamp_number_within.
Qed.

End NumberFacts.

(** ** More on [calculateDualAxis] *)

Section ScorerFacts.
Local Open Scope Q_scope.
Local Opaque to_double is_zero.

Lemma weighted_unit (r w : Q) : 0 <= r <= 1 -> 0 <= w -> 0 <= r * w <= w.
Proof.
  intros [Hr0 Hr1] Hw. split.
  - apply Qmult_le_0_compat; assumption.
  - apply Qle_trans with (1 * w); [| lra].
    apply Qmult_le_compat_r; assumption.
Qed.

Lemma weighted_le (a a' w : Q) : a <= a' -> 0 <= w -> a * w <= a' * w.
Proof. intros Ha Hw. apply Qmult_le_compat_r; assumption. Qed.

Lemma norm_bm_range (v : Q) (b : Benchmark) : 0 <= norm_bm v b <= 1.
Proof. apply normalize_range. Qed.

Lemma norm_inv_bm_range (v : Q) (b : Benchmark) : 0 <= norm_inv_bm v b <= 1.
Proof. apply normalizeInverted_range. Qed.

Lemma norm_bm_le (v v' : Q) (b : Benchmark) :
  0 < sd b -> v <= v' -> norm_bm v b <= norm_bm v' b.
Proof. intros. now apply normalize_le. Qed.

Lemma norm_inv_bm_le (v v' : Q) (b : Benchmark) :
  0 < sd b -> v <= v' -> norm_inv_bm v' b <= norm_inv_bm v b.
Proof. intros. now apply normalizeInverted_le. Qed.

(** A sub-score times its weight, and a sum of such terms, as long as they
    stay within the finite range. *)
Lemma weighted_term (r w : Q) :
  0 <= r <= 1 -> 0 <= w -> w < OVERFLOW -> Fin r ⊗ Fin w = Fin (r * w).
Proof.
  intros Hr Hw Ho. pose proof (weighted_unit r w Hr Hw). pose proof range_facts.
  apply Num_mul_Fin. unfold finite_double. lra.
Qed.

Lemma nonneg_sum (a t : Q) :
  0 <= a -> 0 <= t -> a + t < OVERFLOW -> Fin a ⊕ Fin t = Fin (a + t).
Proof.
  intros Ha Ht Ho. pose proof range_facts.
  apply Num_add_Fin. unfold finite_double. lra.
Qed.

(** With weights that are not negative and whose sum does not overflow, the
    revision activity is finite and lies between 0 and the sum of its five
    weights. *)
Lemma revBase_of_finite (m : Metrics) (w : Weights) :
  linear_weights_nonneg w ->
  Rev.num_revisions (rev w) + Rev.num_deletions (rev w) +
  Rev.total_deletions_words (rev w) + Rev.total_insertions (rev w) +
  Rev.num_insertions (rev w) < OVERFLOW ->
  exists q, revBase_of m w = Fin q /\
    0 <= q <=
      Rev.num_revisions (rev w) + Rev.num_deletions (rev w) +
      Rev.total_deletions_words (rev w) + Rev.total_insertions (rev w) +
      Rev.num_insertions (rev w).
Proof.
  intros (_ & _ & H1 & H2 & H3 & H4 & H5) Hsum. unfold revBase_of. cbv zeta.
  pose proof (weighted_unit _ _
    (norm_inv_bm_range (num_revisions m) (BM.num_revisions BENCHMARKS)) H1).
  pose proof (weighted_unit _ _
    (norm_inv_bm_range (num_deletions m) (BM.num_revisions BENCHMARKS)) H2).
  pose proof (weighted_unit _ _
    (norm_inv_bm_range (total_deletions_words m) (BM.total_deletions_words BENCHMARKS)) H3).
  pose proof (weighted_unit _ _
    (norm_inv_bm_range (total_insertions m) (BM.total_insertions BENCHMARKS)) H4).
  pose proof (weighted_unit _ _
    (norm_inv_bm_range (num_insertions m) (BM.num_insertions BENCHMARKS)) H5).
  rewrite !weighted_term by first [apply norm_inv_bm_range | lra].
  rewrite !nonneg_sum by lra.
  eexists. split; [reflexivity | lra].
Qed.

Lemma fluencyBase_of_finite (m : Metrics) (w : Weights) (c : option Baseline) :
  0 <= Flu.rburst_length_median (flu w) -> 0 <= Flu.characters_per_minute (flu w) ->
  Flu.rburst_length_median (flu w) + Flu.characters_per_minute (flu w) < OVERFLOW ->
  exists q, fluencyBase_of m w c = Fin q /\
    0 <= q <= Flu.rburst_length_median (flu w) + Flu.characters_per_minute (flu w).
Proof.
  intros H1 H2 Hsum. unfold fluencyBase_of. cbv zeta.
  pose proof (weighted_unit _ _
    (normalize_range (rburst_length_median m) (rburst_mean (fluency_params c))
       (rburst_sd (fluency_params c))) H1).
  pose proof (weighted_unit _ _
    (normalize_range (characters_per_minute m) (cpm_mean (fluency_params c))
       (cpm_sd (fluency_params c))) H2).
  rewrite !weighted_term by first [apply normalize_range | lra].
  rewrite !nonneg_sum by lra.
  eexists. split; [reflexivity | lra].
Qed.

Lemma pbBase_of_finite (m : Metrics) (w : Weights) :
  0 <= Pb.pause_time_mean (pb w) -> 0 <= Pb.pause_within_words_count (pb w) ->
  0 <= Pb.pause_before_words (pb w) -> 0 <= Pb.pause_before_sentences (pb w) ->
  Pb.pause_time_mean (pb w) + Pb.pause_within_words_count (pb w) +
  Pb.pause_before_words (pb w) + Pb.pause_before_sentences (pb w) < OVERFLOW ->
  exists q, pbBase_of m w = Fin q /\
    0 <= q <=
      Pb.pause_time_mean (pb w) + Pb.pause_within_words_count (pb w) +
      Pb.pause_before_words (pb w) + Pb.pause_before_sentences (pb w).
Proof.
  intros H1 H2 H3 H4 Hsum. unfold pbBase_of. cbv zeta.
  pose proof (weighted_unit _ _
    (norm_inv_bm_range (pause_time_mean m) (BM.pause_time_mean BENCHMARKS)) H1).
  pose proof (weighted_unit _ _
    (norm_inv_bm_range (pause_within_words_count m)
       (BM.pause_within_words_count BENCHMARKS)) H2).
  pose proof (weighted_unit _ _
    (norm_inv_bm_range (pause_before_words m) (BM.pause_before_words BENCHMARKS)) H3).
  pose proof (weighted_unit _ _
    (norm_inv_bm_range (pause_before_sentences m) (BM.pause_before_sentences BENCHMARKS)) H4).
  rewrite !weighted_term by first [apply norm_inv_bm_range | lra].
  rewrite !nonneg_sum by lra.
  eexists. split; [reflexivity | lra].
Qed.

(** The paste contribution is [NaN] or lies between 0 and 0.40. *)
Lemma pasteScore_of_cap (m : Metrics) (w : Weights) :
  NaN_or_within 0 0.40 (pasteScore_of m w).
Proof. unfold pasteScore_of. apply clamp_number_NaN_or_within. discriminate. Qed.

(** It is finite as soon as the factor of the character count is, and the
    product of the event count is finite or that factor is not zero. *)
Lemma pasteScore_of_finite (m : Metrics) (w : Weights) :
  finite_double (paste_characters m * Paste.CHAR_SCALE (paste w)) ->
  finite_double (1 + paste_characters m * Paste.CHAR_SCALE (paste w)) ->
  finite_double (paste_events m * Paste.BASE_JUMP (paste w)) \/
  0 <= paste_characters m * Paste.CHAR_SCALE (paste w) ->
  exists p, pasteScore_of m w = Fin p /\ 0 <= p <= 0.40.
Proof.
  intros Hc Hc1 He. pose proof range_facts as (HU0 & HU & HL & HO).
  apply within_inv. unfold pasteScore_of.
  apply clamp_number_within; [discriminate |].
  rewrite (Num_mul_Fin (paste_characters m)) by exact Hc.
  rewrite (Num_add_Fin 1) by exact Hc1.
  destruct He as [He | He].
  - rewrite (Num_mul_Fin (paste_events m)) by exact He.
    num_simpl. apply to_double_not_NaN.
  - num_simpl.
    destruct (to_double_cases (paste_events m * Paste.BASE_JUMP (paste w)))
      as [[_ ->] | [[_ ->] | [_ ->]]]; num_simpl.
    + rewrite is_zero_false by lra. discriminate.
    + rewrite is_zero_false by lra. discriminate.
    + apply to_double_not_NaN.
Qed.

Lemma pasteScore_of_finite_upto (m : Metrics) (w : Weights) :
  - LARGE <= paste_characters m * Paste.CHAR_SCALE (paste w) <= LARGE ->
  - LARGE <= paste_events m * Paste.BASE_JUMP (paste w) <= LARGE \/
  0 <= paste_characters m * Paste.CHAR_SCALE (paste w) ->
  exists p, pasteScore_of m w = Fin p /\ 0 <= p <= 0.40.
Proof.
  intros Hc He. pose proof range_facts as (HU0 & HU & HL & HO).
  apply pasteScore_of_finite; unfold finite_double; [lra | lra |].
  destruct He as [He | He]; [left; lra | right; exact He].
Qed.

(** The paste contribution grows with the event count and with the
    character count. *)
Lemma pasteScore_of_mono (m m' : Metrics) (w : Weights) :
  0 <= Paste.BASE_JUMP (paste w) -> 0 <= Paste.CHAR_SCALE (paste w) ->
  0 <= paste_events m <= paste_events m' ->
  0 <= paste_characters m <= paste_characters m' ->
  le_or_NaN (pasteScore_of m w) (pasteScore_of m' w).
Proof.
  intros Hj Hs [He0 He] [Hc0 Hc]. unfold pasteScore_of.
  apply le_or_NaN_clamp; [discriminate |].
  apply le_or_NaN_mul.
  - right. now apply nonneg_mul_Fin.
  - right. apply nonneg_add; [num_simpl; lra | now apply nonneg_mul_Fin].
  - apply le_or_NaN_weight; [now apply le_or_NaN_Fin | exact Hj].
  - apply le_or_NaN_add; [apply le_or_NaN_Fin; lra |].
    apply le_or_NaN_weight; [now apply le_or_NaN_Fin | exact Hs].
Qed.

(** With weights that keep the scorer within the finite range, neither
    weighted sum under the two final clamps is [NaN]. *)
Lemma linearity_of_not_NaN (m : Metrics) (w : Weights) :
  linear_weights_nonneg w -> sub_weights_upto LARGE w -> linearity_of m w <> NaN.
Proof.
  intros Hnn Hup. pose proof range_facts as (_ & _ & HL & HO).
  destruct (revBase_of_finite m w Hnn) as (q & Hq & Hq0 & _).
  { destruct Hup as (U1 & U2 & U3 & U4 & U5 & _). lra. }
  destruct Hnn as (Hp & Ha & _).
  apply nonneg_not_NaN. unfold linearity_of. rewrite Hq.
  apply nonneg_add; apply nonneg_mul_Fin; try assumption.
  apply norm_bm_range.
Qed.

Lemma spontaneity_sum_not_NaN (m : Metrics) (w : Weights) (c : option Baseline) :
  spontaneity_weights_nonneg w -> sub_weights_upto LARGE w ->
  (exists p, pasteScore_of m w = Fin p /\ 0 <= p <= 0.40) ->
  spontaneityBase_of m w c ⊕
    pasteScore_of m w ⊗ Fin (Groups.unconstrainedAction (groups w)) <> NaN.
Proof.
  intros (Wf & Wp & Wu & Wf1 & Wf2 & Wp1 & Wp2 & Wp3 & Wp4 & Wj & Ws)
    (_ & _ & _ & _ & _ & U1 & U2 & U3 & U4 & U5 & U6) (p & Hp & Hp0 & _).
  pose proof range_facts as (_ & _ & HL & HO).
  destruct (fluencyBase_of_finite m w c Wf1 Wf2) as (f & Hf & Hf0 & _); [lra |].
  destruct (pbBase_of_finite m w Wp1 Wp2 Wp3 Wp4) as (b & Hb & Hb0 & _); [lra |].
  apply nonneg_not_NaN. unfold spontaneityBase_of. rewrite Hf, Hb, Hp.
  repeat apply nonneg_add; apply nonneg_mul_Fin; assumption.
Qed.

(** Both scores lie in [0, 100] when the weights are not negative, no
    weighted sum overflows and the paste contribution is finite. *)
Lemma dual_axis_within (m : Metrics) (w : Weights) (c : option Baseline) :
  weights_nonneg w -> sub_weights_upto LARGE w ->
  (exists p, pasteScore_of m w = Fin p /\ 0 <= p <= 0.40) ->
  within 0 100 (linearityScore (dual_axis m w c)) /\
  within 0 100 (spontaneityScore (dual_axis m w c)).
Proof.
  intros [Hl Hs] Hup Hpaste.
  cbn [linearityScore spontaneityScore dual_axis]. unfold spontaneity_of. split.
  - apply score_of_clamped. now apply linearity_of_not_NaN.
  - apply score_of_clamped. now apply spontaneity_sum_not_NaN.
Qed.

(** Each score is [NaN] or lies in [0, 100], and lies in [0, 100] when
    nothing overflows. *)
Lemma dual_axis_bounds (m : Metrics) (w : Weights) (c : option Baseline) :
  NaN_or_within 0 100 (linearityScore (dual_axis m w c)) /\
  NaN_or_within 0 100 (spontaneityScore (dual_axis m w c)) /\
  (no_overflow m w ->
   within 0 100 (linearityScore (dual_axis m w c)) /\
   within 0 100 (spontaneityScore (dual_axis m w c))).
Proof.
  split; [| split].
  - cbn [linearityScore dual_axis]. apply score_of_clamped.
  - cbn [spontaneityScore dual_axis]. unfold spontaneity_of. apply score_of_clamped.
  - intros (Hnn & Hup & [He Hc]). apply dual_axis_within; [exact Hnn | exact Hup |].
    apply pasteScore_of_finite_upto; [exact Hc | left; exact He].
Qed.

(** C1. For every extracted-metrics record and every weight configuration,
    with or without a calibration baseline, each of the two scores the
    Dual-Axis Scorer returns lies in the closed interval [0, 100] or is
    [NaN].  Both lie in [0, 100] when the weights are non-negative, none of
    the eleven weights of the weighted sums exceeds [10^300], and neither
    product of the paste contribution (paste events by [BASE_JUMP], pasted
    characters by [CHAR_SCALE]) exceeds [10^300] in magnitude, so that no
    sum and no factor of the paste contribution overflows. *)
Theorem dual_axis_scores_bounded
    (metrics : Metrics) (weights : Weights) (calibrationData : option Baseline) :
  exists score,
    calculateDualAxis (Some metrics) weights calibrationData = Some score /\
    NaN_or_within 0 100 (linearityScore score) /\
    NaN_or_within 0 100 (spontaneityScore score) /\
    (no_overflow metrics weights ->
     within 0 100 (linearityScore score) /\ within 0 100 (spontaneityScore score)).
Proof.
  eexists. split; [reflexivity |]. apply dual_axis_bounds.
Qed.

Lemma dual_axis_scores_bounded_witness :
  exists score,
    calculateDualAxis (Some sample_metrics) DEFAULT_WEIGHTS None = Some score /\
    within 0 100 (linearityScore score) /\ within 0 100 (spontaneityScore score).
Proof.
  destruct (dual_axis_scores_bounded sample_metrics DEFAULT_WEIGHTS None)
    as (score & Hscore & _ & _ & Hin).
  exists score. split; [exact Hscore |]. apply Hin.
  unfold no_overflow, weights_nonneg, linear_weights_nonneg, spontaneity_weights_nonneg,
    sub_weights_upto, paste_products_upto.
  repeat split; vm_compute; discriminate.
Defined.

(** C1, as the specification words it, fails on finite, non-negative
    inputs: with the default weights but a [CHAR_SCALE] of [10^308], no paste
    event and [10^308] pasted characters, the factor of the character count
    overflows to [Infinity], the paste contribution is [0 * Infinity], which
    is [NaN], and so is the spontaneity score. *)
Lemma spontaneity_NaN_on_overflow :
  weights_nonneg overflow_weights /\
  finite_double (Paste.CHAR_SCALE (paste overflow_weights)) /\
  finite_double (paste_characters overflow_metrics) /\
  0 <= paste_characters overflow_metrics /\
  paste_events overflow_metrics == 0 /\
  exists score,
    calculateDualAxis (Some overflow_metrics) overflow_weights None = Some score /\
    pasteScore (components score) = NaN /\
    spontaneityScore score = NaN /\
    ~ within 0 100 (spontaneityScore score).
Proof.
  split.
  { unfold weights_nonneg, linear_weights_nonneg, spontaneity_weights_nonneg.
    repeat split; vm_compute; discriminate. }
  split; [split; vm_compute; reflexivity |].
  split; [split; vm_compute; reflexivity |].
  split; [vm_compute; discriminate |]. split; [reflexivity |].
  eexists. split; [reflexivity |].
  split; [vm_compute; reflexivity |].
  split; [vm_compute; reflexivity |].
  vm_compute. tauto.
Qed.

(** C6. With the paste character count, the weights (non-negative
    [BASE_JUMP] and [CHAR_SCALE]), the baseline and every other metric held
    fixed, the [pasteScore] component the scorer returns is never less after
    the paste event count has grown than before, and it never exceeds 0.40
    (40 on the 0.40 x 100 scale).  The component is finite as soon as the
    character count times [CHAR_SCALE] does not overflow, and then it grows
    with the event count in the order of the finite numbers. *)
Theorem pasteScore_monotone_capped
    (m : Metrics) (w : Weights) (c : option Baseline) (events1 events2 chars : nat) :
  0 <= Paste.BASE_JUMP (paste w) ->
  0 <= Paste.CHAR_SCALE (paste w) ->
  (events1 ≤ events2)%nat ->
  exists s1 s2,
    calculateDualAxis (Some (with_paste m (JS.num events1) (JS.num chars))) w c = Some s1 /\
    calculateDualAxis (Some (with_paste m (JS.num events2) (JS.num chars))) w c = Some s2 /\
    Num_ltb (pasteScore (components s2)) (pasteScore (components s1)) = false /\
    Num_ltb (Fin 0.40) (pasteScore (components s2)) = false /\
    Num_ltb (Fin 40) (pasteScore (components s2) ⊗ Fin 100) = false /\
    (forall p1 p2,
       pasteScore (components s1) = Fin p1 -> pasteScore (components s2) = Fin p2 ->
       p1 <= p2 /\ p2 <= 0.40 /\ p2 * 100 <= 40) /\
    (JS.num chars * Paste.CHAR_SCALE (paste w) <= LARGE ->
     exists p1 p2,
       pasteScore (components s1) = Fin p1 /\ pasteScore (components s2) = Fin p2 /\
       p1 <= p2 /\ p2 <= 0.40 /\ p2 * 100 <= 40).
Proof.
  intros Hj Hs He. do 2 eexists.
  split; [reflexivity |]. split; [reflexivity |].
  cbn [pasteScore components dual_axis].
  set (m1 := with_paste m (JS.num events1) (JS.num chars)).
  set (m2 := with_paste m (JS.num events2) (JS.num chars)).
  pose proof range_facts as (_ & _ & HL & HO).
  assert (Hmono : le_or_NaN (pasteScore_of m1 w) (pasteScore_of m2 w)).
  { apply pasteScore_of_mono; try assumption; simpl.
    - split; [apply num_nonneg | now apply num_le].
    - split; [apply num_nonneg | lra]. }
  assert (Hcap : forall p, pasteScore_of m2 w = Fin p -> p <= 0.40).
  { intros p Hp. destruct (pasteScore_of_cap m2 w) as [H | H]; rewrite Hp in H;
      [discriminate | num_simpl; lra]. }
  assert (Hfinite : forall p1 p2,
            pasteScore_of m1 w = Fin p1 -> pasteScore_of m2 w = Fin p2 ->
            p1 <= p2 /\ p2 <= 0.40 /\ p2 * 100 <= 40).
  { intros p1 p2 H1 H2. pose proof (Hcap p2 H2).
    rewrite H1, H2 in Hmono. num_simpl. lra. }
  split; [now apply le_or_NaN_not_less |].
  split; [| split; [| split; [exact Hfinite |]]].
  - destruct (pasteScore_of_cap m2 w) as [-> | H]; [reflexivity |].
    apply within_inv in H as (p & -> & Hp). num_simpl. apply ltb_ge. lra.
  - destruct (pasteScore_of_cap m2 w) as [-> | H]; [reflexivity |].
    apply within_inv in H as (p & -> & Hp).
    rewrite Num_mul_Fin by (unfold finite_double; lra).
    apply Num_ltb_false_Fin. lra.
  - intros Hc.
    assert (Hc0 : 0 <= JS.num chars * Paste.CHAR_SCALE (paste w)).
    { apply Qmult_le_0_compat; [apply num_nonneg | exact Hs]. }
    destruct (pasteScore_of_finite_upto m1 w) as (p1 & H1 & _);
      [simpl; lra | right; exact Hc0 |].
    destruct (pasteScore_of_finite_upto m2 w) as (p2 & H2 & _);
      [simpl; lra | right; exact Hc0 |].
    exists p1, p2. split; [exact H1 |]. split; [exact H2 |]. now apply Hfinite.
Qed.

Lemma pasteScore_monotone_capped_witness :
  exists s1 s2 p1 p2,
    calculateDualAxis (Some (with_paste sample_metrics (JS.num 1) (JS.num 40)))
      DEFAULT_WEIGHTS None = Some s1 /\
    calculateDualAxis (Some (with_paste sample_metrics (JS.num 2) (JS.num 40)))
      DEFAULT_WEIGHTS None = Some s2 /\
    pasteScore (components s1) = Fin p1 /\ pasteScore (components s2) = Fin p2 /\
    p1 <= p2 /\ p2 <= 0.40 /\ p2 * 100 <= 40.
Proof.
  destruct (pasteScore_monotone_capped sample_metrics DEFAULT_WEIGHTS None 1 2 40)
    as (s1 & s2 & H1 & H2 & _ & _ & _ & _ & Hfin).
  - discriminate.
  - discriminate.
  - lia.
  - destruct Hfin as (p1 & p2 & Hp); [vm_compute; discriminate |].
    exists s1, s2, p1, p2. split; [exact H1 |]. split; [exact H2 |]. exact Hp.
Defined.

(** X18. With linearity weights that are not negative and add up to at most
    1 in each group (as the default weights do), the path shape, the
    revision activity and the linearity score are finite, the revision
    activity lies in the unit interval and the weighted sum of the linearity
    axis needs no clamping: the linearity score is 100 times the path shape
    times its weight plus the revision activity times its weight. *)
Theorem linearity_not_clamped (m : Metrics) (w : Weights) (c : option Baseline) :
  linear_weights_normalised w ->
  exists s p r l, calculateDualAxis (Some m) w c = Some s /\
    pathShape (components s) = Fin p /\
    revBase (components s) = Fin r /\
    linearityScore s = Fin l /\
    0 <= p <= 1 /\
    0 <= r <= 1 /\
    l == (p * Groups.pathShape (groups w) + r * Groups.revisionActivity (groups w)) * 100.
Proof.
  intros (Hnn & Hg & Hr). pose proof range_facts as (_ & _ & HL & HO).
  destruct (revBase_of_finite m w Hnn) as (r & Hrb & HR); [lra |].
  destruct Hnn as (Hp & Ha & _).
  pose proof (norm_bm_range (product_process_ratio m)
                (BM.product_process_ratio BENCHMARKS)) as HP.
  fold (pathShape_of m) in HP.
  assert (HR1 : 0 <= r <= 1) by lra.
  pose proof (weighted_unit _ _ HP Hp).
  pose proof (weighted_unit _ _ HR1 Ha).
  assert (H01 : 0 <= 1) by lra.
  eexists. exists (pathShape_of m), r. eexists.
  split; [reflexivity |]. cbn [pathShape revBase linearityScore components dual_axis].
  split; [reflexivity |]. split; [exact Hrb |].
  split.
  { unfold linearity_of. rewrite Hrb.
    rewrite !weighted_term by lra. rewrite nonneg_sum by lra.
    rewrite clamp_number_Fin. rewrite times_100 by (apply clamp_bounds; exact H01).
    reflexivity. }
  split; [exact HP |]. split; [exact HR1 |].
  destruct (clamp_cases
              (pathShape_of m * Groups.pathShape (groups w) +
               r * Groups.revisionActivity (groups w)) 0 1 H01)
    as [[Hc _] | [[Hc _] | [_ ->]]]; [lra | lra | reflexivity].
Qed.

Lemma linearity_not_clamped_witness :
  exists s p r l, calculateDualAxis (Some sample_metrics) DEFAULT_WEIGHTS None = Some s /\
    pathShape (components s) = Fin p /\
    revBase (components s) = Fin r /\
    linearityScore s = Fin l /\
    0 <= r <= 1 /\
    l == (p * 0.60 + r * 0.40) * 100.
Proof.
  destruct (linearity_not_clamped sample_metrics DEFAULT_WEIGHTS None)
    as (s & p & r & l & Hs & Hp & Hr & Hl & _ & Hr1 & Hv).
  - unfold linear_weights_normalised, linear_weights_nonneg. simpl.
    repeat split; discriminate.
  - exists s, p, r, l. split; [exact Hs |]. split; [exact Hp |]. split; [exact Hr |].
    split; [exact Hl |]. split; [exact Hr1 | exact Hv].
Defined.

(** The spreads of the benchmark table the linearity axis divides by. *)
Lemma linear_benchmarks_positive :
  0 < sd (BM.product_process_ratio BENCHMARKS) /\
  0 < sd (BM.num_revisions BENCHMARKS) /\
  0 < sd (BM.total_deletions_words BENCHMARKS) /\
  0 < sd (BM.total_insertions BENCHMARKS) /\
  0 < sd (BM.num_insertions BENCHMARKS).
Proof. repeat split. Qed.

(** X19. With linearity weights that are not negative, the linearity score
    never decreases when the product/process ratio grows and none of the
    five revision metrics grows: more revision never raises it.  The score
    after is never less than the score before; when both are finite, the
    score before is at most the score after; and both are finite when none of
    the weights of the weighted sums exceeds [10^300]. *)
Theorem linearity_monotone (m m' : Metrics) (w : Weights) (c c' : option Baseline) :
  linear_weights_nonneg w ->
  product_process_ratio m <= product_process_ratio m' ->
  num_revisions m' <= num_revisions m ->
  num_deletions m' <= num_deletions m ->
  total_deletions_words m' <= total_deletions_words m ->
  total_insertions m' <= total_insertions m ->
  num_insertions m' <= num_insertions m ->
  exists s s',
    calculateDualAxis (Some m) w c = Some s /\
    calculateDualAxis (Some m') w c' = Some s' /\
    Num_ltb (linearityScore s') (linearityScore s) = false /\
    (forall l l', linearityScore s = Fin l -> linearityScore s' = Fin l' -> l <= l') /\
    (sub_weights_upto LARGE w ->
     exists l l', linearityScore s = Fin l /\ linearityScore s' = Fin l' /\ l <= l').
Proof.
  intros Hnn Hppr Hr1 Hr2 Hr3 Hr4 Hr5.
  pose proof Hnn as (Hp & Ha & H1 & H2 & H3 & H4 & H5).
  do 2 eexists. split; [reflexivity |]. split; [reflexivity |].
  cbn [linearityScore dual_axis].
  destruct linear_benchmarks_positive as (B0 & B1 & B2 & B3 & B4).
  assert (Hmono : le_or_NaN (clamp_number (linearity_of m w) 0 1 ⊗ Fin 100)
                            (clamp_number (linearity_of m' w) 0 1 ⊗ Fin 100)).
  { apply le_or_NaN_weight; [| discriminate].
    apply le_or_NaN_clamp; [discriminate |].
    unfold linearity_of. apply le_or_NaN_add.
    - apply le_or_NaN_weight; [| exact Hp].
      apply le_or_NaN_Fin. now apply norm_bm_le.
    - apply le_or_NaN_weight; [| exact Ha].
      unfold revBase_of. cbv zeta.
      apply le_or_NaN_add; [apply le_or_NaN_add; [apply le_or_NaN_add;
        [apply le_or_NaN_add |] |] |];
        (apply le_or_NaN_weight;
         [apply le_or_NaN_Fin; apply norm_inv_bm_le; assumption | assumption]). }
  split; [now apply le_or_NaN_not_less |].
  split; [intros l l' El El'; rewrite El, El' in Hmono; exact Hmono |].
  intros Hup.
  destruct (within_inv _ _ _ (proj2 (score_of_clamped (linearity_of m w))
              (linearity_of_not_NaN m w Hnn Hup))) as (l & El & _).
  destruct (within_inv _ _ _ (proj2 (score_of_clamped (linearity_of m' w))
              (linearity_of_not_NaN m' w Hnn Hup))) as (l' & El' & _).
  exists l, l'. split; [exact El |]. split; [exact El' |].
  rewrite El, El' in Hmono. exact Hmono.
Qed.

Lemma linearity_monotone_witness :
  exists s s',
    calculateDualAxis (Some sample_metrics) DEFAULT_WEIGHTS None = Some s /\
    calculateDualAxis (Some sample_metrics_fluent) DEFAULT_WEIGHTS None = Some s' /\
    Num_ltb (linearityScore s') (linearityScore s) = false /\
    exists l l', linearityScore s = Fin l /\ linearityScore s' = Fin l' /\ l <= l'.
Proof.
  destruct (linearity_monotone sample_metrics sample_metrics_fluent DEFAULT_WEIGHTS
              None None) as (s & s' & Hs & Hs' & Hlt & _ & Hfin).
  - unfold linear_weights_nonneg. simpl. repeat split; discriminate.
  - discriminate.
  - discriminate.
  - discriminate.
  - discriminate.
  - discriminate.
  - discriminate.
  - exists s, s'. split; [exact Hs |]. split; [exact Hs' |]. split; [exact Hlt |].
    apply Hfin. unfold sub_weights_upto. repeat split; vm_compute; discriminate.
Defined.

Lemma or_epsilon_pos (x : Q) : 0 <= x -> 0 < or_epsilon x.
Proof.
  intros Hx. unfold or_epsilon. destruct (JS.eqb x 0) eqn:E; [reflexivity |].
  assert (~ x == 0) by (intros H; apply eqb_eq in H; congruence).
  destruct (Qlt_le_dec 0 x) as [H0 | H0]; [exact H0 |].
  exfalso. apply H. lra.
Qed.

(** The two spreads the fluency metrics are divided by are positive: the
    benchmark's, or the baseline's after the fallback for a zero spread. *)
Lemma fluency_params_positive (c : option Baseline) :
  (forall b, c = Some b -> 0 <= cpm_sd b /\ 0 <= rburst_sd b) ->
  0 < cpm_sd (fluency_params c) /\ 0 < rburst_sd (fluency_params c).
Proof.
  intros H. destruct c as [b |]; simpl.
  - destruct (H b eq_refl) as [H1 H2]. split; now apply or_epsilon_pos.
  - split; reflexivity.
Qed.

Lemma pause_benchmarks_positive :
  0 < sd (BM.pause_time_mean BENCHMARKS) /\
  0 < sd (BM.pause_within_words_count BENCHMARKS) /\
  0 < sd (BM.pause_before_words BENCHMARKS) /\
  0 < sd (BM.pause_before_sentences BENCHMARKS).
Proof. repeat split. Qed.

(** X20. With spontaneity weights that are not negative (and, when a
    baseline is supplied, spreads of the baseline that are not negative),
    the spontaneity score never decreases when the burst-length median, the
    typing rate, the paste event count and the paste character count grow
    and none of the four pause metrics grows.  The score after is never
    less than the score before; when both are finite, the score before is at
    most the score after; and both are finite when none of the weights of
    the weighted sums and neither product of the paste contribution exceeds
    [10^300]. *)
Theorem spontaneity_monotone (m m' : Metrics) (w : Weights) (c : option Baseline) :
  spontaneity_weights_nonneg w ->
  (forall b, c = Some b -> 0 <= cpm_sd b /\ 0 <= rburst_sd b) ->
  rburst_length_median m <= rburst_length_median m' ->
  characters_per_minute m <= characters_per_minute m' ->
  pause_time_mean m' <= pause_time_mean m ->
  pause_within_words_count m' <= pause_within_words_count m ->
  pause_before_words m' <= pause_before_words m ->
  pause_before_sentences m' <= pause_before_sentences m ->
  0 <= paste_events m <= paste_events m' ->
  0 <= paste_characters m <= paste_characters m' ->
  exists s s',
    calculateDualAxis (Some m) w c = Some s /\
    calculateDualAxis (Some m') w c = Some s' /\
    Num_ltb (spontaneityScore s') (spontaneityScore s) = false /\
    (forall v v', spontaneityScore s = Fin v -> spontaneityScore s' = Fin v' -> v <= v') /\
    (sub_weights_upto LARGE w ->
     paste_products_upto LARGE m w -> paste_products_upto LARGE m' w ->
     exists v v', spontaneityScore s = Fin v /\ spontaneityScore s' = Fin v' /\ v <= v').
Proof.
  intros Hnn Hc Hb Hr Hp1 Hp2 Hp3 Hp4 He Hch.
  pose proof Hnn as (Wf & Wp & Wu & Wf1 & Wf2 & Wp1 & Wp2 & Wp3 & Wp4 & Wj & Ws).
  do 2 eexists. split; [reflexivity |]. split; [reflexivity |].
  cbn [spontaneityScore dual_axis].
  destruct (fluency_params_positive c Hc) as [Sc Sb].
  destruct pause_benchmarks_positive as (B1 & B2 & B3 & B4).
  assert (Hmono : le_or_NaN (spontaneity_of m w c ⊗ Fin 100)
                            (spontaneity_of m' w c ⊗ Fin 100)).
  { apply le_or_NaN_weight; [| discriminate].
    unfold spontaneity_of. apply le_or_NaN_clamp; [discriminate |].
    apply le_or_NaN_add.
    - unfold spontaneityBase_of. apply le_or_NaN_add.
      + apply le_or_NaN_weight; [| exact Wf].
        unfold fluencyBase_of. cbv zeta.
        apply le_or_NaN_add;
          (apply le_or_NaN_weight;
           [apply le_or_NaN_Fin; apply normalize_le; assumption | assumption]).
      + apply le_or_NaN_weight; [| exact Wp].
        unfold pbBase_of. cbv zeta.
        apply le_or_NaN_add; [apply le_or_NaN_add; [apply le_or_NaN_add |] |];
          (apply le_or_NaN_weight;
           [apply le_or_NaN_Fin; apply norm_inv_bm_le; assumption | assumption]).
    - apply le_or_NaN_weight; [| exact Wu]. now apply pasteScore_of_mono. }
  split; [now apply le_or_NaN_not_less |].
  split; [intros v v' Ev Ev'; rewrite Ev, Ev' in Hmono; exact Hmono |].
  intros Hup Hpaste Hpaste'. unfold spontaneity_of in Hmono |- *.
  destruct Hpaste as [Pe Pc]. destruct Hpaste' as [Pe' Pc'].
  destruct (within_inv _ _ _ (proj2 (score_of_clamped _)
              (spontaneity_sum_not_NaN m w c Hnn Hup
                 (pasteScore_of_finite_upto m w Pc (or_introl Pe))))) as (v & Ev & _).
  destruct (within_inv _ _ _ (proj2 (score_of_clamped _)
              (spontaneity_sum_not_NaN m' w c Hnn Hup
                 (pasteScore_of_finite_upto m' w Pc' (or_introl Pe'))))) as (v' & Ev' & _).
  exists v, v'. split; [exact Ev |]. split; [exact Ev' |].
  rewrite Ev, Ev' in Hmono. exact Hmono.
Qed.

Lemma spontaneity_monotone_witness :
  exists s s',
    calculateDualAxis (Some sample_metrics) DEFAULT_WEIGHTS None = Some s /\
    calculateDualAxis (Some sample_metrics_fluent) DEFAULT_WEIGHTS None = Some s' /\
    Num_ltb (spontaneityScore s') (spontaneityScore s) = false /\
    exists v v', spontaneityScore s = Fin v /\ spontaneityScore s' = Fin v' /\ v <= v'.
Proof.
  destruct (spontaneity_monotone sample_metrics sample_metrics_fluent DEFAULT_WEIGHTS None)
    as (s & s' & Hs & Hs' & Hlt & _ & Hfin).
  - unfold spontaneity_weights_nonneg. simpl. repeat split; discriminate.
  - intros b [=].
  - discriminate.
  - discriminate.
  - discriminate.
  - discriminate.
  - discriminate.
  - discriminate.
  - split; discriminate.
  - split; discriminate.
  - exists s, s'. split; [exact Hs |]. split; [exact Hs' |]. split; [exact Hlt |].
    apply Hfin; unfold sub_weights_upto, paste_products_upto;
      repeat split; vm_compute; discriminate.
Defined.




End ScorerFacts.

(** ** The dashboard, the sliders and the report *)

Section CallerFacts.
Local Open Scope Q_scope.






(** X23. On a log of at least 2 events the dashboard reports "Calibration
    complete." exactly when the mode is calibrated and [getCalibrationData]
    returns a baseline, which is then the one the score is computed with.
    In every other case (standard mode, or calibrated mode while warming up)
    the score is the one of standard mode, computed against the benchmark
    table.  The metrics and the linearity score are the same in all modes:
    calibration only moves the spontaneity axis. *)
Theorem dashboard_modes (k : Keylog) (weights : Weights) (scoringMode : string) :
  (2 ≤ length (EventID k))%nat ->
  exists d d0,
    dashboard_memo (Some k) weights scoringMode = Some d /\
    dashboard_memo (Some k) weights "standard" = Some d0 /\
    Dashboard.dualAxis d0 = calculateDualAxis (extractMetrics k) weights None /\
    Dashboard.metrics d = Dashboard.metrics d0 /\
    (linearityScore <$> Dashboard.dualAxis d) = (linearityScore <$> Dashboard.dualAxis d0) /\
    (Dashboard.calibStatus d = "Calibration complete."%string <->
     scoringMode = "calibrated"%string /\ is_Some (getCalibrationData k)) /\
    (Dashboard.calibStatus d = "Calibration complete."%string ->
     Dashboard.dualAxis d =
     calculateDualAxis (extractMetrics k) weights (getCalibrationData k)) /\
    (Dashboard.calibStatus d <> "Calibration complete."%string ->
     Dashboard.dualAxis d = Dashboard.dualAxis d0).
Proof.
  intros Hn. unfold dashboard_memo.
  assert (En : (length (EventID k) <? 2)%nat = false) by (apply Nat.ltb_ge; exact Hn).
  rewrite En. destruct (extractMetrics_returns k Hn) as (m & Hm & _). rewrite Hm.
  replace ("standard" =? "calibrated")%string with false by reflexivity.
  destruct (String.eqb scoringMode "calibrated") eqn:Emode.
  - apply String.eqb_eq in Emode.
    destruct (getCalibrationData k) as [b |];
      (do 2 eexists; split; [reflexivity |]; split; [reflexivity |]; simpl;
       repeat split; try reflexivity; try discriminate; eauto;
       try (intros [_ [b0 Hb]]; discriminate); try (intros H; contradiction)).
  - apply String.eqb_neq in Emode.
    do 2 eexists. split; [reflexivity |]. split; [reflexivity |]. simpl.
    repeat split; try reflexivity; try discriminate;
      try (intros [H _]; contradiction).
Qed.

Lemma dashboard_modes_witness :
  exists d d0,
    dashboard_memo (Some log_two_minutes) DEFAULT_WEIGHTS "calibrated" = Some d /\
    dashboard_memo (Some log_two_minutes) DEFAULT_WEIGHTS "standard" = Some d0 /\
    Dashboard.calibStatus d = "Calibration complete."%string /\
    (linearityScore <$> Dashboard.dualAxis d) = (linearityScore <$> Dashboard.dualAxis d0).
Proof.
  destruct (dashboard_modes log_two_minutes DEFAULT_WEIGHTS "calibrated")
    as (d & d0 & Hd & Hd0 & _ & _ & Hlin & Hst & _).
  - simpl. lia.
  - exists d, d0. split; [exact Hd |]. split; [exact Hd0 |]. split; [| exact Hlin].
    apply Hst. split; [reflexivity |]. eexists. vm_compute. reflexivity.
Defined.

(** X24. The JSON report never fails on a log: its metrics are what
    [extractMetrics] returns and its analysis is missing exactly when the
    log has fewer than 2 events.  From 2 events on, the analysis and the
    metrics are those the dashboard shows in standard mode with the default
    weights; the report follows neither the calibrated mode nor the
    sliders. *)
Theorem report_matches_standard_dashboard (k : Keylog) :
  exists r, reportData (Some k) = Some r /\
    finalText r = FinalProduct k /\
    report_metrics r = extractMetrics k /\
    (analysis r = None <-> (length (EventID k) < 2)%nat) /\
    ((2 ≤ length (EventID k))%nat ->
     exists d, dashboard_memo (Some k) DEFAULT_WEIGHTS "standard" = Some d /\
       analysis r = Dashboard.dualAxis d /\
       report_metrics r = Dashboard.metrics d).
Proof.
  eexists. split; [reflexivity |]. simpl.
  split; [reflexivity |]. split; [reflexivity |]. split.
  - destruct (Nat.lt_ge_cases (length (EventID k)) 2) as [H | H].
    + rewrite (extractMetrics_few_events k H). simpl. tauto.
    + destruct (extractMetrics_returns k H) as (m & -> & _). simpl.
      split; [discriminate | lia].
  - intros H. unfold dashboard_memo.
    assert (En : (length (EventID k) <? 2)%nat = false) by (apply Nat.ltb_ge; exact H).
    rewrite En. replace ("standard" =? "calibrated")%string with false by reflexivity.
    eexists. split; [reflexivity |]. split; reflexivity.
Qed.

Lemma report_matches_standard_dashboard_witness :
  exists r d,
    reportData (Some log_mixed) = Some r /\
    dashboard_memo (Some log_mixed) DEFAULT_WEIGHTS "standard" = Some d /\
    analysis r = Dashboard.dualAxis d.
Proof.
  destruct (report_matches_standard_dashboard log_mixed) as (r & Hr & _ & _ & _ & H).
  destruct H as (d & Hd & Ha & _); [simpl; lia |].
  exists r, d. split; [exact Hr |]. split; [exact Hd | exact Ha].
Defined.

(** The weights each axis reads. *)
Lemma linearity_reads (m : Metrics) (w' w : Weights) (c : option Baseline) :
  rev w' = rev w ->
  Groups.pathShape (groups w') = Groups.pathShape (groups w) ->
  Groups.revisionActivity (groups w') = Groups.revisionActivity (groups w) ->
  linearityScore (dual_axis m w' c) = linearityScore (dual_axis m w c).
Proof.
  intros Hr Hp Ha. cbn [linearityScore dual_axis].
  unfold linearity_of, revBase_of. cbv zeta. now rewrite Hr, Hp, Ha.
Qed.

Lemma spontaneity_reads (m : Metrics) (w' w : Weights) (c : option Baseline) :
  flu w' = flu w -> pb w' = pb w -> paste w' = paste w ->
  Groups.fluency (groups w') = Groups.fluency (groups w) ->
  Groups.pauseBehavior (groups w') = Groups.pauseBehavior (groups w) ->
  Groups.unconstrainedAction (groups w') = Groups.unconstrainedAction (groups w) ->
  spontaneityScore (dual_axis m w' c) = spontaneityScore (dual_axis m w c).
Proof.
  intros Hf Hb Hp Gf Gp Gu. cbn [spontaneityScore dual_axis].
  unfold spontaneity_of, spontaneityBase_of, fluencyBase_of, pbBase_of, pasteScore_of.
  cbv zeta. now rewrite Hf, Hb, Hp, Gf, Gp, Gu.
Qed.

(** X25. The five sliders of the dashboard each move one axis only.  A new
    weight for the path shape or the revision activity leaves the
    spontaneity score as it was; a new weight for the fluency, the pause
    behaviour or the paste event ([BASE_JUMP]) leaves the linearity score as
    it was.  The group handler is the sub-weight handler at the category
    [groups], and the weight a slider sets is the weight the scorer reads. *)
Theorem sliders_move_one_axis (m : Metrics) (w : Weights) (c : option Baseline) (v : Q) :
  (forall group, group = "pathShape"%string \/ group = "revisionActivity"%string ->
     spontaneityScore (dual_axis m (handleGroupWeightChange group v w) c) =
     spontaneityScore (dual_axis m w c)) /\
  (forall group, group = "fluency"%string \/ group = "pauseBehavior"%string ->
     linearityScore (dual_axis m (handleGroupWeightChange group v w) c) =
     linearityScore (dual_axis m w c)) /\
  linearityScore (dual_axis m (handleSubWeightChange "paste" "BASE_JUMP" v w) c) =
    linearityScore (dual_axis m w c) /\
  (forall group,
     handleGroupWeightChange group v w = handleSubWeightChange "groups" group v w) /\
  Groups.pathShape (groups (handleGroupWeightChange "pathShape" v w)) = v /\
  Groups.revisionActivity (groups (handleGroupWeightChange "revisionActivity" v w)) = v /\
  Groups.fluency (groups (handleGroupWeightChange "fluency" v w)) = v /\
  Groups.pauseBehavior (groups (handleGroupWeightChange "pauseBehavior" v w)) = v /\
  Paste.BASE_JUMP (paste (handleSubWeightChange "paste" "BASE_JUMP" v w)) = v.
Proof.
  split; [| split; [| split; [| split]]].
  - intros group [-> | ->]; apply spontaneity_reads; reflexivity.
  - intros group [-> | ->]; apply linearity_reads; reflexivity.
  - apply linearity_reads; reflexivity.
  - intros group. reflexivity.
  - repeat split.
Qed.

End CallerFacts.

(** ** Counting events *)

Section CountFacts.
Local Open Scope Q_scope.

(** The number of events after the first, up to event [j], that satisfy a
    test. *)
Lemma count_snoc (test : nat -> bool) (j : nat) :
  length (filter (fun i => test i = true) (seq 1 (S j))) =
  (length (filter (fun i => test i = true) (seq 1 j)) +
   (if test (1 + j)%nat then 1 else 0))%nat.
Proof.
  rewrite seq_S, filter_app, length_app. f_equal.
  destruct (test (1 + j)%nat) eqn:E.
  - now rewrite filter_cons_True.
  - rewrite filter_cons_False; [reflexivity |]. rewrite E. discriminate.
Qed.

Lemma num_add_bool (n : nat) (b : bool) :
  JS.num (n + (if b then 1 else 0)) == if b then JS.num n + 1 else JS.num n.
Proof.
  destruct b.
  - rewrite Nat.add_1_r. apply num_S.
  - rewrite Nat.add_0_r. reflexivity.
Qed.

(** X26. The loop of [extractMetrics] starts at the second event: the paste
    count is the number of events after the first whose activity is
    [Paste], the deletion count the number of events after the first that
    are deletions ([Remove/Cut] activity or [Backspace] output), and the
    insertion count the number of [Input] events after the first whose
    previous cursor position is before the end of the previous text.  What
    the first event is does not count. *)
Theorem counts_skip_first_event (keylog : Keylog) (m : Metrics) :
  extractMetrics keylog = Some m ->
  let later := seq 1 (length (EventID keylog) - 1) in
  paste_events m ==
    JS.num (length (filter (fun i => JS.str_eq (activity keylog i) "Paste" = true) later)) /\
  num_deletions m ==
    JS.num (length (filter (fun i => is_deletion keylog i = true) later)) /\
  num_insertions m ==
    JS.num (length (filter
      (fun i => JS.str_eq (activity keylog i) "Input" && cursor_before_end keylog i = true)
      later)).
Proof.
  unfold extractMetrics.
  destruct (length (EventID keylog) <? 2)%nat; [discriminate |].
  intros [= <-]. simpl.
  apply (main_loop_invariant keylog (length (EventID keylog)) (fun j st =>
    Acc.paste_events (Acc.paste st) ==
      JS.num (length (filter (fun i => JS.str_eq (activity keylog i) "Paste" = true)
                        (seq 1 j))) /\
    Acc.num_deletions (Acc.revision st) ==
      JS.num (length (filter (fun i => is_deletion keylog i = true) (seq 1 j))) /\
    Acc.num_insertions (Acc.revision st) ==
      JS.num (length (filter
        (fun i => JS.str_eq (activity keylog i) "Input" && cursor_before_end keylog i = true)
        (seq 1 j))))).
  - simpl. repeat split; reflexivity.
  - intros j st _ (Hp & Hd & Hi).
    rewrite (count_snoc (fun i => JS.str_eq (activity keylog i) "Paste")),
      (count_snoc (fun i => is_deletion keylog i)),
      (count_snoc (fun i => JS.str_eq (activity keylog i) "Input" &&
                            cursor_before_end keylog i)),
      !num_add_bool.
    cbn [loop_body Acc.paste Acc.revision].
    unfold paste_block, insertion_block, deletion_block.
    destruct (JS.str_eq (activity keylog (1 + j)) "Paste"),
      (is_deletion keylog (1 + j)),
      (JS.str_eq (activity keylog (1 + j)) "Input" && cursor_before_end keylog (1 + j));
      simpl; repeat split; lra.
Qed.

Lemma counts_skip_first_event_witness :
  exists m, extractMetrics log_paste_first = Some m /\
    Activity log_paste_first = Some ["Paste"; "Nonproduction"]%string /\
    paste_events m == 0.
Proof.
  eexists. split; [vm_compute; reflexivity |]. split; [reflexivity |].
  pose proof (counts_skip_first_event log_paste_first _ ltac:(vm_compute; reflexivity))
    as H.
  cbv zeta in H. destruct H as (H & _). rewrite H. reflexivity.
Defined.

(** X27. Text typed at the end is no insertion: on a log in which no cursor
    position is before the end of the text of its event, [extractMetrics]
    counts no insertion, and the revision count is the deletion count. *)
Theorem appending_is_no_insertion (keylog : Keylog) (m : Metrics) :
  (forall i c, CursorPosition keylog !! i = Some c ->
     JS.num (JS.length_or_0 (TextContent keylog !! i)) <= c) ->
  extractMetrics keylog = Some m ->
  num_insertions m = 0 /\ total_insertions m = 0 /\ num_revisions m = num_deletions m.
Proof.
  intros Hend. unfold extractMetrics.
  destruct (length (EventID keylog) <? 2)%nat; [discriminate |].
  intros [= <-]. simpl.
  assert (Hcur : forall i, cursor_before_end keylog i = false).
  { intros i. unfold cursor_before_end.
    destruct (CursorPosition keylog !! (i - 1)%nat) as [c |] eqn:Ec; [| reflexivity].
    specialize (Hend _ _ Ec).
    destruct (JS.ltb c (JS.num (JS.length_or_0 (TextContent keylog !! (i - 1)%nat))))
      eqn:E; [| reflexivity].
    apply ltb_lt in E. lra. }
  apply (main_loop_invariant keylog (length (EventID keylog)) (fun _ st =>
    Acc.num_insertions (Acc.revision st) = 0 /\
    Acc.total_insertions (Acc.revision st) = 0 /\
    Acc.num_revisions (Acc.revision st) = Acc.num_deletions (Acc.revision st))).
  - repeat split.
  - intros j st _ (H1 & H2 & H3). cbn [loop_body Acc.revision].
    unfold insertion_block. rewrite Hcur, andb_false_r.
    unfold deletion_block. destruct (is_deletion keylog (1 + j)); simpl.
    + rewrite H3. repeat split; assumption.
    + repeat split; assumption.
Qed.

Lemma appending_is_no_insertion_witness :
  exists m, extractMetrics log_mixed = Some m /\
    num_insertions m = 0 /\ num_revisions m = num_deletions m.
Proof.
  eexists. split; [vm_compute; reflexivity |].
  pose proof (appending_is_no_insertion log_mixed) as H.
  refine (let H' := H _ _ _ in conj (proj1 H') (proj2 (proj2 H'))).
  - intros i c Hi.
    do 8 (destruct i as [| i]; [injection Hi as <-; vm_compute; discriminate |]).
    discriminate.
  - vm_compute. reflexivity.
Defined.

(** X28. The paste contribution of [calculateDualAxis] is saturated as soon
    as the paste event count times [BASE_JUMP] reaches 0.40 (four paste
    events with the default weights), whatever the paste character count.
    When there is no paste event it is 0 as long as the factor of the
    character count is finite, and [NaN] (zero times [Infinity]) once that
    factor overflows. *)
Theorem paste_saturation (m : Metrics) (w : Weights) (c : option Baseline) :
  0 <= Paste.CHAR_SCALE (paste w) ->
  0 <= paste_characters m ->
  exists s, calculateDualAxis (Some m) w c = Some s /\
    (0.40 <= paste_events m * Paste.BASE_JUMP (paste w) ->
     exists p, pasteScore (components s) = Fin p /\ p == 0.40) /\
    (paste_events m == 0 ->
     1 + paste_characters m * Paste.CHAR_SCALE (paste w) < OVERFLOW ->
     exists p, pasteScore (components s) = Fin p /\ p == 0) /\
    (paste_events m == 0 ->
     OVERFLOW <= 1 + paste_characters m * Paste.CHAR_SCALE (paste w) ->
     pasteScore (components s) = NaN).
Proof.
  intros Hs Hc. eexists. split; [reflexivity |].
  cbn [pasteScore components dual_axis]. unfold pasteScore_of.
  pose proof range_facts as (HU0 & HU & HL & HO).
  pose proof (Qmult_le_0_compat _ _ Hc Hs) as Hx.
  set (e := paste_events m * Paste.BASE_JUMP (paste w)) in *.
  set (x := paste_characters m * Paste.CHAR_SCALE (paste w)) in *.
  assert (H04 : 0 <= 0.40) by discriminate.
  (* the factor of the character count: at least 1, or Infinity *)
  assert (Hf : (exists f, Fin 1 ⊕ Fin (paste_characters m) ⊗ Fin (Paste.CHAR_SCALE (paste w))
                          = Fin f /\ f == 1 + x /\ 1 + x < OVERFLOW) \/
               (Fin 1 ⊕ Fin (paste_characters m) ⊗ Fin (Paste.CHAR_SCALE (paste w))
                  = Inf false /\ OVERFLOW <= 1 + x)).
  { cbn [Num_mul]. fold x.
    destruct (to_double_cases x) as [[Ho ->] | [[Ho _] | [[_ Ho] ->]]]; [| lra |].
    - right. split; [reflexivity | lra].
    - cbn [Num_add].
      destruct (to_double_cases (1 + x)) as [[Ho' ->] | [[Ho' _] | [[_ Ho'] ->]]];
        [| lra |].
      + right. split; [reflexivity | exact Ho'].
      + left. exists (1 + x). split; [reflexivity |]. split; [reflexivity | exact Ho']. }
  cbn [Num_mul] in Hf |- *. fold e.
  split; [| split].
  - intros He. exists 0.40. split; [| reflexivity].
    assert (Hsat : forall v, 0.40 <= v -> clamp_number (Fin v) 0 0.40 = Fin 0.40).
    { intros v Hv. rewrite clamp_number_Fin. unfold clamp.
      destruct (Math_min_spec 0.40 v) as [[_ ->] | [Hlt _]]; [reflexivity | lra]. }
    destruct (to_double_cases e) as [[_ ->] | [[Ho _] | [_ ->]]]; [| lra |];
      destruct Hf as [(f & -> & Ef & _) | [-> _]]; cbn [Num_mul xorb].
    + rewrite is_zero_false, ltb_ge by lra. reflexivity.
    + reflexivity.
    + assert (Hef : 0.40 <= e * f).
      { apply Qle_trans with (e * 1); [lra |].
        rewrite (Qmult_comm e 1), (Qmult_comm e f).
        apply Qmult_le_compat_r; lra. }
      destruct (to_double_cases (e * f)) as [[_ ->] | [[Ho _] | [_ ->]]];
        [reflexivity | lra | now apply Hsat].
    + rewrite is_zero_false, ltb_ge by lra. reflexivity.
  - intros He Hfin.
    destruct Hf as [(f & -> & Ef & _) | [_ Ho]]; [| lra].
    assert (He0 : e == 0) by (unfold e; rewrite He; ring).
    rewrite (to_double_fin e) by (unfold finite_double; lra). cbn [Num_mul].
    assert (Hef : e * f == 0) by (rewrite He0; ring).
    rewrite (to_double_fin (e * f)) by (unfold finite_double; lra).
    rewrite clamp_number_Fin. eexists. split; [reflexivity |].
    destruct (clamp_cases (e * f) 0 0.40 H04) as [[H _] | [[H _] | [_ ->]]]; lra.
  - intros He Hinf.
    destruct Hf as [(f & _ & _ & Hlt) | [-> _]]; [lra |].
    assert (He0 : e == 0) by (unfold e; rewrite He; ring).
    rewrite (to_double_fin e) by (unfold finite_double; lra). cbn [Num_mul].
    rewrite is_zero_true by exact He0. reflexivity.
Qed.

Lemma paste_saturation_witness :
  exists s p,
    calculateDualAxis (Some (with_paste sample_metrics 4 0)) DEFAULT_WEIGHTS None = Some s /\
    pasteScore (components s) = Fin p /\ p == 0.40.
Proof.
  destruct (paste_saturation (with_paste sample_metrics 4 0) DEFAULT_WEIGHTS None)
    as (s & Hs & Hsat & _).
  - discriminate.
  - discriminate.
  - destruct Hsat as (p & Hp & Hv); [discriminate |].
    exists s, p. split; [exact Hs |]. split; [exact Hp | exact Hv].
Defined.

End CountFacts.
